(** * Air Lift: the Hostess and Passenger protocols over shared memory and
      semaphores (semSharedMemHostess.c, semSharedMemPassenger.c).

    The two C programs are embedded as transition functions: one transition
    per semaphore operation and per statement that touches the shared
    region.  A system state holds the shared region, the semaphore set, and
    the program counter and locals of every process. *)

From Stdlib Require Import ZArith List Bool Lia String.
From stdpp Require Import base list.

Local Open Scope Z_scope.

(* ===================================================================== *)
(** ** Configuration constants (probConst.h, probDataStruct.h)           *)
(* ===================================================================== *)

(** The headers are not part of the sources at hand; the constants they
    define are taken as parameters.  [FLIGHT_SLOTS] is the declared length of
    the array [nPassengersInFlight]. *)
Class Config := {
  N : Z;
  MINFC : Z;
  MAXFC : Z;
  FLIGHT_SLOTS : nat
}.

(* ===================================================================== *)
(** ** The shared region                                                  *)
(* ===================================================================== *)

Inductive HostessState :=
| WAIT_FOR_FLIGHT | WAIT_FOR_PASSENGER | CHECK_PASSPORT | READY_TO_FLIGHT.

(** Modelled from the spec: the status [UNSTARTED] that a passenger's slot
    holds before the passenger enqueues (the constants of probConst.h and the
    initialisation of the shared region are not part of the sources at
    hand).  [IN_QUEUE], [IN_FLIGHT] and [AT_DESTINATION] are the values the
    passenger code stores. *)
Inductive PassengerState :=
| UNSTARTED | IN_QUEUE | IN_FLIGHT | AT_DESTINATION.

Definition PassengerState_eqb (a b : PassengerState) : bool :=
  match a, b with
  | UNSTARTED, UNSTARTED | IN_QUEUE, IN_QUEUE
  | IN_FLIGHT, IN_FLIGHT | AT_DESTINATION, AT_DESTINATION => true
  | _, _ => false
  end.

(** [sh->fSt.st] *)
Record STAT := mkSTAT {
  hostessStat : HostessState;
  passengerStat : list PassengerState
}.

(** [sh->fSt]; the C [int] fields are integers here (they stay within
    [0 .. N + 1], see [counters_in_range]). *)
Record FULL_STAT := mkFULL_STAT {
  st : STAT;
  nPassInQueue : Z;
  nPassInFlight : Z;
  totalPassBoarded : Z;
  nFlight : Z;
  nPassengersInFlight : list Z;
  finished : bool;
  passengerChecked : Z
}.

Definition set_hostessStat (v : HostessState) (m : FULL_STAT) : FULL_STAT :=
  mkFULL_STAT (mkSTAT v (passengerStat (st m)))
    (nPassInQueue m) (nPassInFlight m) (totalPassBoarded m) (nFlight m)
    (nPassengersInFlight m) (finished m) (passengerChecked m).

Definition set_passengerStat (v : list PassengerState) (m : FULL_STAT) : FULL_STAT :=
  mkFULL_STAT (mkSTAT (hostessStat (st m)) v)
    (nPassInQueue m) (nPassInFlight m) (totalPassBoarded m) (nFlight m)
    (nPassengersInFlight m) (finished m) (passengerChecked m).

Definition set_nPassInQueue (v : Z) (m : FULL_STAT) : FULL_STAT :=
  mkFULL_STAT (st m) v (nPassInFlight m) (totalPassBoarded m) (nFlight m)
    (nPassengersInFlight m) (finished m) (passengerChecked m).

Definition set_nPassInFlight (v : Z) (m : FULL_STAT) : FULL_STAT :=
  mkFULL_STAT (st m) (nPassInQueue m) v (totalPassBoarded m) (nFlight m)
    (nPassengersInFlight m) (finished m) (passengerChecked m).

Definition set_totalPassBoarded (v : Z) (m : FULL_STAT) : FULL_STAT :=
  mkFULL_STAT (st m) (nPassInQueue m) (nPassInFlight m) v (nFlight m)
    (nPassengersInFlight m) (finished m) (passengerChecked m).

Definition set_nFlight (v : Z) (m : FULL_STAT) : FULL_STAT :=
  mkFULL_STAT (st m) (nPassInQueue m) (nPassInFlight m) (totalPassBoarded m) v
    (nPassengersInFlight m) (finished m) (passengerChecked m).

Definition set_nPassengersInFlight (v : list Z) (m : FULL_STAT) : FULL_STAT :=
  mkFULL_STAT (st m) (nPassInQueue m) (nPassInFlight m) (totalPassBoarded m)
    (nFlight m) v (finished m) (passengerChecked m).

Definition set_finished (v : bool) (m : FULL_STAT) : FULL_STAT :=
  mkFULL_STAT (st m) (nPassInQueue m) (nPassInFlight m) (totalPassBoarded m)
    (nFlight m) (nPassengersInFlight m) v (passengerChecked m).

Definition set_passengerChecked (v : Z) (m : FULL_STAT) : FULL_STAT :=
  mkFULL_STAT (st m) (nPassInQueue m) (nPassInFlight m) (totalPassBoarded m)
    (nFlight m) (nPassengersInFlight m) (finished m) v.

(** A store [a[i] = v] into a C array.  An index outside the array is
    undefined behaviour in C: the store then has no result here. *)
Definition array_store {A} (a : list A) (i : Z) (v : A) : option (list A) :=
  if (0 <=? i) && (i <? Z.of_nat (length a))
  then Some (<[Z.to_nat i := v]> a)
  else None.
#[global] Arguments array_store : simpl never.

(** Number of elements of [l] satisfying [f]. *)
Fixpoint count {A} (f : A -> bool) (l : list A) : Z :=
  match l with
  | [] => 0
  | x :: l' => (if f x then 1 else 0) + count f l'
  end.

(** Number of passengers whose recorded status is [AT_DESTINATION]. *)
Definition atDestination (m : FULL_STAT) : Z :=
  count (PassengerState_eqb AT_DESTINATION) (passengerStat (st m)).

(* ===================================================================== *)
(** ** The semaphore set (sharedDataSync.h)                               *)
(* ===================================================================== *)

Inductive sem :=
| mutex
| passengersInQueue
| passengersWaitInQueue
| idShown
| readyForBoarding
| readyToFlight
| passengersWaitInFlight
| planeEmpty.

Record SEMS := mkSEMS {
  v_mutex : Z;
  v_passengersInQueue : Z;
  v_passengersWaitInQueue : Z;
  v_idShown : Z;
  v_readyForBoarding : Z;
  v_readyToFlight : Z;
  v_passengersWaitInFlight : Z;
  v_planeEmpty : Z
}.

Definition semval (S : SEMS) (x : sem) : Z :=
  match x with
  | mutex => v_mutex S
  | passengersInQueue => v_passengersInQueue S
  | passengersWaitInQueue => v_passengersWaitInQueue S
  | idShown => v_idShown S
  | readyForBoarding => v_readyForBoarding S
  | readyToFlight => v_readyToFlight S
  | passengersWaitInFlight => v_passengersWaitInFlight S
  | planeEmpty => v_planeEmpty S
  end.

Definition semset (S : SEMS) (x : sem) (v : Z) : SEMS :=
  match S with
  | mkSEMS a b c d e f g h =>
    match x with
    | mutex => mkSEMS v b c d e f g h
    | passengersInQueue => mkSEMS a v c d e f g h
    | passengersWaitInQueue => mkSEMS a b v d e f g h
    | idShown => mkSEMS a b c v e f g h
    | readyForBoarding => mkSEMS a b c d v f g h
    | readyToFlight => mkSEMS a b c d e v g h
    | passengersWaitInFlight => mkSEMS a b c d e f v h
    | planeEmpty => mkSEMS a b c d e f g v
    end
  end.

(** What the operating system answers to one semaphore call: the call is
    carried out, or it returns the error value -1 and changes nothing. *)
Inductive outcome := Ok | Err.

(** [semDown]: with [Ok] the call needs a positive value and takes one unit
    (no result while the value is zero: the caller stays blocked); the
    boolean tells whether the call succeeded. *)
Definition semDown (S : SEMS) (x : sem) (o : outcome) : option (SEMS * bool) :=
  match o with
  | Err => Some (S, false)
  | Ok => if 0 <? semval S x
          then Some (semset S x (semval S x - 1), true)
          else None
  end.

(** [semUp] never blocks. *)
Definition semUp (S : SEMS) (x : sem) (o : outcome) : option (SEMS * bool) :=
  match o with
  | Err => Some (S, false)
  | Ok => Some (semset S x (semval S x + 1), true)
  end.

(* ===================================================================== *)
(** ** Labels of transitions                                              *)
(* ===================================================================== *)

Inductive semop := Down | Up.

(** Calls into the logging module (logging.h). *)
Inductive logcall := saveState | savePassengerChecked | saveFlightDeparted.

Inductive label :=
| Stmt (logs : list logcall)          (* statements and the logging calls after them *)
| Gate (op : semop) (x : sem)         (* a semaphore call that succeeded *)
| Ignored (op : semop) (x : sem)      (* a call that failed, result not tested *)
| Fatal (op : semop) (x : sem) (msg : string). (* perror(msg); exit(EXIT_FAILURE) *)

Section Protocol.
Context {cfg : Config}.

(* ===================================================================== *)
(** ** The hostess (semSharedMemHostess.c)                                *)
(* ===================================================================== *)

(** Program points of the hostess, in the order of the source text. *)
Inductive hpc :=
(* main *)
| H_while          (* while (nPassengers < N) *)
(* waitForNextFlight *)
| H_wnf_lock       (* semDown (mutex) *)
| H_wnf_stat       (* hostessStat = WAIT_FOR_FLIGHT; saveState *)
| H_wnf_unlock     (* semUp (mutex) *)
| H_wnf_wait       (* semDown (readyForBoarding) *)
(* waitForPassenger *)
| H_wfp_lock       (* semDown (mutex) *)
| H_wfp_stat       (* hostessStat = WAIT_FOR_PASSENGER; saveState *)
| H_wfp_unlock     (* semUp (mutex) *)
| H_wfp_wait       (* semDown (passengersInQueue) *)
(* checkPassport *)
| H_cp_serve       (* semUp (passengersWaitInQueue) *)
| H_cp_lock1       (* semDown (mutex) *)
| H_cp_stat        (* hostessStat = CHECK_PASSPORT; saveState *)
| H_cp_unlock1     (* semUp (mutex) *)
| H_cp_wait        (* semDown (idShown) *)
| H_cp_lock2       (* semDown (mutex) *)
| H_cp_decq        (* nPassInQueue-- *)
| H_cp_incf        (* nPassInFlight++ *)
| H_cp_inct        (* totalPassBoarded++; savePassengerChecked; saveState *)
| H_cp_decide      (* if ... last = true ... else last = false *)
| H_cp_unlock2     (* semUp (mutex); return last *)
(* main *)
| H_count          (* nPassengers++; while (!lastPassengerInFlight) *)
(* signalReadyToFlight *)
| H_srf_lock       (* semDown (mutex) *)
| H_srf_stat       (* hostessStat = READY_TO_FLIGHT; saveState *)
| H_srf_record     (* nPassengersInFlight[nFlight - 1] = nPassInFlight; saveFlightDeparted *)
| H_srf_finish     (* if (totalPassBoarded == N) finished = true *)
| H_srf_unlock     (* semUp (mutex) *)
| H_srf_signal     (* semUp (readyToFlight), tested against zero *)
(* main *)
| H_done           (* the loop is left; return EXIT_SUCCESS *)
| H_exit.          (* exit (EXIT_FAILURE) *)

(** The hostess's own variables: [nPassengers] and [lastPassengerInFlight] of
    [main], [last] of [checkPassport]. *)
Record HLocal := mkHLocal {
  h_pc : hpc;
  nPassengers : Z;
  last : bool;
  lastPassengerInFlight : bool
}.

Definition h_goto (pc : hpc) (h : HLocal) : HLocal :=
  mkHLocal pc (nPassengers h) (last h) (lastPassengerInFlight h).

Definition HT_down : string := "error on the down operation for semaphore access (HT)".
Definition HT_up : string := "error on the up operation for semaphore access (HT)".

Definition semCall (op : semop) (S : SEMS) (x : sem) (o : outcome) : option (SEMS * bool) :=
  match op with Down => semDown S x o | Up => semUp S x o end.

(** A semaphore call of the hostess whose result is tested: on failure
    [perror] and [exit (EXIT_FAILURE)]. *)
Definition h_gate (op : semop) (x : sem) (next : hpc)
    (o : outcome) (h : HLocal) (m : FULL_STAT) (S : SEMS)
    : option (HLocal * FULL_STAT * SEMS * label) :=
  match semCall op S x o with
  | None => None
  | Some (S', true) => Some (h_goto next h, m, S', Gate op x)
  | Some (S', false) =>
      Some (h_goto H_exit h, m, S',
            Fatal op x (match op with Down => HT_down | Up => HT_up end))
  end.

(** Statements between semaphore calls; the operating system is not asked. *)
Definition h_stmt (h' : HLocal) (m' : FULL_STAT) (logs : list logcall)
    (o : outcome) (S : SEMS) : option (HLocal * FULL_STAT * SEMS * label) :=
  match o with
  | Ok => Some (h', m', S, Stmt logs)
  | Err => None
  end.

(** The getters [nPassengersInFlight ()] and [nPassengersInQueue ()]; the
    first is primed, the name being that of the array as well. *)
Definition nPassengersInFlight' (m : FULL_STAT) : Z := nPassInFlight m.
Definition nPassengersInQueue (m : FULL_STAT) : Z := nPassInQueue m.

(** The if-else chain of [checkPassport] that sets [last]. *)
Definition departure_decision (m : FULL_STAT) : bool :=
  if nPassengersInFlight' m =? MAXFC then true
  else if (MINFC <=? nPassengersInFlight' m) && (nPassengersInQueue m =? 0) then true
  else if totalPassBoarded m =? N then true
  else false.

Definition hostess_step (o : outcome) (h : HLocal) (m : FULL_STAT) (S : SEMS)
    : option (HLocal * FULL_STAT * SEMS * label) :=
  match h_pc h with
  | H_while =>
      h_stmt (h_goto (if nPassengers h <? N then H_wnf_lock else H_done) h) m [] o S
  (* waitForNextFlight *)
  | H_wnf_lock => h_gate Down mutex H_wnf_stat o h m S
  | H_wnf_stat =>
      h_stmt (h_goto H_wnf_unlock h) (set_hostessStat WAIT_FOR_FLIGHT m) [saveState] o S
  | H_wnf_unlock => h_gate Up mutex H_wnf_wait o h m S
  | H_wnf_wait => h_gate Down readyForBoarding H_wfp_lock o h m S
  (* waitForPassenger *)
  | H_wfp_lock => h_gate Down mutex H_wfp_stat o h m S
  | H_wfp_stat =>
      h_stmt (h_goto H_wfp_unlock h) (set_hostessStat WAIT_FOR_PASSENGER m) [saveState] o S
  | H_wfp_unlock => h_gate Up mutex H_wfp_wait o h m S
  | H_wfp_wait => h_gate Down passengersInQueue H_cp_serve o h m S
  (* checkPassport *)
  | H_cp_serve => h_gate Up passengersWaitInQueue H_cp_lock1 o h m S
  | H_cp_lock1 => h_gate Down mutex H_cp_stat o h m S
  | H_cp_stat =>
      h_stmt (h_goto H_cp_unlock1 h) (set_hostessStat CHECK_PASSPORT m) [saveState] o S
  | H_cp_unlock1 => h_gate Up mutex H_cp_wait o h m S
  | H_cp_wait => h_gate Down idShown H_cp_lock2 o h m S
  | H_cp_lock2 => h_gate Down mutex H_cp_decq o h m S
  | H_cp_decq =>
      h_stmt (h_goto H_cp_incf h) (set_nPassInQueue (nPassInQueue m - 1) m) [] o S
  | H_cp_incf =>
      h_stmt (h_goto H_cp_inct h) (set_nPassInFlight (nPassInFlight m + 1) m) [] o S
  | H_cp_inct =>
      h_stmt (h_goto H_cp_decide h) (set_totalPassBoarded (totalPassBoarded m + 1) m)
             [savePassengerChecked; saveState] o S
  | H_cp_decide =>
      h_stmt (mkHLocal H_cp_unlock2 (nPassengers h) (departure_decision m)
                       (lastPassengerInFlight h)) m [] o S
  | H_cp_unlock2 =>
      match h_gate Up mutex H_count o h m S with
      | Some (h', m', S', Gate op x) =>
          Some (mkHLocal (h_pc h') (nPassengers h') (last h') (last h'), m', S', Gate op x)
      | r => r
      end
  (* main *)
  | H_count =>
      h_stmt (mkHLocal (if lastPassengerInFlight h then H_srf_lock else H_wfp_lock)
                       (nPassengers h + 1) (last h) (lastPassengerInFlight h)) m [] o S
  (* signalReadyToFlight *)
  | H_srf_lock => h_gate Down mutex H_srf_stat o h m S
  | H_srf_stat =>
      h_stmt (h_goto H_srf_record h) (set_hostessStat READY_TO_FLIGHT m) [saveState] o S
  | H_srf_record =>
      match array_store (nPassengersInFlight m) (nFlight m - 1) (nPassInFlight m) with
      | Some a =>
          h_stmt (h_goto H_srf_finish h) (set_nPassengersInFlight a m) [saveFlightDeparted] o S
      | None => None
      end
  | H_srf_finish =>
      h_stmt (h_goto H_srf_unlock h)
             (if totalPassBoarded m =? N then set_finished true m else m) [] o S
  | H_srf_unlock => h_gate Up mutex H_srf_signal o h m S
  | H_srf_signal => h_gate Up readyToFlight H_while o h m S
  | H_done => None
  | H_exit => None
  end.

(* ===================================================================== *)
(** ** A passenger (semSharedMemPassenger.c)                              *)
(* ===================================================================== *)

Inductive ppc :=
(* main *)
| P_travel         (* travelToAirport () *)
(* waitInQueue *)
| P_wq_lock1       (* semDown (mutex) *)
| P_wq_incq        (* nPassInQueue++ *)
| P_wq_stat1       (* passengerStat[passengerId] = IN_QUEUE; saveState *)
| P_wq_unlock1     (* semUp (mutex) *)
| P_wq_signal      (* semUp (passengersInQueue) *)
| P_wq_wait        (* semDown (passengersWaitInQueue) *)
| P_wq_lock2       (* semDown (mutex) *)
| P_wq_show        (* passengerChecked = passengerId *)
| P_wq_stat2       (* passengerStat[passengerId] = IN_FLIGHT; saveState *)
| P_wq_unlock2     (* semUp (mutex) *)
| P_wq_idshown     (* semUp (idShown), tested against zero *)
(* waitUntilDestination *)
| P_wd_wait        (* semDown (passengersWaitInFlight), result not tested *)
| P_wd_lock        (* semDown (mutex) *)
| P_wd_stat        (* passengerStat[passengerId] = AT_DESTINATION *)
| P_wd_dec         (* nPassInFlight-- *)
| P_wd_test        (* if (nPassInFlight == 0) *)
| P_wd_signal      (* semUp (planeEmpty) *)
| P_wd_unlock      (* semUp (mutex) *)
(* main *)
| P_done           (* return EXIT_SUCCESS *)
| P_exit.          (* exit (EXIT_FAILURE) *)

Definition PG_down : string := "error on the down operation for semaphore access (PG)".
Definition PG_up : string := "error on the up operation for semaphore access (PG)".

Definition p_gate (op : semop) (x : sem) (next : ppc)
    (o : outcome) (m : FULL_STAT) (S : SEMS)
    : option (ppc * FULL_STAT * SEMS * label) :=
  match semCall op S x o with
  | None => None
  | Some (S', true) => Some (next, m, S', Gate op x)
  | Some (S', false) =>
      Some (P_exit, m, S',
            Fatal op x (match op with Down => PG_down | Up => PG_up end))
  end.

(** A semaphore call whose result the code does not look at. *)
Definition p_gate_untested (op : semop) (x : sem) (next : ppc)
    (o : outcome) (m : FULL_STAT) (S : SEMS)
    : option (ppc * FULL_STAT * SEMS * label) :=
  match semCall op S x o with
  | None => None
  | Some (S', true) => Some (next, m, S', Gate op x)
  | Some (S', false) => Some (next, m, S', Ignored op x)
  end.

Definition p_stmt (next : ppc) (m' : FULL_STAT) (logs : list logcall)
    (o : outcome) (S : SEMS) : option (ppc * FULL_STAT * SEMS * label) :=
  match o with
  | Ok => Some (next, m', S, Stmt logs)
  | Err => None
  end.

(** [passengerStat[passengerId] = v] followed by the statements [k]. *)
Definition p_store_stat (passengerId : nat) (v : PassengerState) (next : ppc)
    (logs : list logcall) (o : outcome) (m : FULL_STAT) (S : SEMS)
    : option (ppc * FULL_STAT * SEMS * label) :=
  match array_store (passengerStat (st m)) (Z.of_nat passengerId) v with
  | Some a => p_stmt next (set_passengerStat a m) logs o S
  | None => None
  end.

Definition passenger_step (passengerId : nat) (o : outcome)
    (pc : ppc) (m : FULL_STAT) (S : SEMS)
    : option (ppc * FULL_STAT * SEMS * label) :=
  match pc with
  | P_travel => p_stmt P_wq_lock1 m [] o S
  (* waitInQueue *)
  | P_wq_lock1 => p_gate Down mutex P_wq_incq o m S
  | P_wq_incq => p_stmt P_wq_stat1 (set_nPassInQueue (nPassInQueue m + 1) m) [] o S
  | P_wq_stat1 => p_store_stat passengerId IN_QUEUE P_wq_unlock1 [saveState] o m S
  | P_wq_unlock1 => p_gate Up mutex P_wq_signal o m S
  | P_wq_signal => p_gate Up passengersInQueue P_wq_wait o m S
  | P_wq_wait => p_gate Down passengersWaitInQueue P_wq_lock2 o m S
  | P_wq_lock2 => p_gate Down mutex P_wq_show o m S
  | P_wq_show =>
      p_stmt P_wq_stat2 (set_passengerChecked (Z.of_nat passengerId) m) [] o S
  | P_wq_stat2 => p_store_stat passengerId IN_FLIGHT P_wq_unlock2 [saveState] o m S
  | P_wq_unlock2 => p_gate Up mutex P_wq_idshown o m S
  | P_wq_idshown => p_gate Up idShown P_wd_wait o m S
  (* waitUntilDestination *)
  | P_wd_wait => p_gate_untested Down passengersWaitInFlight P_wd_lock o m S
  | P_wd_lock => p_gate Down mutex P_wd_stat o m S
  | P_wd_stat => p_store_stat passengerId AT_DESTINATION P_wd_dec [] o m S
  | P_wd_dec => p_stmt P_wd_test (set_nPassInFlight (nPassInFlight m - 1) m) [] o S
  | P_wd_test =>
      p_stmt (if nPassInFlight m =? 0 then P_wd_signal else P_wd_unlock) m [] o S
  | P_wd_signal => p_gate Up planeEmpty P_wd_unlock o m S
  | P_wd_unlock => p_gate Up mutex P_done o m S
  | P_done => None
  | P_exit => None
  end.

(* ===================================================================== *)
(** ** The pilot                                                          *)
(* ===================================================================== *)

(** Modelled from the spec: the pilot process, which is not part of the
    sources at hand.  Once per flight cycle it signals [readyForBoarding],
    blocks on [readyToFlight], signals [passengersWaitInFlight] once per
    passenger aboard (the count read from [nPassInFlight] before any
    passenger leaves), and blocks on [planeEmpty].  It numbers the flight it
    opens in [nFlight], which neither the hostess nor a passenger writes.
    Its semaphore calls do not fail. *)
Inductive plpc :=
| PL_open_lock     (* semDown (mutex) *)
| PL_open_next     (* nFlight++ *)
| PL_open_unlock   (* semUp (mutex) *)
| PL_open_signal   (* semUp (readyForBoarding) *)
| PL_wait_ready    (* semDown (readyToFlight) *)
| PL_drop_lock     (* semDown (mutex) *)
| PL_drop_read     (* toRelease = nPassInFlight *)
| PL_drop_unlock   (* semUp (mutex) *)
| PL_drop_release  (* while (toRelease-- > 0) semUp (passengersWaitInFlight) *)
| PL_wait_empty.   (* semDown (planeEmpty); then the next cycle *)

Record PLocal := mkPLocal {
  pl_pc : plpc;
  toRelease : Z
}.

Definition pl_gate (op : semop) (x : sem) (next : plpc)
    (p : PLocal) (m : FULL_STAT) (S : SEMS)
    : option (PLocal * FULL_STAT * SEMS * label) :=
  match semCall op S x Ok with
  | Some (S', _) => Some (mkPLocal next (toRelease p), m, S', Gate op x)
  | None => None
  end.

Definition pilot_step (p : PLocal) (m : FULL_STAT) (S : SEMS)
    : option (PLocal * FULL_STAT * SEMS * label) :=
  match pl_pc p with
  | PL_open_lock => pl_gate Down mutex PL_open_next p m S
  | PL_open_next =>
      Some (mkPLocal PL_open_unlock (toRelease p), set_nFlight (nFlight m + 1) m, S, Stmt [])
  | PL_open_unlock => pl_gate Up mutex PL_open_signal p m S
  | PL_open_signal => pl_gate Up readyForBoarding PL_wait_ready p m S
  | PL_wait_ready => pl_gate Down readyToFlight PL_drop_lock p m S
  | PL_drop_lock => pl_gate Down mutex PL_drop_read p m S
  | PL_drop_read => Some (mkPLocal PL_drop_unlock (nPassInFlight m), m, S, Stmt [])
  | PL_drop_unlock => pl_gate Up mutex PL_drop_release p m S
  | PL_drop_release =>
      if 0 <? toRelease p
      then match semCall Up S passengersWaitInFlight Ok with
           | Some (S', _) =>
               Some (mkPLocal PL_drop_release (toRelease p - 1), m, S',
                     Gate Up passengersWaitInFlight)
           | None => None
           end
      else Some (mkPLocal PL_wait_empty (toRelease p), m, S, Stmt [])
  | PL_wait_empty => pl_gate Down planeEmpty PL_open_lock p m S
  end.

(* ===================================================================== *)
(** ** The system                                                         *)
(* ===================================================================== *)

Inductive actor := Hostess | Passenger (passengerId : nat) | Pilot.

Record system := mkSystem {
  sh : FULL_STAT;            (* the shared region *)
  gates : SEMS;              (* the semaphore set *)
  hostess : HLocal;
  passengers : list ppc;     (* passenger process [i] has identifier [i] *)
  pilot : PLocal
}.

(** One transition of actor [a], the operating system answering [o] should
    the transition be a semaphore call. *)
Definition sys_step (a : actor) (o : outcome) (s : system) : option (system * label) :=
  match a with
  | Hostess =>
      match hostess_step o (hostess s) (sh s) (gates s) with
      | Some (h', m', S', l) => Some (mkSystem m' S' h' (passengers s) (pilot s), l)
      | None => None
      end
  | Passenger i =>
      match passengers s !! i with
      | Some pc =>
          match passenger_step i o pc (sh s) (gates s) with
          | Some (pc', m', S', l) =>
              Some (mkSystem m' S' (hostess s) (<[i := pc']> (passengers s)) (pilot s), l)
          | None => None
          end
      | None => None
      end
  | Pilot =>
      match o with
      | Ok =>
          match pilot_step (pilot s) (sh s) (gates s) with
          | Some (p', m', S', l) => Some (mkSystem m' S' (hostess s) (passengers s) p', l)
          | None => None
          end
      | Err => None
      end
  end.

(** Modelled from the spec: the initial contents of the shared region and of
    the semaphore set (created before any process starts): counters zero,
    [finished] false, every passenger unstarted, the lock at one and every
    gate at zero. *)
Definition init_sh : FULL_STAT :=
  mkFULL_STAT (mkSTAT WAIT_FOR_FLIGHT (replicate (Z.to_nat N) UNSTARTED))
    0 0 0 0 (replicate FLIGHT_SLOTS 0) false 0.

Definition init_gates : SEMS := mkSEMS 1 0 0 0 0 0 0 0.

Definition init : system :=
  mkSystem init_sh init_gates
    (mkHLocal H_while 0 false false)
    (replicate (Z.to_nat N) P_travel)
    (mkPLocal PL_open_lock 0).

(** An event of an execution: who moved, what the operating system answered,
    and the label of the transition. *)
Definition event : Type := actor * outcome * label.

(** [exec s tr s']: the system goes from [s] to [s'] through the events [tr]. *)
Inductive exec (s : system) : list event -> system -> Prop :=
| exec_nil : exec s [] s
| exec_snoc tr s1 a o l s2 :
    exec s tr s1 -> sys_step a o s1 = Some (s2, l) -> exec s (tr ++ [(a, o, l)]) s2.

(** No semaphore call of the execution failed. *)
Definition fault_free (tr : list event) : Prop :=
  Forall (fun e : event => e.1.2 = Ok) tr.

(** Running a schedule: the listed actors move in turn. *)
Fixpoint run (sched : list (actor * outcome)) (s : system) : option system :=
  match sched with
  | [] => Some s
  | (a, o) :: sched' =>
      match sys_step a o s with
      | Some (s', _) => run sched' s'
      | None => None
      end
  end.

(** The events of running a schedule. *)
Fixpoint trace_of (sched : list (actor * outcome)) (s : system) : list event :=
  match sched with
  | [] => []
  | (a, o) :: sched' =>
      match sys_step a o s with
      | Some (s', l) => (a, o, l) :: trace_of sched' s'
      | None => []
      end
  end.

(** The state a schedule leads to from the initial state. *)
Definition after (sched : list (actor * outcome)) : system :=
  match run sched init with Some s => s | None => init end.

(** The schedule can be run from the initial state. *)
Definition runs (sched : list (actor * outcome)) : bool :=
  match run sched init with Some _ => true | None => false end.

(** Every actor of the system. *)
Definition everyone (s : system) : list actor :=
  Hostess :: Pilot :: map Passenger (seq 0 (length (passengers s))).

(** One round: each of the actors [acts] that can move takes one
    transition, in turn. *)
Fixpoint round (acts : list actor) (s : system) : list (actor * outcome) * system :=
  match acts with
  | [] => ([], s)
  | a :: acts' =>
      match sys_step a Ok s with
      | Some (s', _) =>
          let '(sched, s'') := round acts' s' in ((a, Ok) :: sched, s'')
      | None => round acts' s
      end
  end.

(** The schedule of at most [n] rounds, stopping when nobody can move. *)
Fixpoint round_robin (n : nat) (s : system) : list (actor * outcome) :=
  match n with
  | O => []
  | Datatypes.S n' =>
      match round (everyone s) s with
      | ([], _) => []
      | (sched, s') => sched ++ round_robin n' s'
      end
  end.

(** The mutex is free. *)
Definition mutex_free (s : system) : Prop := semval (gates s) mutex = 1.

(** [n] consecutive transitions of the hostess, every semaphore call
    succeeding, with the labels in order. *)
Fixpoint hostess_run (n : nat) (h : HLocal) (m : FULL_STAT) (S : SEMS)
    : option (HLocal * FULL_STAT * SEMS * list label) :=
  match n with
  | O => Some (h, m, S, [])
  | Datatypes.S n' =>
      match hostess_step Ok h m S with
      | Some (h1, m1, S1, l) =>
          match hostess_run n' h1 m1 S1 with
          | Some (h2, m2, S2, ls) => Some (h2, m2, S2, l :: ls)
          | None => None
          end
      | None => None
      end
  end.

(** The same for passenger [passengerId]. *)
Fixpoint passenger_run (n : nat) (passengerId : nat) (pc : ppc) (m : FULL_STAT) (S : SEMS)
    : option (ppc * FULL_STAT * SEMS * list label) :=
  match n with
  | O => Some (pc, m, S, [])
  | Datatypes.S n' =>
      match passenger_step passengerId Ok pc m S with
      | Some (pc1, m1, S1, l) =>
          match passenger_run n' passengerId pc1 m1 S1 with
          | Some (pc2, m2, S2, ls) => Some (pc2, m2, S2, l :: ls)
          | None => None
          end
      | None => None
      end
  end.

(** *** Program points inside a critical section *)

Definition b2z (b : bool) : Z := if b then 1 else 0.

Definition h_in_cs (pc : hpc) : bool :=
  match pc with
  | H_wnf_stat | H_wnf_unlock | H_wfp_stat | H_wfp_unlock
  | H_cp_stat | H_cp_unlock1
  | H_cp_decq | H_cp_incf | H_cp_inct | H_cp_decide | H_cp_unlock2
  | H_srf_stat | H_srf_record | H_srf_finish | H_srf_unlock => true
  | _ => false
  end.

Definition p_in_cs (pc : ppc) : bool :=
  match pc with
  | P_wq_incq | P_wq_stat1 | P_wq_unlock1
  | P_wq_show | P_wq_stat2 | P_wq_unlock2
  | P_wd_stat | P_wd_dec | P_wd_test | P_wd_signal | P_wd_unlock => true
  | _ => false
  end.

Definition pl_in_cs (pc : plpc) : bool :=
  match pc with
  | PL_open_next | PL_open_unlock | PL_drop_read | PL_drop_unlock => true
  | _ => false
  end.

(** Number of processes inside a critical section. *)
Definition holders (s : system) : Z :=
  b2z (h_in_cs (h_pc (hostess s)))
  + count p_in_cs (passengers s)
  + b2z (pl_in_cs (pl_pc (pilot s))).

(** *** What the shared region holds at each program point *)

(** The status in a passenger's slot, by the passenger's program point. *)
Definition stat_at (pc : ppc) : option PassengerState :=
  match pc with
  | P_travel | P_wq_lock1 | P_wq_incq | P_wq_stat1 => Some UNSTARTED
  | P_wq_unlock1 | P_wq_signal | P_wq_wait | P_wq_lock2 | P_wq_show
  | P_wq_stat2 => Some IN_QUEUE
  | P_wq_unlock2 | P_wq_idshown | P_wd_wait | P_wd_lock | P_wd_stat => Some IN_FLIGHT
  | P_wd_dec | P_wd_test | P_wd_signal | P_wd_unlock | P_done => Some AT_DESTINATION
  | P_exit => None
  end.

(** The status that follows a status. *)
Definition next_stat (v : PassengerState) : option PassengerState :=
  match v with
  | UNSTARTED => Some IN_QUEUE
  | IN_QUEUE => Some IN_FLIGHT
  | IN_FLIGHT => Some AT_DESTINATION
  | AT_DESTINATION => None
  end.

Definition stat_rank (v : PassengerState) : Z :=
  match v with
  | UNSTARTED => 0 | IN_QUEUE => 1 | IN_FLIGHT => 2 | AT_DESTINATION => 3
  end.

(** The hostess has incremented [nPassInFlight] and not yet [totalPassBoarded]. *)
Definition h_at_inct (pc : hpc) : bool :=
  match pc with H_cp_inct => true | _ => false end.

(** The passenger has stored [AT_DESTINATION] and not yet left the count. *)
Definition p_at_dec (pc : ppc) : bool :=
  match pc with P_wd_dec => true | _ => false end.

(** The hostess's count [nPassengers] against [totalPassBoarded] and
    [finished], by her program point. *)
Definition hinv (h : HLocal) (m : FULL_STAT) : Prop :=
  0 <= totalPassBoarded m <= N
  /\ (finished m = true -> totalPassBoarded m = N)
  /\ match h_pc h with
     | H_while =>
         nPassengers h = totalPassBoarded m
         /\ (totalPassBoarded m = N -> 0 < N -> finished m = true)
     | H_done =>
         nPassengers h = totalPassBoarded m /\ totalPassBoarded m = N
         /\ (0 < N -> finished m = true)
     | H_wnf_lock | H_wnf_stat | H_wnf_unlock | H_wnf_wait
     | H_wfp_lock | H_wfp_stat | H_wfp_unlock | H_wfp_wait
     | H_cp_serve | H_cp_lock1 | H_cp_stat | H_cp_unlock1 | H_cp_wait
     | H_cp_lock2 | H_cp_decq | H_cp_incf | H_cp_inct =>
         nPassengers h = totalPassBoarded m /\ totalPassBoarded m < N
         /\ finished m = false
     | H_cp_decide =>
         nPassengers h + 1 = totalPassBoarded m /\ finished m = false
     | H_cp_unlock2 =>
         nPassengers h + 1 = totalPassBoarded m /\ finished m = false
         /\ (last h = false -> totalPassBoarded m <> N)
     | H_count =>
         nPassengers h + 1 = totalPassBoarded m /\ finished m = false
         /\ (lastPassengerInFlight h = false -> totalPassBoarded m <> N)
     | H_srf_lock | H_srf_stat | H_srf_record | H_srf_finish =>
         nPassengers h = totalPassBoarded m /\ finished m = false
     | H_srf_unlock | H_srf_signal =>
         nPassengers h = totalPassBoarded m
         /\ (finished m = true <-> totalPassBoarded m = N)
     | H_exit => True
     end.

(** What holds in every state of every execution, failed semaphore calls
    included. *)
Record Inv (s : system) : Prop := mkInv {
  inv_mutex :
    0 <= semval (gates s) mutex /\ semval (gates s) mutex + holders s <= 1;
  inv_len : length (passengerStat (st (sh s))) = length (passengers s);
  inv_stat : forall (i : nat) (pc : ppc) (v : PassengerState),
    passengers s !! i = Some pc -> stat_at pc = Some v ->
    passengerStat (st (sh s)) !! i = Some v;
  inv_flight :
    nPassInFlight (sh s) + atDestination (sh s)
    = totalPassBoarded (sh s) + b2z (h_at_inct (h_pc (hostess s)))
      + count p_at_dec (passengers s);
  inv_hostess : hinv (hostess s) (sh s)
}.

(** Between the check-in that completes a flight and the end of the
    READY_TO_FLIGHT critical section: [totalPassBoarded] is final for the
    flight, [finished] not yet written. *)
Definition h_in_window (pc : hpc) : bool :=
  match pc with
  | H_cp_decide | H_cp_unlock2 | H_count
  | H_srf_lock | H_srf_stat | H_srf_record | H_srf_finish => true
  | _ => false
  end.

(** *** Executions without failed semaphore calls

    Regions of the passenger program, as the positions of a passenger in the
    handshakes. *)

(** Past [semUp (passengersInQueue)]. *)
Definition p_announced (pc : ppc) : bool :=
  match pc with
  | P_travel | P_wq_lock1 | P_wq_incq | P_wq_stat1 | P_wq_unlock1 | P_wq_signal
  | P_exit => false
  | _ => true
  end.

(** Past [semDown (passengersWaitInQueue)]. *)
Definition p_served (pc : ppc) : bool :=
  match pc with
  | P_travel | P_wq_lock1 | P_wq_incq | P_wq_stat1 | P_wq_unlock1 | P_wq_signal
  | P_wq_wait | P_exit => false
  | _ => true
  end.

(** Past [semDown (passengersWaitInQueue)], before the end of
    [semUp (idShown)]. *)
Definition p_showing (pc : ppc) : bool :=
  match pc with
  | P_wq_lock2 | P_wq_show | P_wq_stat2 | P_wq_unlock2 | P_wq_idshown => true
  | _ => false
  end.

(** Aboard, blocked on [passengersWaitInFlight]. *)
Definition p_waiting (pc : ppc) : bool :=
  match pc with P_wd_wait => true | _ => false end.

(** Released by the pilot, [nPassInFlight] not yet decremented. *)
Definition p_leaving (pc : ppc) : bool :=
  match pc with P_wd_lock | P_wd_stat | P_wd_dec => true | _ => false end.

Definition p_at_test (pc : ppc) : bool :=
  match pc with P_wd_test => true | _ => false end.

Definition p_at_signal (pc : ppc) : bool :=
  match pc with P_wd_signal => true | _ => false end.

Definition p_exited (pc : ppc) : bool :=
  match pc with P_exit => true | _ => false end.

(** Past [nPassInQueue++]. *)
Definition p_enqueued (pc : ppc) : bool :=
  match pc with
  | P_travel | P_wq_lock1 | P_wq_incq | P_exit => false
  | _ => true
  end.

(** Regions of the hostess program. *)

(** Past [semDown (passengersInQueue)], before [nPassengers++]. *)
Definition h_took (pc : hpc) : bool :=
  match pc with
  | H_cp_serve | H_cp_lock1 | H_cp_stat | H_cp_unlock1 | H_cp_wait
  | H_cp_lock2 | H_cp_decq | H_cp_incf | H_cp_inct | H_cp_decide | H_cp_unlock2
  | H_count => true
  | _ => false
  end.

(** Past [semUp (passengersWaitInQueue)], before [nPassengers++]. *)
Definition h_called (pc : hpc) : bool :=
  match pc with
  | H_cp_lock1 | H_cp_stat | H_cp_unlock1 | H_cp_wait
  | H_cp_lock2 | H_cp_decq | H_cp_incf | H_cp_inct | H_cp_decide | H_cp_unlock2
  | H_count => true
  | _ => false
  end.

(** Past [semUp (passengersWaitInQueue)], before [semDown (idShown)]. *)
Definition h_expecting (pc : hpc) : bool :=
  match pc with
  | H_cp_lock1 | H_cp_stat | H_cp_unlock1 | H_cp_wait => true
  | _ => false
  end.

(** Past [semDown (idShown)], before [nPassInFlight++]. *)
Definition h_admitting (pc : hpc) : bool :=
  match pc with
  | H_cp_lock2 | H_cp_decq | H_cp_incf => true
  | _ => false
  end.

(** Boarding is open: past [semDown (readyForBoarding)], before the end of
    [semUp (readyToFlight)]. *)
Definition h_boarding (pc : hpc) : bool :=
  match pc with
  | H_while | H_wnf_lock | H_wnf_stat | H_wnf_unlock | H_wnf_wait
  | H_done | H_exit => false
  | _ => true
  end.

(** Somebody has been admitted to the current flight. *)
Definition h_has_boarded (pc : hpc) : bool :=
  match pc with
  | H_cp_inct | H_cp_decide | H_cp_unlock2 | H_count
  | H_srf_lock | H_srf_stat | H_srf_record | H_srf_finish | H_srf_unlock
  | H_srf_signal => true
  | _ => false
  end.

(** Past [nPassInQueue--], before [totalPassBoarded++]. *)
Definition h_dequeued (pc : hpc) : bool :=
  match pc with H_cp_incf | H_cp_inct => true | _ => false end.

Definition h_exited (pc : hpc) : bool :=
  match pc with H_exit => true | _ => false end.

Definition pl_at_wait_ready (pc : plpc) : bool :=
  match pc with PL_wait_ready => true | _ => false end.

(** What the pilot's program point tells about the plane. *)
Definition pilot_inv (s : system) : Prop :=
  let m := sh s in
  let G := gates s in
  let B := count p_leaving (passengers s) in
  let T := count p_at_test (passengers s) in
  let Sg := count p_at_signal (passengers s) in
  let quiet :=
    semval G passengersWaitInFlight = 0 /\ B = 0 /\ T = 0 /\ Sg = 0
    /\ semval G planeEmpty = 0 in
  let emptying :=
    (0 < nPassInFlight m -> semval G planeEmpty = 0 /\ Sg = 0)
    /\ (nPassInFlight m = 0 -> semval G planeEmpty + Sg + T = 1) in
  match pl_pc (pilot s) with
  | PL_open_lock | PL_open_next =>
      quiet /\ nFlight m <= totalPassBoarded m /\ nPassInFlight m = 0
  | PL_open_unlock | PL_open_signal =>
      quiet /\ 1 <= nFlight m <= totalPassBoarded m + 1 /\ nPassInFlight m = 0
  | PL_wait_ready =>
      quiet /\ 1 <= nFlight m
      /\ (semval G readyToFlight = 0 ->
          nFlight m + nPassInFlight m - b2z (h_at_inct (h_pc (hostess s)))
          <= totalPassBoarded m + 1)
      /\ (0 < semval G readyToFlight ->
          nFlight m <= totalPassBoarded m /\ 1 <= nPassInFlight m)
      /\ (0 < semval G readyForBoarding -> nPassInFlight m = 0)
  | PL_drop_lock | PL_drop_read =>
      quiet /\ 1 <= nFlight m <= totalPassBoarded m /\ 1 <= nPassInFlight m
  | PL_drop_unlock =>
      quiet /\ 1 <= nFlight m <= totalPassBoarded m /\ 1 <= nPassInFlight m
      /\ toRelease (pilot s) = nPassInFlight m
  | PL_drop_release =>
      1 <= nFlight m <= totalPassBoarded m
      /\ 0 <= toRelease (pilot s)
      /\ toRelease (pilot s) + semval G passengersWaitInFlight + B = nPassInFlight m
      /\ emptying
  | PL_wait_empty =>
      1 <= nFlight m <= totalPassBoarded m
      /\ semval G passengersWaitInFlight + B = nPassInFlight m
      /\ emptying
  end.

(** What holds in every state of every execution without failed semaphore
    calls. *)
Record InvOk (s : system) : Prop := mkInvOk {
  ok_nonneg : forall x : sem, 0 <= semval (gates s) x;
  ok_mutex : semval (gates s) mutex + holders s = 1;
  ok_noexit :
    b2z (h_exited (h_pc (hostess s))) + count p_exited (passengers s) = 0;
  ok_queue :
    semval (gates s) passengersInQueue + nPassengers (hostess s)
      + b2z (h_took (h_pc (hostess s)))
    = count p_announced (passengers s);
  ok_serve :
    semval (gates s) passengersWaitInQueue + count p_served (passengers s)
    = nPassengers (hostess s) + b2z (h_called (h_pc (hostess s)));
  ok_show :
    semval (gates s) passengersWaitInQueue + count p_showing (passengers s)
      + semval (gates s) idShown
    = b2z (h_expecting (h_pc (hostess s)));
  ok_aboard :
    nPassInFlight (sh s) + semval (gates s) idShown
      + b2z (h_admitting (h_pc (hostess s)))
    = count p_waiting (passengers s) + count p_leaving (passengers s);
  ok_phase :
    semval (gates s) readyForBoarding + semval (gates s) readyToFlight
      + b2z (h_boarding (h_pc (hostess s)))
    = b2z (pl_at_wait_ready (pl_pc (pilot s)));
  ok_counts : 0 <= nPassInFlight (sh s) /\ 0 <= nFlight (sh s);
  ok_boarded : b2z (h_has_boarded (h_pc (hostess s))) <= nPassInFlight (sh s);
  ok_pilot : pilot_inv s;
  ok_slots : length (nPassengersInFlight (sh s)) = FLIGHT_SLOTS;
  ok_inqueue :
    nPassInQueue (sh s) + totalPassBoarded (sh s)
      + b2z (h_dequeued (h_pc (hostess s)))
    = count p_enqueued (passengers s)
}.

(** The hostess has decided that the flight departs. *)
Definition departing (h : HLocal) : bool :=
  match h_pc h with
  | H_cp_unlock2 => last h
  | H_count => lastPassengerInFlight h
  | H_srf_lock | H_srf_stat | H_srf_record | H_srf_finish | H_srf_unlock
  | H_srf_signal => true
  | _ => false
  end.

(** [f] flights have departed, each but possibly the last with the minimum
    aboard. *)
Definition flown (m : FULL_STAT) (f : Z) : Prop :=
  MINFC * f <= totalPassBoarded m \/ totalPassBoarded m = N.

Definition flights_inv (s : system) : Prop :=
  let m := sh s in
  let G := gates s in
  match pl_pc (pilot s) with
  | PL_open_unlock | PL_open_signal => flown m (nFlight m - 1)
  | PL_wait_ready =>
      (semval G readyToFlight = 0 ->
       MINFC * (nFlight m - 1) + nPassInFlight m
         - b2z (h_at_inct (h_pc (hostess s))) <= totalPassBoarded m
       \/ (totalPassBoarded m = N /\ 0 < semval G readyForBoarding))
      /\ (0 < semval G readyToFlight -> flown m (nFlight m))
  | _ => flown m (nFlight m)
  end.

Record InvMin (s : system) : Prop := mkInvMin {
  min_departing :
    if departing (hostess s)
    then MINFC <= nPassInFlight (sh s) \/ totalPassBoarded (sh s) = N
    else True;
  min_flights : flights_inv s
}.

(** The array [nPassengersInFlight] has a slot for every flight: one per
    passenger, or, with well-formed capacities, one per [MINFC] passengers
    (rounded up). *)
Definition slots_suffice : Prop :=
  N <= Z.of_nat FLIGHT_SLOTS
  \/ (1 <= MINFC <= MAXFC /\ N <= MINFC * Z.of_nat FLIGHT_SLOTS).

(** Events of interest in a trace. *)

(** A passenger signals [planeEmpty]. *)
Definition is_empty_signal (e : event) : bool :=
  match e with
  | (Passenger _, _, Gate Up planeEmpty) => true
  | _ => false
  end.

(** The pilot takes [planeEmpty]: the end of a flight cycle. *)
Definition is_empty_taken (e : event) : bool :=
  match e with
  | (Pilot, _, Gate Down planeEmpty) => true
  | _ => false
  end.

(** The hostess completes a check-in ([totalPassBoarded++] and the
    passenger-checked log entry). *)
Definition is_checkin (e : event) : bool :=
  match e with
  | (Hostess, _, Stmt [savePassengerChecked; saveState]) => true
  | _ => false
  end.

(** *** A bound on the number of transitions still to come *)

(** Sum of the weights [w] of the elements of [l]. *)
Fixpoint weight {A} (w : A -> Z) (l : list A) : Z :=
  match l with
  | [] => 0
  | x :: l' => w x + weight w l'
  end.

(** Transitions the hostess has left, at most: 27 for each check-in to
    come (a flight for each of them at worst), and the rest of the current
    one. *)
Definition h_measure (h : HLocal) : Z :=
  let r := N - nPassengers h in
  match h_pc h with
  | H_while => 27 * r + 1
  | H_wnf_lock => 27 * r
  | H_wnf_stat => 27 * r - 1
  | H_wnf_unlock => 27 * r - 2
  | H_wnf_wait => 27 * r - 3
  | H_wfp_lock => 27 * r - 4
  | H_wfp_stat => 27 * r - 5
  | H_wfp_unlock => 27 * r - 6
  | H_wfp_wait => 27 * r - 7
  | H_cp_serve => 27 * r - 8
  | H_cp_lock1 => 27 * r - 9
  | H_cp_stat => 27 * r - 10
  | H_cp_unlock1 => 27 * r - 11
  | H_cp_wait => 27 * r - 12
  | H_cp_lock2 => 27 * r - 13
  | H_cp_decq => 27 * r - 14
  | H_cp_incf => 27 * r - 15
  | H_cp_inct => 27 * r - 16
  | H_cp_decide => 27 * r - 17
  | H_cp_unlock2 => 27 * r - 18
  | H_count => 27 * r - 19
  | H_srf_lock => 27 * r + 7
  | H_srf_stat => 27 * r + 6
  | H_srf_record => 27 * r + 5
  | H_srf_finish => 27 * r + 4
  | H_srf_unlock => 27 * r + 3
  | H_srf_signal => 27 * r + 2
  | H_done | H_exit => 0
  end.

(** Transitions a passenger has left, at most. *)
Definition p_measure (pc : ppc) : Z :=
  match pc with
  | P_travel => 19 | P_wq_lock1 => 18 | P_wq_incq => 17 | P_wq_stat1 => 16
  | P_wq_unlock1 => 15 | P_wq_signal => 14 | P_wq_wait => 13 | P_wq_lock2 => 12
  | P_wq_show => 11 | P_wq_stat2 => 10 | P_wq_unlock2 => 9 | P_wq_idshown => 8
  | P_wd_wait => 7 | P_wd_lock => 6 | P_wd_stat => 5 | P_wd_dec => 4
  | P_wd_test => 3 | P_wd_signal => 2 | P_wd_unlock => 1
  | P_done | P_exit => 0
  end.

(** Not yet released by the pilot. *)
Definition p_before_release (pc : ppc) : bool :=
  match pc with
  | P_wd_lock | P_wd_stat | P_wd_dec | P_wd_test | P_wd_signal | P_wd_unlock
  | P_done | P_exit => false
  | _ => true
  end.

Definition h_in_srf (pc : hpc) : bool :=
  match pc with
  | H_srf_lock | H_srf_stat | H_srf_record | H_srf_finish | H_srf_unlock
  | H_srf_signal => true
  | _ => false
  end.

Definition pl_rank (pc : plpc) : Z :=
  match pc with
  | PL_drop_lock => 11 | PL_drop_read => 10 | PL_drop_unlock => 9
  | PL_drop_release => 8 | PL_wait_empty => 7
  | PL_open_lock => 6 | PL_open_next => 5 | PL_open_unlock => 4
  | PL_open_signal => 3 | PL_wait_ready => 2
  end.

(** Transitions the pilot has left, at most: one for each passenger still to
    release, twelve for each departure still to come, and the rest of the
    current cycle. *)
Definition pl_measure (s : system) : Z :=
  (count p_before_release (passengers s)
   - semval (gates s) passengersWaitInFlight)
  + 12 * (semval (gates s) readyToFlight
          + (N - nPassengers (hostess s))
          + b2z (h_in_srf (h_pc (hostess s))))
  + pl_rank (pl_pc (pilot s)).

Definition measure (s : system) : Z :=
  h_measure (hostess s) + weight p_measure (passengers s) + pl_measure s.

(** The status recorded for passenger [i]. *)
Definition status (s : system) (i : nat) : option PassengerState :=
  passengerStat (st (sh s)) !! i.

(** A schedule in which nothing fails. *)
Definition moves (a : actor) (n : nat) : list (actor * outcome) :=
  replicate n (a, Ok).

(** The departure condition in the words of the specification. *)
Definition ready_to_depart (m : FULL_STAT) : Prop :=
  nPassInFlight m = MAXFC
  \/ (MINFC <= nPassInFlight m /\ nPassInQueue m = 0)
  \/ totalPassBoarded m = N.

(** *** Further regions and invariants *)

(** The actor is inside a critical section. *)
Definition in_cs (a : actor) (s : system) : bool :=
  match a with
  | Hostess => h_in_cs (h_pc (hostess s))
  | Passenger i =>
      match passengers s !! i with Some pc => p_in_cs pc | None => false end
  | Pilot => pl_in_cs (pl_pc (pilot s))
  end.

(** The values of [hostessStat] that can be found at a program point of the
    hostess. *)
Definition hstat_ok (pc : hpc) (v : HostessState) : bool :=
  match pc, v with
  | (H_while | H_wnf_lock | H_wnf_stat | H_done), (WAIT_FOR_FLIGHT | READY_TO_FLIGHT)
  | (H_wnf_unlock | H_wnf_wait), WAIT_FOR_FLIGHT
  | (H_wfp_lock | H_wfp_stat), (WAIT_FOR_FLIGHT | CHECK_PASSPORT)
  | (H_wfp_unlock | H_wfp_wait | H_cp_serve | H_cp_lock1 | H_cp_stat), WAIT_FOR_PASSENGER
  | (H_cp_unlock1 | H_cp_wait | H_cp_lock2 | H_cp_decq | H_cp_incf | H_cp_inct
     | H_cp_decide | H_cp_unlock2 | H_count | H_srf_lock | H_srf_stat), CHECK_PASSPORT
  | (H_srf_record | H_srf_finish | H_srf_unlock | H_srf_signal), READY_TO_FLIGHT
  | H_exit, _ => true
  | _, _ => false
  end.

(** The changes of [hostessStat] the life cycle of [main] goes through. *)
Definition hstat_next (v v' : HostessState) : bool :=
  match v, v' with
  | WAIT_FOR_FLIGHT, WAIT_FOR_PASSENGER
  | WAIT_FOR_PASSENGER, CHECK_PASSPORT
  | CHECK_PASSPORT, WAIT_FOR_PASSENGER
  | CHECK_PASSPORT, READY_TO_FLIGHT
  | READY_TO_FLIGHT, WAIT_FOR_FLIGHT => true
  | _, _ => false
  end.

(** In [waitUntilDestination], past the pilot's gate. *)
Definition p_disembarking (pc : ppc) : bool :=
  match pc with
  | P_wd_lock | P_wd_stat | P_wd_dec | P_wd_test | P_wd_signal | P_wd_unlock => true
  | _ => false
  end.

(** The pilot is between taking the mutex to open a flight and releasing
    the passengers of that flight. *)
Definition pl_closed (pc : plpc) : bool :=
  match pc with
  | PL_open_next | PL_open_unlock | PL_open_signal | PL_wait_ready
  | PL_drop_lock | PL_drop_read | PL_drop_unlock => true
  | _ => false
  end.

(** Nobody is disembarking while the plane is closed. *)
Definition closed_inv (s : system) : Prop :=
  pl_closed (pl_pc (pilot s)) = true -> count p_disembarking (passengers s) = 0.

(** The hostess is in the boarding loop, before the increment of
    [nPassInFlight] of the check-in under way. *)
Definition h_seat_free (pc : hpc) : bool :=
  match pc with
  | H_wfp_lock | H_wfp_stat | H_wfp_unlock | H_wfp_wait
  | H_cp_serve | H_cp_lock1 | H_cp_stat | H_cp_unlock1 | H_cp_wait
  | H_cp_lock2 | H_cp_decq | H_cp_incf => true
  | _ => false
  end.

(** The plane is never over its capacity, and has a free seat while the
    hostess is about to seat a passenger. *)
Definition cap_inv (s : system) : Prop :=
  let n := nPassInFlight (sh s) in
  let h := hostess s in
  n <= MAXFC
  /\ (h_seat_free (h_pc h) = true -> n < MAXFC)
  /\ match h_pc h with
     | H_cp_unlock2 => last h = false -> n < MAXFC
     | H_count => lastPassengerInFlight h = false -> n < MAXFC
     | _ => True
     end
  /\ Forall (fun v => 0 <= v <= MAXFC) (nPassengersInFlight (sh s)).

(** The passenger has written [passengerChecked] and not yet signalled
    [idShown]. *)
Definition p_shown (pc : ppc) : bool :=
  match pc with P_wq_stat2 | P_wq_unlock2 | P_wq_idshown => true | _ => false end.

(** The hostess has taken [idShown] and not yet logged the check-in. *)
Definition h_logging (pc : hpc) : bool :=
  match pc with H_cp_lock2 | H_cp_decq | H_cp_incf | H_cp_inct => true | _ => false end.

(** [passengerChecked] names the passenger of the check-in under way. *)
Definition checked_inv (s : system) : Prop :=
  (forall i pc, passengers s !! i = Some pc -> p_shown pc = true ->
     passengerChecked (sh s) = Z.of_nat i)
  /\ (0 < semval (gates s) idShown \/ h_logging (h_pc (hostess s)) = true ->
      exists i : nat, passengerChecked (sh s) = Z.of_nat i
                      /\ passengers s !! i = Some P_wd_wait).

(** The headcount of the flight is in the array. *)
Definition h_recorded (pc : hpc) : bool :=
  match pc with H_srf_finish | H_srf_unlock | H_srf_signal => true | _ => false end.

(** The first slot of [nPassengersInFlight] not yet written: the slot of the
    flight numbered last until the hostess has recorded its headcount, the
    one after it from then on. *)
Definition first_free (s : system) : Z :=
  match pl_pc (pilot s) with
  | PL_open_unlock | PL_open_signal => nFlight (sh s) - 1
  | PL_wait_ready =>
      if h_recorded (h_pc (hostess s)) || (0 <? semval (gates s) readyToFlight)
      then nFlight (sh s) else nFlight (sh s) - 1
  | _ => nFlight (sh s)
  end.

(** Sum of the recorded headcounts. *)
Definition flights_sum (m : FULL_STAT) : Z :=
  weight (fun v : Z => v) (nPassengersInFlight m).

(** Passengers aboard a flight whose headcount is not yet recorded. *)
Definition unrecorded (s : system) : Z :=
  if h_boarding (h_pc (hostess s)) && negb (h_recorded (h_pc (hostess s)))
  then nPassInFlight (sh s) - b2z (h_at_inct (h_pc (hostess s)))
  else 0.

Definition log_inv (s : system) : Prop :=
  (forall (k : nat) (v : Z), nPassengersInFlight (sh s) !! k = Some v ->
     (first_free s <= Z.of_nat k -> v = 0)
     /\ (Z.of_nat k < first_free s -> 1 <= v))
  /\ flights_sum (sh s) + unrecorded s = totalPassBoarded (sh s).

(** *** Start-up of a passenger process ([main]) *)

(** What [strtol (s, &tinp, 0)] hands back: the number read, a [long], and
    whether [*tinp] is the end of the string. *)
Record strtol_result := mkStrtol {
  number : Z;
  rest_empty : bool
}.

(** Conversion to [unsigned int], 32 bits wide. *)
Definition to_unsigned (z : Z) : Z := z mod 2 ^ 32.

(** Conversion of an [unsigned int] to [int]: the number with the same 32
    bits in two's complement (what the compilers in use do with a value
    that [int] cannot hold). *)
Definition to_int (z : Z) : Z := (z + 2 ^ 31) mod 2 ^ 32 - 2 ^ 31.

(** How the message of a refusal is written. *)
Inductive report :=
| Fprintf (msg : string)   (* fprintf (stderr, msg) *)
| Perror (msg : string).   (* perror (msg) *)

(** Where [stderr] goes. *)
Inductive errfile :=
| error_PG                 (* freopen ("error_PG", "a", stderr) *)
| argv_4.                  (* freopen (argv[4], "w", stderr) *)

(** The end of a line. *)
Definition nl : string := String (Ascii.ascii_of_nat 10) EmptyString.

Inductive startup :=
| Refused (f : errfile) (r : report)   (* return EXIT_FAILURE *)
| Started (passengerId : Z).           (* the life cycle runs, with this identifier *)

(** [main] up to the life cycle.  [argc] is the number of parameters; [id]
    and [key] are what [strtol] reads from [argv[1]] and [argv[3]];
    [name_len] is the length of [argv[2]], copied into [nFic], which holds
    51 characters ([strcpy] beyond them is undefined: no result); the last
    three are the values of [semConnect], [shmemConnect] and [shmemAttach].
    The identifier goes through [unsigned int] into the [int] [n], which is
    compared with the constant [N]. *)
Definition passenger_main (argc : Z) (id : strtol_result) (name_len : Z)
    (key : strtol_result) (semConnect shmemConnect shmemAttach : Z)
    : option startup :=
  if negb (argc =? 5)
  then Some (Refused error_PG
               (Fprintf (String.append "Number of parameters is incorrect!" nl)))
  else
    let n := to_int (to_unsigned (number id)) in
    if negb (rest_empty id) || (N <=? n)
    then Some (Refused argv_4
                 (Fprintf (String.append "Passenger process identification is wrong!" nl)))
    else if 51 <=? name_len then None
    else if negb (rest_empty key)
    then Some (Refused argv_4
                 (Fprintf (String.append "Error on the access key communication!" nl)))
    else if semConnect =? -1
    then Some (Refused argv_4 (Perror "error on connecting to the semaphore set"))
    else if shmemConnect =? -1
    then Some (Refused argv_4
                 (Perror "error on connecting to the shared memory region"))
    else if shmemAttach =? -1
    then Some (Refused argv_4
                 (Perror "error on mapping the shared region on the process address space"))
    else Some (Started (to_unsigned n)).

(** A semaphore call of the event failed. *)
Definition is_failure (e : event) : bool :=
  match e.1.2 with Err => true | Ok => false end.

End Protocol.

(* ===================================================================== *)
(** ** Concrete configurations and executions                             *)
(* ===================================================================== *)

(** The configuration of the scenario of the specification. *)
Definition scenario : Config :=
  {| N := 10; MINFC := 3; MAXFC := 5; FLIGHT_SLOTS := 4 |}.

(** A single passenger and single-seat flights. *)
Definition single : Config :=
  {| N := 1; MINFC := 1; MAXFC := 1; FLIGHT_SLOTS := 1 |}.

(** A shared region in the middle of boarding: five passengers are queued,
    four are aboard flight number one. *)
Definition boarding_sh : FULL_STAT :=
  mkFULL_STAT (mkSTAT WAIT_FOR_PASSENGER (replicate 10 IN_QUEUE))
    5 4 4 1 (replicate 10 0) false 4.

(** Passenger 0 travels to the airport and joins the queue. *)
Definition sched_queued : list (actor * outcome) := moves (Passenger 0) 5.

(** The single passenger is checked in: the pilot opens boarding, the
    passenger queues, the hostess serves it and completes the check-in. *)
Definition sched_checked : list (actor * outcome) :=
  moves Pilot 4 ++ moves (Passenger 0) 6 ++ moves Hostess 13
  ++ moves (Passenger 0) 6 ++ moves Hostess 7.

(** The whole airlift of the single passenger. *)
Definition sched_airlift : list (actor * outcome) :=
  sched_checked ++ moves Hostess 8 ++ moves Pilot 6
  ++ moves (Passenger 0) 7 ++ moves Pilot 5.

(** After check-in the passenger's wait for the pilot fails. *)
Definition sched_fault : list (actor * outcome) :=
  sched_checked ++ [(Passenger 0, Err)] ++ moves (Passenger 0) 6.

Definition queued_state : system := @after scenario sched_queued.
Definition queued_trace : list event := @trace_of scenario sched_queued (@init scenario).
Definition checked_state : system := @after single sched_checked.
Definition checked_trace : list event := @trace_of single sched_checked (@init single).
Definition airlift_state : system := @after single sched_airlift.
Definition airlift_trace : list event := @trace_of single sched_airlift (@init single).
Definition fault_state : system := @after single sched_fault.
Definition scenario_sched : list (actor * outcome) :=
  @round_robin scenario 400 (@init scenario).
Definition scenario_state : system := @after scenario scenario_sched.
Definition scenario_trace : list event :=
  @trace_of scenario scenario_sched (@init scenario).
Definition fault_trace : list event := @trace_of single sched_fault (@init single).

(** Passenger 0 is inside the first critical section of [waitInQueue], about
    to release the mutex. *)
Definition sched_locked : list (actor * outcome) := moves (Passenger 0) 4.
Definition locked_state : system := @after scenario sched_locked.
Definition locked_trace : list event :=
  @trace_of scenario sched_locked (@init scenario).

(** The release fails. *)
Definition leaked_state : system :=
  @after scenario (sched_locked ++ [(Passenger 0%nat, Err)]).

(** Passenger 1 and the hostess then go as far as they get. *)
Definition sched_later : list (actor * outcome) :=
  [(Passenger 1%nat, Ok); (Hostess, Ok)].
Definition later_state : system :=
  match @run scenario sched_later leaked_state with
  | Some s => s
  | None => leaked_state
  end.
Definition later_trace : list event := @trace_of scenario sched_later leaked_state.

(** The scenario up to the moment a passenger is about to signal
    [planeEmpty]. *)
Definition sched_signalling : list (actor * outcome) := take 228 scenario_sched.
Definition signalling_state : system := @after scenario sched_signalling.
Definition signalling_trace : list event :=
  @trace_of scenario sched_signalling (@init scenario).

(** Two passengers and flights of exactly two. *)
Definition pair : Config :=
  {| N := 2; MINFC := 2; MAXFC := 2; FLIGHT_SLOTS := 1 |}.

(** The pilot opens boarding and both passengers queue; passenger 0 is
    checked in, then its wait for the pilot fails and it disembarks;
    passenger 1 is checked in, the flight departs, the pilot releases its
    passengers, and passenger 1 disembarks. *)
Definition sched_twice : list (actor * outcome) :=
  moves Pilot 4 ++ moves (Passenger 0) 6 ++ moves (Passenger 1) 6
  ++ moves Hostess 13 ++ moves (Passenger 0) 6 ++ moves Hostess 8
  ++ [(Passenger 0%nat, Err)] ++ moves (Passenger 0) 6
  ++ moves Hostess 8 ++ moves (Passenger 1) 6 ++ moves Hostess 15
  ++ moves Pilot 6 ++ moves (Passenger 1) 7.
Definition twice_state : system := @after pair sched_twice.
Definition twice_trace : list event := @trace_of pair sched_twice (@init pair).

(** What [strtol] reads from the identifier [-1] and from a well-formed key. *)
Definition minus_one : strtol_result := mkStrtol (-1) true.
Definition some_key : strtol_result := mkStrtol 1234 true.


(* ===================================================================== *)
(** * Properties                                                          *)
(* ===================================================================== *)

Section Sequential.
Context {cfg : Config}.

Lemma departure_decision_spec (m : FULL_STAT) :
  departure_decision m = true <-> ready_to_depart m.
Proof.
  unfold departure_decision, ready_to_depart, nPassengersInFlight', nPassengersInQueue.
  destruct (Z.eqb_spec (nPassInFlight m) MAXFC) as [e1|n1]; [tauto|].
  destruct (Z.leb_spec MINFC (nPassInFlight m)) as [l2|l2];
    destruct (Z.eqb_spec (nPassInQueue m) 0) as [e3|n3];
    destruct (Z.eqb_spec (totalPassBoarded m) N) as [e4|n4]; simpl;
    split; intros Hx; try tauto; try discriminate;
    destruct Hx as [Hx|[[Hx Hy]|Hx]]; try contradiction; lia.
Qed.

Lemma semset_restore (S : SEMS) (x : sem) (v : Z) :
  v = semval S x -> semset S x v = S.
Proof. intros ->. destruct S, x; reflexivity. Qed.

Lemma semset_twice (S : SEMS) (x : sem) (v w : Z) :
  semset (semset S x v) x w = semset S x w.
Proof. destruct S, x; reflexivity. Qed.

(** C1.  The last critical section of [checkPassport], the return and the
    loop test of [main]: under the mutex the three counters are updated and
    the decision is taken on the updated counters; the value returned is
    true exactly when they satisfy the departure condition (flight full, or
    minimum met and queue empty, or everybody boarded), and then the hostess
    goes on to [signalReadyToFlight]; in every other case the value is false
    and she loops back to [waitForPassenger] for another check-in. *)
Theorem C1_checkPassport_decision (np : Z) (la lp : bool) (m : FULL_STAT) (S : SEMS)
    (Hfree : 0 < semval S mutex) :
  exists h' m',
    hostess_run 7 (mkHLocal H_cp_lock2 np la lp) m S
      = Some (h', m', S,
              [Gate Down mutex; Stmt []; Stmt [];
               Stmt [savePassengerChecked; saveState]; Stmt []; Gate Up mutex;
               Stmt []])
    /\ m' = set_totalPassBoarded (totalPassBoarded m + 1)
              (set_nPassInFlight (nPassInFlight m + 1)
                 (set_nPassInQueue (nPassInQueue m - 1) m))
    /\ (lastPassengerInFlight h' = true <-> ready_to_depart m')
    /\ (ready_to_depart m' -> h_pc h' = H_srf_lock)
    /\ (~ ready_to_depart m' ->
        lastPassengerInFlight h' = false /\ h_pc h' = H_wfp_lock)
    /\ nPassengers h' = np + 1.
Proof.
  apply Z.ltb_lt in Hfree.
  set (m' := set_totalPassBoarded (totalPassBoarded m + 1)
              (set_nPassInFlight (nPassInFlight m + 1)
                 (set_nPassInQueue (nPassInQueue m - 1) m))).
  pose proof (departure_decision_spec m') as Hd.
  destruct (departure_decision m') eqn:E.
  - eexists _, m'. split.
    + unfold hostess_run, hostess_step at 1, h_gate, semCall, semDown. cbn [h_pc].
      rewrite Hfree. simpl. fold m'. rewrite E. simpl.
      rewrite semset_twice, semset_restore; [reflexivity|].
      destruct S; simpl; lia.
    + split; [reflexivity|]. simpl. split; [tauto|]. split; [reflexivity|].
      split; [|reflexivity]. intros Hn. exfalso. apply Hn. apply Hd. reflexivity.
  - eexists _, m'. split.
    + unfold hostess_run, hostess_step at 1, h_gate, semCall, semDown. cbn [h_pc].
      rewrite Hfree. simpl. fold m'. rewrite E. simpl.
      rewrite semset_twice, semset_restore; [reflexivity|].
      destruct S; simpl; lia.
    + split; [reflexivity|]. simpl.
      split; [|split; [|split; [tauto|reflexivity]]].
      * split; [discriminate|]. intros Hr. apply Hd, Hr.
      * intros Hr. apply Hd in Hr. discriminate.
Qed.

(** C7.  The critical section of [checkPassport] that completes a check-in,
    from taking the mutex to releasing it: [nPassInQueue] goes down by one,
    [nPassInFlight] and [totalPassBoarded] go up by one, and nothing else in
    the shared region changes. *)
Theorem C7_checkin_counters (np : Z) (la lp : bool) (m : FULL_STAT) (S : SEMS)
    (Hfree : 0 < semval S mutex) :
  exists h' m',
    hostess_run 6 (mkHLocal H_cp_lock2 np la lp) m S
      = Some (h', m', S,
              [Gate Down mutex; Stmt []; Stmt [];
               Stmt [savePassengerChecked; saveState]; Stmt []; Gate Up mutex])
    /\ nPassInQueue m' = nPassInQueue m - 1
    /\ nPassInFlight m' = nPassInFlight m + 1
    /\ totalPassBoarded m' = totalPassBoarded m + 1
    /\ nFlight m' = nFlight m
    /\ nPassengersInFlight m' = nPassengersInFlight m
    /\ finished m' = finished m
    /\ passengerChecked m' = passengerChecked m
    /\ st m' = st m.
Proof.
  apply Z.ltb_lt in Hfree.
  eexists _, _. split.
  - unfold hostess_run, hostess_step at 1, h_gate, semCall, semDown. cbn [h_pc].
    rewrite Hfree. simpl.
    rewrite semset_twice, semset_restore; [reflexivity|].
    destruct S; simpl; lia.
  - simpl. repeat split; reflexivity.
Qed.

Lemma array_store_Some {A} (a : list A) (i : Z) (v : A) :
  0 <= i < Z.of_nat (length a) ->
  array_store a i v = Some (<[Z.to_nat i := v]> a).
Proof.
  intros [H1 H2]. unfold array_store.
  apply Z.leb_le in H1. apply Z.ltb_lt in H2. rewrite H1, H2. reflexivity.
Qed.

Lemma array_store_inv {A} (a a' : list A) (i : Z) (v : A) :
  array_store a i v = Some a' ->
  0 <= i < Z.of_nat (length a) /\ a' = <[Z.to_nat i := v]> a.
Proof.
  unfold array_store.
  destruct (Z.leb_spec 0 i); destruct (Z.ltb_spec i (Z.of_nat (length a)));
    simpl; intros Hx; inversion Hx; subst; auto.
Qed.

(** C5 (as the code has it).  The READY_TO_FLIGHT transition, from taking
    the mutex to the signal: under the mutex the hostess records her status,
    stores the current [nPassInFlight] at index [nFlight - 1] of
    [nPassengersInFlight] (flights are numbered from one), sets [finished]
    if [totalPassBoarded == N], releases the mutex, and only then signals
    [readyToFlight]. *)
Theorem C5_signalReadyToFlight (np : Z) (la lp : bool) (m : FULL_STAT) (S : SEMS)
    (Hfree : 0 < semval S mutex)
    (Hidx : 1 <= nFlight m <= Z.of_nat (length (nPassengersInFlight m))) :
  exists m',
    hostess_run 6 (mkHLocal H_srf_lock np la lp) m S
      = Some (mkHLocal H_while np la lp, m',
              semset S readyToFlight (semval S readyToFlight + 1),
              [Gate Down mutex; Stmt [saveState]; Stmt [saveFlightDeparted];
               Stmt []; Gate Up mutex; Gate Up readyToFlight])
    /\ nPassengersInFlight m' !! Z.to_nat (nFlight m - 1) = Some (nPassInFlight m)
    /\ (forall j : nat, j <> Z.to_nat (nFlight m - 1) ->
          nPassengersInFlight m' !! j = nPassengersInFlight m !! j)
    /\ finished m' = (if totalPassBoarded m =? N then true else finished m)
    /\ hostessStat (st m') = READY_TO_FLIGHT
    /\ nPassInQueue m' = nPassInQueue m
    /\ nPassInFlight m' = nPassInFlight m
    /\ totalPassBoarded m' = totalPassBoarded m
    /\ nFlight m' = nFlight m.
Proof.
  apply Z.ltb_lt in Hfree.
  assert (Hst : array_store (nPassengersInFlight m) (nFlight m - 1) (nPassInFlight m)
                = Some (<[Z.to_nat (nFlight m - 1) := nPassInFlight m]> (nPassengersInFlight m)))
    by (apply array_store_Some; lia).
  eexists. split.
  - unfold hostess_run, hostess_step at 1, h_gate, semCall, semDown. cbn [h_pc].
    rewrite Hfree. simpl. unfold hostess_step at 1.
    cbn [h_pc h_goto nPassengersInFlight nFlight nPassInFlight set_hostessStat].
    rewrite Hst. simpl.
    rewrite semset_twice, (semset_restore S mutex); [reflexivity|].
    destruct S; simpl; lia.
  - destruct (totalPassBoarded m =? N) eqn:E; cbn; rewrite ?E; cbn.
    + repeat split; try reflexivity.
      * apply list_lookup_insert_eq. lia.
      * intros j Hj. apply list_lookup_insert_ne. congruence.
    + repeat split; try reflexivity.
      * apply list_lookup_insert_eq. lia.
      * intros j Hj. apply list_lookup_insert_ne. congruence.
Qed.

(** C3.  The first semaphore call of [waitUntilDestination] is not tested:
    when it fails the passenger neither logs nor exits, it goes on to the
    critical section that follows. *)
Theorem C3_untested_gate_failure (passengerId : nat) (m : FULL_STAT) (S : SEMS) :
  passenger_step passengerId Err P_wd_wait m S
    = Some (P_wd_lock, m, S, Ignored Down passengersWaitInFlight).
Proof. reflexivity. Qed.

(** Every semaphore call of the hostess is tested: a failure is fatal. *)
Lemma hostess_gate_failure_fatal (h h' : HLocal) (m m' : FULL_STAT) (S S' : SEMS) (l : label) :
  hostess_step Err h m S = Some (h', m', S', l) ->
  h_pc h' = H_exit /\ m' = m /\ S' = S /\ exists op x msg, l = Fatal op x msg.
Proof.
  destruct h as [pc np la lp]. unfold hostess_step. cbn [h_pc].
  destruct pc; cbn; try discriminate;
    try (destruct (array_store _ _ _); cbn; discriminate);
    intros Hx; inversion Hx; subst; cbn; eauto 10.
Qed.

(** So is every other semaphore call of a passenger. *)
Lemma passenger_gate_failure_fatal (i : nat) (pc pc' : ppc) (m m' : FULL_STAT)
    (S S' : SEMS) (l : label) :
  pc <> P_wd_wait ->
  passenger_step i Err pc m S = Some (pc', m', S', l) ->
  pc' = P_exit /\ m' = m /\ S' = S /\ exists op x msg, l = Fatal op x msg.
Proof.
  intros Hpc. destruct pc; cbn; try discriminate; try congruence;
    try (unfold p_store_stat; destruct (array_store _ _ _); cbn; discriminate);
    intros Hx; inversion Hx; subst; cbn; eauto 10.
Qed.

(** A transition of the hostess commutes with a store into
    [passengerChecked], and leaves the field as it was. *)
Lemma hostess_step_checked (o : outcome) (h : HLocal) (m : FULL_STAT) (S : SEMS) (c : Z) :
  match hostess_step o h m S with
  | Some (h', m', S', l) =>
      hostess_step o h (set_passengerChecked c m) S
        = Some (h', set_passengerChecked c m', S', l)
      /\ passengerChecked m' = passengerChecked m
  | None => hostess_step o h (set_passengerChecked c m) S = None
  end.
Proof.
  destruct h as [pc np la lp]. unfold hostess_step. cbn [h_pc].
  destruct pc; unfold h_gate, h_stmt, semCall, semDown, semUp; destruct o; cbn;
    try (destruct (0 <? _); cbn); auto.
  - destruct (array_store _ _ _); cbn; auto.
  - destruct (array_store _ _ _); cbn; auto.
  - destruct (totalPassBoarded m =? N); cbn; auto.
Qed.

Lemma hostess_run_checked (n : nat) (h : HLocal) (m : FULL_STAT) (S : SEMS) (c : Z) :
  match hostess_run n h m S with
  | Some (h', m', S', ls) =>
      hostess_run n h (set_passengerChecked c m) S
        = Some (h', set_passengerChecked c m', S', ls)
      /\ passengerChecked m' = passengerChecked m
  | None => hostess_run n h (set_passengerChecked c m) S = None
  end.
Proof.
  revert h m S. induction n as [|n IH]; intros h m S; cbn [hostess_run].
  - split; reflexivity.
  - pose proof (hostess_step_checked Ok h m S c) as Hs.
    destruct (hostess_step Ok h m S) as [[[[h1 m1] S1] l]|].
    + destruct Hs as [-> Hc]. specialize (IH h1 m1 S1).
      destruct (hostess_run n h1 m1 S1) as [[[[h2 m2] S2] ls]|].
      * destruct IH as [-> Hc2]. split; [reflexivity|congruence].
      * rewrite IH. reflexivity.
    + rewrite Hs. reflexivity.
Qed.

(** C10.  The hostess neither reads nor writes [passengerChecked].  Whatever
    two values [c1] and [c2] a passenger hands over, a transition of the
    hostess, and any number of her transitions in a row, come out the same:
    same next program point and locals (her count and her decision), same
    semaphore values, same labels (the signals she emits), and the same
    shared region (counters, recorded headcounts, [finished]) except that
    the field still holds what was handed over. *)
Theorem C10_hostess_ignores_passengerChecked
    (o : outcome) (n : nat) (h : HLocal) (m : FULL_STAT) (S : SEMS) (c1 c2 : Z) :
  match hostess_step o h (set_passengerChecked c1 m) S,
        hostess_step o h (set_passengerChecked c2 m) S with
  | Some (h1, m1, S1, l1), Some (h2, m2, S2, l2) =>
      h1 = h2 /\ S1 = S2 /\ l1 = l2
      /\ m1 = set_passengerChecked c1 m2 /\ m2 = set_passengerChecked c2 m1
  | None, None => True
  | _, _ => False
  end
  /\ match hostess_run n h (set_passengerChecked c1 m) S,
           hostess_run n h (set_passengerChecked c2 m) S with
     | Some (h1, m1, S1, ls1), Some (h2, m2, S2, ls2) =>
         h1 = h2 /\ S1 = S2 /\ ls1 = ls2
         /\ m1 = set_passengerChecked c1 m2 /\ m2 = set_passengerChecked c2 m1
     | None, None => True
     | _, _ => False
     end.
Proof.
  split.
  - pose proof (hostess_step_checked o h m S c1) as H1.
    pose proof (hostess_step_checked o h m S c2) as H2.
    destruct (hostess_step o h m S) as [[[[h' m'] S'] l]|].
    + destruct H1 as [-> _], H2 as [-> _]. repeat split; reflexivity.
    + rewrite H1, H2. exact I.
  - pose proof (hostess_run_checked n h m S c1) as H1.
    pose proof (hostess_run_checked n h m S c2) as H2.
    destruct (hostess_run n h m S) as [[[[h' m'] S'] ls]|].
    + destruct H1 as [-> _], H2 as [-> _]. repeat split; reflexivity.
    + rewrite H1, H2. exact I.
Qed.

End Sequential.

Lemma C1_checkPassport_decision_witness :
  0 < semval init_gates mutex
  /\ exists h' m',
    @hostess_run scenario 7 (mkHLocal H_cp_lock2 4 false false) boarding_sh init_gates
      = Some (h', m', init_gates,
              [Gate Down mutex; Stmt []; Stmt [];
               Stmt [savePassengerChecked; saveState]; Stmt []; Gate Up mutex;
               Stmt []])
    /\ m' = set_totalPassBoarded (totalPassBoarded boarding_sh + 1)
              (set_nPassInFlight (nPassInFlight boarding_sh + 1)
                 (set_nPassInQueue (nPassInQueue boarding_sh - 1) boarding_sh))
    /\ (lastPassengerInFlight h' = true <-> @ready_to_depart scenario m')
    /\ (@ready_to_depart scenario m' -> h_pc h' = H_srf_lock)
    /\ (~ @ready_to_depart scenario m' ->
        lastPassengerInFlight h' = false /\ h_pc h' = H_wfp_lock)
    /\ nPassengers h' = 4 + 1.
Proof.
  split; [reflexivity|].
  apply (@C1_checkPassport_decision scenario 4 false false boarding_sh init_gates).
  reflexivity.
Defined.

Lemma C7_checkin_counters_witness :
  0 < semval init_gates mutex
  /\ exists h' m',
    @hostess_run scenario 6 (mkHLocal H_cp_lock2 4 false false) boarding_sh init_gates
      = Some (h', m', init_gates,
              [Gate Down mutex; Stmt []; Stmt [];
               Stmt [savePassengerChecked; saveState]; Stmt []; Gate Up mutex])
    /\ nPassInQueue m' = nPassInQueue boarding_sh - 1
    /\ nPassInFlight m' = nPassInFlight boarding_sh + 1
    /\ totalPassBoarded m' = totalPassBoarded boarding_sh + 1
    /\ nFlight m' = nFlight boarding_sh
    /\ nPassengersInFlight m' = nPassengersInFlight boarding_sh
    /\ finished m' = finished boarding_sh
    /\ passengerChecked m' = passengerChecked boarding_sh
    /\ st m' = st boarding_sh.
Proof.
  split; [reflexivity|].
  apply (@C7_checkin_counters scenario 4 false false boarding_sh init_gates).
  reflexivity.
Defined.

Lemma C5_signalReadyToFlight_witness :
  0 < semval init_gates mutex
  /\ 1 <= nFlight boarding_sh <= Z.of_nat (length (nPassengersInFlight boarding_sh))
  /\ exists m',
    @hostess_run scenario 6 (mkHLocal H_srf_lock 4 true true) boarding_sh init_gates
      = Some (mkHLocal H_while 4 true true, m',
              semset init_gates readyToFlight (semval init_gates readyToFlight + 1),
              [Gate Down mutex; Stmt [saveState]; Stmt [saveFlightDeparted];
               Stmt []; Gate Up mutex; Gate Up readyToFlight])
    /\ nPassengersInFlight m' !! Z.to_nat (nFlight boarding_sh - 1)
       = Some (nPassInFlight boarding_sh)
    /\ (forall j : nat, j <> Z.to_nat (nFlight boarding_sh - 1) ->
          nPassengersInFlight m' !! j = nPassengersInFlight boarding_sh !! j)
    /\ finished m'
       = (if totalPassBoarded boarding_sh =? @N scenario then true
          else finished boarding_sh)
    /\ hostessStat (st m') = READY_TO_FLIGHT
    /\ nPassInQueue m' = nPassInQueue boarding_sh
    /\ nPassInFlight m' = nPassInFlight boarding_sh
    /\ totalPassBoarded m' = totalPassBoarded boarding_sh
    /\ nFlight m' = nFlight boarding_sh.
Proof.
  split; [reflexivity|]. split; [simpl; lia|].
  apply (@C5_signalReadyToFlight scenario 4 true true boarding_sh init_gates).
  - reflexivity.
  - simpl; lia.
Defined.

(** C5 (as stated) fails: the headcount is not stored at index [nFlight].
    With flight number one departing with four passengers aboard, slot one
    still holds zero afterwards; the headcount went to slot zero. *)
Lemma C5_index_counterexample :
  exists h' m' S' ls,
    @hostess_run scenario 6 (mkHLocal H_srf_lock 4 true true) boarding_sh init_gates
      = Some (h', m', S', ls)
    /\ nPassengersInFlight m' !! Z.to_nat (nFlight boarding_sh)
       <> Some (nPassInFlight boarding_sh)
    /\ nPassengersInFlight m' !! Z.to_nat (nFlight boarding_sh) = Some 0
    /\ nPassengersInFlight m' !! Z.to_nat (nFlight boarding_sh - 1) = Some 4.
Proof.
  eexists _, _, _, _. split; [reflexivity|].
  split; [|split; reflexivity].
  vm_compute. discriminate.
Qed.

(* ===================================================================== *)
(** ** Executions: what holds in every state                              *)
(* ===================================================================== *)

Ltac zify_tests :=
  repeat match goal with
  | H : (_ <? _) = true |- _ => apply Z.ltb_lt in H
  | H : (_ <? _) = false |- _ => apply Z.ltb_ge in H
  | H : (_ =? _) = true |- _ => apply Z.eqb_eq in H
  | H : (_ =? _) = false |- _ => apply Z.eqb_neq in H
  | H : (_ <=? _) = true |- _ => apply Z.leb_le in H
  | H : (_ <=? _) = false |- _ => apply Z.leb_gt in H
  end.

Ltac split_tests H :=
  repeat match type of H with
  | context [if ?c then _ else _] => destruct c eqn:?
  | context [match array_store ?a ?i ?v with _ => _ end] =>
      destruct (array_store a i v) eqn:?
  end.

Section Invariants.
Context {cfg : Config}.

Lemma count_nonneg {A} (f : A -> bool) (l : list A) : 0 <= count f l.
Proof. induction l as [|x l IH]; simpl; [lia|]. destruct (f x); lia. Qed.

Lemma count_le {A} (f g : A -> bool) (l : list A) :
  (forall x, f x = true -> g x = true) -> count f l <= count g l.
Proof.
  intros Hfg. induction l as [|x l IH]; simpl; [lia|].
  destruct (f x) eqn:E; [rewrite (Hfg _ E); lia|]. destruct (g x); lia.
Qed.

Lemma count_insert {A} (f : A -> bool) (l : list A) (i : nat) (x y : A) :
  l !! i = Some y ->
  count f (<[i := x]> l) = count f l - b2z (f y) + b2z (f x).
Proof.
  revert i. induction l as [|z l IH]; intros [|i] Hi; simpl in *; try discriminate.
  - inversion Hi; subst. unfold b2z. destruct (f x), (f y); lia.
  - rewrite (IH i Hi). lia.
Qed.

Lemma count_replicate {A} (f : A -> bool) (n : nat) (x : A) :
  f x = false -> count f (replicate n x) = 0.
Proof. intros Hx. induction n; simpl; [reflexivity|]. rewrite Hx, IHn. reflexivity. Qed.

Lemma count_pos_lookup {A} (f : A -> bool) (l : list A) :
  0 < count f l -> exists i x, l !! i = Some x /\ f x = true.
Proof.
  induction l as [|z l IH]; simpl; [lia|].
  destruct (f z) eqn:E.
  - intros _. exists O, z. auto.
  - intros H. destruct IH as (i & x & Hi & Hx); [lia|]. exists (S i), x. auto.
Qed.

Lemma count_zero_lookup {A} (f : A -> bool) (l : list A) (i : nat) (x : A) :
  count f l = 0 -> l !! i = Some x -> f x = false.
Proof.
  revert i. induction l as [|z l IH]; intros [|i] H0 Hi; simpl in *; try discriminate.
  - inversion Hi; subst. pose proof (count_nonneg f l). destruct (f x); [lia|reflexivity].
  - pose proof (count_nonneg f l). apply (IH i); [destruct (f z); lia|assumption].
Qed.

Lemma array_store_nat {A} (a a' : list A) (i : nat) (v : A) :
  array_store a (Z.of_nat i) v = Some a' ->
  a' = <[i := v]> a /\ (i < length a)%nat.
Proof.
  intros H. apply array_store_inv in H as [H1 ->]. rewrite Nat2Z.id.
  split; [reflexivity|lia].
Qed.

Lemma decision_false_total (m : FULL_STAT) :
  departure_decision m = false -> totalPassBoarded m <> N.
Proof.
  intros Hd Ht. assert (departure_decision m = true); [|congruence].
  apply departure_decision_spec. right; right; exact Ht.
Qed.

Ltac solve_hinv :=
  try match goal with
      | |- context [departure_decision ?x] => pose proof (decision_false_total x)
      end;
  try match goal with
      | |- context [finished ?m] => destruct (finished m) eqn:?
      end;
  intuition (try lia; try congruence).

Lemma stat_keep (ps : list ppc) (a : list PassengerState) (i : nat) (pc pc' : ppc) :
  (forall j q v, ps !! j = Some q -> stat_at q = Some v -> a !! j = Some v) ->
  ps !! i = Some pc ->
  (forall v, stat_at pc' = Some v -> stat_at pc = Some v) ->
  forall j q v, <[i := pc']> ps !! j = Some q -> stat_at q = Some v -> a !! j = Some v.
Proof.
  intros IH Hi Hsame j q v Hj Hv.
  destruct (decide (i = j)) as [->|Hne].
  - rewrite list_lookup_insert_eq in Hj by (eapply lookup_lt_Some; eauto).
    inversion Hj; subst. eapply IH; eauto.
  - rewrite list_lookup_insert_ne in Hj by assumption. eapply IH; eauto.
Qed.

Lemma stat_write (ps : list ppc) (a : list PassengerState) (i : nat)
    (pc pc' : ppc) (w : PassengerState) :
  (forall j q v, ps !! j = Some q -> stat_at q = Some v -> a !! j = Some v) ->
  ps !! i = Some pc -> length a = length ps ->
  stat_at pc' = Some w ->
  forall j q v, <[i := pc']> ps !! j = Some q -> stat_at q = Some v ->
                <[i := w]> a !! j = Some v.
Proof.
  intros IH Hi Hlen Hw j q v Hj Hv.
  assert (Hlt : (i < length ps)%nat) by (eapply lookup_lt_Some; eauto).
  destruct (decide (i = j)) as [->|Hne].
  - rewrite list_lookup_insert_eq in Hj by assumption.
    inversion Hj; subst. rewrite list_lookup_insert_eq by lia. congruence.
  - rewrite list_lookup_insert_ne in Hj by assumption.
    rewrite list_lookup_insert_ne by assumption. eapply IH; eauto.
Qed.

Lemma Inv_init : 0 <= N -> Inv init.
Proof.
  intros HN. constructor; simpl.
  - unfold holders; simpl. rewrite count_replicate by reflexivity. lia.
  - rewrite !length_replicate. reflexivity.
  - intros i pc v Hi Hv. apply lookup_replicate in Hi as [-> Hi].
    simpl in Hv. inversion Hv; subst. apply lookup_replicate. auto.
  - unfold atDestination; simpl. rewrite !count_replicate by reflexivity. reflexivity.
  - unfold hinv; simpl. repeat split; try lia; try discriminate.
Qed.

Lemma Inv_step (s s' : system) (a : actor) (o : outcome) (l : label) :
  Inv s -> sys_step a o s = Some (s', l) -> Inv s'.
Proof.
  intros [Hmx Hlen Hst Hfl Hh] Hstep.
  destruct s as [m S h ps pl].
  destruct a as [|i|]; cbn [sys_step sh gates hostess passengers pilot] in *.
  - (* the hostess *)
    destruct (hostess_step o h m S) as [[[[h' m'] S'] l']|] eqn:E; [|discriminate].
    inversion Hstep; subst; clear Hstep.
    destruct h as [pc np la lp]. destruct S.
    unfold hostess_step in E. cbn [h_pc] in E.
    destruct pc; unfold h_gate, h_stmt, semCall, semDown, semUp, h_goto in E;
      destruct o; simpl in E; try discriminate;
      split_tests E; try discriminate;
      inversion E; subst; clear E; zify_tests;
      (constructor; unfold holders, hinv, atDestination in *; simpl in *;
       [ lia | assumption | assumption | lia | solve_hinv ]).
  - (* a passenger *)
    destruct (ps !! i) as [pc|] eqn:Hi; [|discriminate].
    destruct (passenger_step i o pc m S) as [[[[pc' m'] S'] l']|] eqn:E; [|discriminate].
    inversion Hstep; subst; clear Hstep. destruct S.
    pose proof (fun v => Hst i pc v Hi) as Hold.
    destruct pc;
      unfold passenger_step, p_gate, p_gate_untested, p_stmt, p_store_stat,
             semCall, semDown, semUp in E;
      destruct o; simpl in E; try discriminate;
      split_tests E; try discriminate;
      inversion E; subst; clear E; zify_tests;
      specialize (Hold _ eq_refl);
      try match goal with
          | H : array_store _ _ _ = Some _ |- _ => apply array_store_nat in H as [-> ?]
          end;
      (constructor; unfold holders, hinv, atDestination in *; simpl in *;
       [ rewrite (count_insert _ _ _ _ _ Hi); simpl; lia
       | rewrite ?length_insert; assumption
       | first [ eapply stat_write; eauto; reflexivity
               | eapply stat_keep; eauto; simpl; congruence ]
       | rewrite ?(count_insert _ _ _ _ _ Hi), ?(count_insert _ _ _ _ _ Hold);
         simpl; lia
       | assumption ]).
  - (* the pilot *)
    destruct o; [|discriminate].
    destruct (pilot_step pl m S) as [[[[p' m'] S'] l']|] eqn:E; [|discriminate].
    inversion Hstep; subst; clear Hstep. destruct S. destruct pl as [pc k].
    unfold pilot_step in E. cbn [pl_pc] in E.
    destruct pc; unfold pl_gate, semCall, semDown, semUp in E; simpl in E;
      split_tests E; try discriminate;
      inversion E; subst; clear E; zify_tests;
      (constructor; unfold holders, hinv, atDestination in *; simpl in *;
       [ lia | assumption | assumption | lia | assumption ]).
Qed.

Lemma Inv_exec_from (s s' : system) (tr : list event) :
  Inv s -> exec s tr s' -> Inv s'.
Proof. intros HI Hex. induction Hex; eauto using Inv_step. Qed.

Lemma Inv_exec (tr : list event) (s : system) :
  0 <= N -> exec init tr s -> Inv s.
Proof. intros HN. apply Inv_exec_from, Inv_init, HN. Qed.

Lemma exec_trans (s s1 s2 : system) (tr tr' : list event) :
  exec s tr s1 -> exec s1 tr' s2 -> exec s (tr ++ tr') s2.
Proof.
  intros H1 H2. induction H2.
  - rewrite app_nil_r. assumption.
  - rewrite app_assoc. econstructor; eauto.
Qed.

Lemma exec_one (s s' : system) (a : actor) (o : outcome) (l : label) :
  sys_step a o s = Some (s', l) -> exec s [(a, o, l)] s'.
Proof. intros H. apply (exec_snoc s [] s a o l s'); [constructor|assumption]. Qed.

(** A schedule that runs is an execution. *)
Lemma run_exec (sched : list (actor * outcome)) (s s' : system) :
  run sched s = Some s' -> exec s (trace_of sched s) s'.
Proof.
  revert s. induction sched as [|[a o] sched IH]; intros s H; simpl in *.
  - inversion H; subst. constructor.
  - destruct (sys_step a o s) as [[s1 l]|] eqn:E; [|discriminate].
    apply (exec_trans s s1 s' [(a, o, l)] (trace_of sched s1));
      [apply exec_one; assumption|apply IH; assumption].
Qed.

Lemma after_exec (sched : list (actor * outcome)) :
  runs sched = true ->
  exec init (trace_of sched init) (after sched).
Proof.
  unfold after, runs. destruct (run sched init) as [s|] eqn:E; [|discriminate].
  intros _. apply run_exec, E.
Qed.

(** Mutual exclusion: while the mutex is free no process is inside a
    critical section, and never is more than one inside. *)
Lemma mutual_exclusion (s : system) :
  Inv s -> holders s <= 1 /\ (mutex_free s -> holders s = 0).
Proof.
  intros [[H0 H1] _ _ _ _]. unfold mutex_free.
  assert (0 <= holders s).
  { unfold holders. pose proof (count_nonneg p_in_cs (passengers s)).
    destruct (h_in_cs _), (pl_in_cs _); simpl; lia. }
  lia.
Qed.

(** No transition lowers [totalPassBoarded]. *)
Lemma total_step (s s' : system) (a : actor) (o : outcome) (l : label) :
  sys_step a o s = Some (s', l) ->
  totalPassBoarded (sh s) <= totalPassBoarded (sh s').
Proof.
  intros Hstep. destruct s as [m S h ps pl].
  destruct a as [|i|]; cbn [sys_step sh gates hostess passengers pilot] in *.
  - destruct (hostess_step o h m S) as [[[[h' m'] S'] l']|] eqn:E; [|discriminate].
    inversion Hstep; subst; clear Hstep. destruct h as [pc np la lp].
    unfold hostess_step in E. cbn [h_pc] in E.
    destruct pc; unfold h_gate, h_stmt, semCall, semDown, semUp, h_goto in E;
      destruct o; simpl in E; try discriminate;
      split_tests E; try discriminate;
      inversion E; subst; clear E; simpl; lia.
  - destruct (ps !! i) as [pc|] eqn:Hi; [|discriminate].
    destruct (passenger_step i o pc m S) as [[[[pc' m'] S'] l']|] eqn:E; [|discriminate].
    inversion Hstep; subst; clear Hstep.
    destruct pc;
      unfold passenger_step, p_gate, p_gate_untested, p_stmt, p_store_stat,
             semCall, semDown, semUp in E;
      destruct o; simpl in E; try discriminate;
      split_tests E; try discriminate;
      inversion E; subst; clear E; simpl; lia.
  - destruct o; [|discriminate].
    destruct (pilot_step pl m S) as [[[[p' m'] S'] l']|] eqn:E; [|discriminate].
    inversion Hstep; subst; clear Hstep. destruct pl as [pc k].
    unfold pilot_step in E. cbn [pl_pc] in E.
    destruct pc; unfold pl_gate, semCall, semDown, semUp in E; simpl in E;
      split_tests E; try discriminate;
      inversion E; subst; clear E; simpl; lia.
Qed.

Lemma total_exec (s s' : system) (tr : list event) :
  exec s tr s' -> totalPassBoarded (sh s) <= totalPassBoarded (sh s').
Proof.
  intros Hex. induction Hex; [lia|].
  pose proof (total_step _ _ _ _ _ H). lia.
Qed.

(** C2 (as the code has it).  In every state of every execution in which
    the mutex is free, [nPassInFlight] plus the number of passengers at
    destination equals [totalPassBoarded] (the queue does not enter the
    balance: a queued passenger has not boarded); and [totalPassBoarded]
    never decreases. *)
Theorem C2_conservation (tr : list event) (s : system)
    (HN : 0 <= N) (Hex : exec init tr s) :
  (mutex_free s ->
   nPassInFlight (sh s) + atDestination (sh s) = totalPassBoarded (sh s))
  /\ (forall tr' s', exec s tr' s' ->
        totalPassBoarded (sh s) <= totalPassBoarded (sh s')).
Proof.
  split; [|intros tr' s'; apply total_exec].
  intros Hfree. pose proof (Inv_exec _ _ HN Hex) as HI.
  destruct (mutual_exclusion s HI) as [_ H0]. specialize (H0 Hfree).
  pose proof (inv_flight s HI) as Hfl.
  unfold holders in H0.
  pose proof (count_nonneg p_in_cs (passengers s)).
  pose proof (count_nonneg p_at_dec (passengers s)).
  assert (count p_at_dec (passengers s) <= count p_in_cs (passengers s))
    by (apply count_le; intros []; simpl; congruence).
  destruct (h_pc (hostess s)), (pl_in_cs (pl_pc (pilot s))); simpl in *; lia.
Qed.

(** C4 (as the code has it).  [finished] implies [totalPassBoarded == N] in
    every state; conversely, when [totalPassBoarded == N] either [finished]
    is set, or the hostess is between the check-in that completed the count
    and the end of the READY_TO_FLIGHT critical section (where [finished]
    is written), or she has exited on a failed semaphore call. *)
Theorem C4_finished (tr : list event) (s : system)
    (HN : 0 < N) (Hex : exec init tr s) :
  (finished (sh s) = true -> totalPassBoarded (sh s) = N)
  /\ (totalPassBoarded (sh s) = N ->
      finished (sh s) = true
      \/ h_in_window (h_pc (hostess s)) = true
      \/ h_pc (hostess s) = H_exit).
Proof.
  assert (HI : Inv s) by (apply (Inv_exec tr); [lia|assumption]).
  pose proof (inv_hostess s HI) as Hh. unfold hinv in Hh.
  destruct (h_pc (hostess s)); simpl; intuition (try lia; try congruence).
Qed.

(** The slot of passenger [i] changes only when passenger [i] moves, and
    then to the status that follows. *)
Lemma status_step (s s' : system) (a : actor) (o : outcome) (l : label)
    (i : nat) (v : PassengerState) :
  Inv s -> sys_step a o s = Some (s', l) -> status s i = Some v ->
  exists v', status s' i = Some v'
    /\ (v' = v \/ (a = Passenger i /\ next_stat v = Some v')).
Proof.
  intros [Hmx Hlen Hst Hfl Hh] Hstep Hv. unfold status in *.
  destruct s as [m S h ps pl].
  destruct a as [|j|]; cbn [sys_step sh gates hostess passengers pilot] in *.
  - destruct (hostess_step o h m S) as [[[[h' m'] S'] l']|] eqn:E; [|discriminate].
    inversion Hstep; subst; clear Hstep. destruct h as [pc np la lp].
    unfold hostess_step in E. cbn [h_pc] in E.
    destruct pc; unfold h_gate, h_stmt, semCall, semDown, semUp, h_goto in E;
      destruct o; simpl in E; try discriminate;
      split_tests E; try discriminate;
      inversion E; subst; clear E; simpl; eauto.
  - destruct (ps !! j) as [pc|] eqn:Hj; [|discriminate].
    destruct (passenger_step j o pc m S) as [[[[pc' m'] S'] l']|] eqn:E; [|discriminate].
    inversion Hstep; subst; clear Hstep.
    pose proof (fun w => Hst j pc w Hj) as Hold.
    destruct pc;
      unfold passenger_step, p_gate, p_gate_untested, p_stmt, p_store_stat,
             semCall, semDown, semUp in E;
      destruct o; simpl in E; try discriminate;
      split_tests E; try discriminate;
      inversion E; subst; clear E; simpl; eauto;
      specialize (Hold _ eq_refl);
      match goal with
      | H : array_store _ _ _ = Some _ |- _ => apply array_store_nat in H as [-> ?]
      end;
      (destruct (decide (j = i)) as [->|Hne];
       [ rewrite list_lookup_insert_eq by assumption;
         eexists; split; [reflexivity|]; right; split; [reflexivity|];
         rewrite Hold in Hv; inversion Hv; subst; reflexivity
       | rewrite list_lookup_insert_ne by assumption; eauto ]).
  - destruct o; [|discriminate].
    destruct (pilot_step pl m S) as [[[[p' m'] S'] l']|] eqn:E; [|discriminate].
    inversion Hstep; subst; clear Hstep. destruct pl as [pc k].
    unfold pilot_step in E. cbn [pl_pc] in E.
    destruct pc; unfold pl_gate, semCall, semDown, semUp in E; simpl in E;
      split_tests E; try discriminate;
      inversion E; subst; clear E; simpl; eauto.
Qed.

Lemma next_stat_rank (v v' : PassengerState) :
  next_stat v = Some v' -> stat_rank v' = stat_rank v + 1.
Proof. destruct v; simpl; intros H; inversion H; reflexivity. Qed.

Lemma status_exec (s s' : system) (tr : list event) (i : nat) (v : PassengerState) :
  Inv s -> exec s tr s' -> status s i = Some v ->
  exists v', status s' i = Some v' /\ stat_rank v <= stat_rank v'.
Proof.
  intros HI Hex Hv. induction Hex.
  - exists v. split; [assumption|lia].
  - destruct IHHex as (v1 & Hv1 & Hr1).
    destruct (status_step _ _ _ _ _ i v1 (Inv_exec_from _ _ _ HI Hex) H Hv1)
      as (v2 & Hv2 & [->|[_ Hn]]).
    + exists v1. auto.
    + exists v2. split; [assumption|]. apply next_stat_rank in Hn. lia.
Qed.

End Invariants.

(* ===================================================================== *)
(** ** Executions without failed semaphore calls                          *)
(* ===================================================================== *)

Ltac sem_facts Hnn :=
  pose proof (Hnn mutex); pose proof (Hnn passengersInQueue);
  pose proof (Hnn passengersWaitInQueue); pose proof (Hnn idShown);
  pose proof (Hnn readyForBoarding); pose proof (Hnn readyToFlight);
  pose proof (Hnn passengersWaitInFlight); pose proof (Hnn planeEmpty).

Section FaultFree.
Context {cfg : Config}.

Lemma b2z_range (b : bool) : 0 <= b2z b <= 1.
Proof. destruct b; simpl; lia. Qed.

Lemma count_ge_lookup {A} (f : A -> bool) (l : list A) (i : nat) (x : A) :
  l !! i = Some x -> b2z (f x) <= count f l.
Proof.
  revert i. induction l as [|z l IH]; intros [|i] Hi; simpl in *; try discriminate.
  - inversion Hi; subst. pose proof (count_nonneg f l). unfold b2z. destruct (f x); lia.
  - specialize (IH i Hi). destruct (f z); lia.
Qed.

Lemma count_cs_tail (ps : list ppc) :
  count p_at_dec ps + count p_at_test ps + count p_at_signal ps <= count p_in_cs ps.
Proof.
  induction ps as [|pc ps IH]; simpl; [lia|]. destruct pc; simpl; lia.
Qed.

Lemma h_has_boarded_boarding (pc : hpc) :
  b2z (h_has_boarded pc) <= b2z (h_boarding pc).
Proof. destruct pc; simpl; lia. Qed.

Ltac count_facts ps :=
  pose proof (count_nonneg p_in_cs ps);
  pose proof (count_nonneg p_leaving ps);
  pose proof (count_nonneg p_waiting ps);
  pose proof (count_nonneg p_at_test ps);
  pose proof (count_nonneg p_at_signal ps);
  pose proof (count_nonneg p_at_dec ps);
  pose proof (count_cs_tail ps).

Ltac lookup_facts Hi :=
  pose proof (count_ge_lookup p_in_cs _ _ _ Hi);
  pose proof (count_ge_lookup p_leaving _ _ _ Hi);
  pose proof (count_ge_lookup p_waiting _ _ _ Hi);
  pose proof (count_ge_lookup p_at_test _ _ _ Hi);
  pose proof (count_ge_lookup p_at_signal _ _ _ Hi);
  pose proof (count_ge_lookup p_at_dec _ _ _ Hi).

Lemma InvOk_init : InvOk init.
Proof.
  constructor; unfold holders, pilot_inv; simpl;
    rewrite ?count_replicate by reflexivity; try lia.
  - intros []; cbn; lia.
  - apply length_replicate.
Qed.

Lemma InvOk_step_hostess (s s' : system) (l : label) :
  InvOk s -> sys_step Hostess Ok s = Some (s', l) -> InvOk s'.
Proof.
  intros [Hnn Hmx Hex Hq Hsv Hsh Hab Hph Hc Hb Hpl Hsl Hiq] Hstep.
  destruct s as [m S h ps pl].
  cbn [sys_step sh gates hostess passengers pilot] in *.
  destruct (hostess_step Ok h m S) as [[[[h' m'] S'] l']|] eqn:E; [|discriminate].
  inversion Hstep; subst; clear Hstep.
  destruct h as [pc np la lp]. destruct S. destruct pl as [qc k].
  sem_facts Hnn. clear Hnn.
  unfold hostess_step in E. cbn [h_pc] in E.
  destruct pc; unfold h_gate, h_stmt, semCall, semDown, semUp, h_goto in E;
    simpl in E; try discriminate;
    split_tests E; try discriminate;
    inversion E; subst; clear E; zify_tests;
    try match goal with
        | H : array_store _ _ _ = Some _ |- _ => apply array_store_inv in H as [? ->]
        end;
    (constructor; unfold holders, pilot_inv in *; simpl in *;
     [ intros []; simpl; lia | lia | lia | lia | lia | lia | lia | lia | lia | lia
     | destruct qc; simpl in *; lia
     | rewrite ?length_insert; assumption
     | lia ]).
Qed.

Lemma InvOk_step_passenger (s s' : system) (i : nat) (l : label) :
  InvOk s -> sys_step (Passenger i) Ok s = Some (s', l) -> InvOk s'.
Proof.
  intros [Hnn Hmx Hex Hq Hsv Hsh Hab Hph Hc Hb Hpl Hsl Hiq] Hstep.
  destruct s as [m S h ps pl].
  cbn [sys_step sh gates hostess passengers pilot] in *.
  destruct (ps !! i) as [pc|] eqn:Hi; [|discriminate].
  destruct (passenger_step i Ok pc m S) as [[[[pc' m'] S'] l']|] eqn:E; [|discriminate].
  inversion Hstep; subst; clear Hstep.
  destruct S. destruct pl as [qc k].
  sem_facts Hnn. clear Hnn. count_facts ps. lookup_facts Hi.
  pose proof (b2z_range (h_in_cs (h_pc h))).
  pose proof (b2z_range (pl_in_cs qc)).
  pose proof (h_has_boarded_boarding (h_pc h)).
  pose proof (b2z_range (h_has_boarded (h_pc h))).
  destruct pc;
    unfold passenger_step, p_gate, p_gate_untested, p_stmt, p_store_stat,
           semCall, semDown, semUp in E;
    simpl in E; try discriminate;
    split_tests E; try discriminate;
    inversion E; subst; clear E; zify_tests;
    (constructor; unfold holders, pilot_inv in *; simpl in *;
     rewrite ?(count_insert _ _ _ _ _ Hi); simpl in *;
     [ intros []; simpl; lia | lia | lia | lia | lia | lia | lia | lia
     | first [lia | destruct qc; simpl in *; lia]
     | first [lia | destruct qc; simpl in *; lia]
     | destruct qc; simpl in *; lia
     | assumption
     | lia ]).
Qed.

Lemma InvOk_step_pilot (s s' : system) (l : label) :
  InvOk s -> sys_step Pilot Ok s = Some (s', l) -> InvOk s'.
Proof.
  intros [Hnn Hmx Hex Hq Hsv Hsh Hab Hph Hc Hb Hpl Hsl Hiq] Hstep.
  destruct s as [m S h ps pl].
  cbn [sys_step sh gates hostess passengers pilot] in *.
  destruct (pilot_step pl m S) as [[[[p' m'] S'] l']|] eqn:E; [|discriminate].
  inversion Hstep; subst; clear Hstep.
  destruct S. destruct pl as [qc k].
  sem_facts Hnn. clear Hnn. count_facts ps.
  pose proof (b2z_range (h_boarding (h_pc h))).
  pose proof (b2z_range (h_at_inct (h_pc h))).
  pose proof (b2z_range (h_has_boarded (h_pc h))).
  unfold pilot_step in E. cbn [pl_pc] in E.
  destruct qc; unfold pl_gate, semCall, semDown, semUp in E; simpl in E;
    split_tests E; try discriminate;
    inversion E; subst; clear E; zify_tests;
    (constructor; unfold holders, pilot_inv in *; simpl in *;
     [ intros []; simpl; lia | lia | lia | lia | lia | lia | lia | lia | lia | lia
     | lia | assumption | lia ]).
Qed.

Lemma InvOk_step (s s' : system) (a : actor) (l : label) :
  InvOk s -> sys_step a Ok s = Some (s', l) -> InvOk s'.
Proof.
  destruct a; eauto using InvOk_step_hostess, InvOk_step_passenger, InvOk_step_pilot.
Qed.

Lemma InvOk_exec_from (s s' : system) (tr : list event) :
  InvOk s -> exec s tr s' -> fault_free tr -> InvOk s'.
Proof.
  intros HI Hex. induction Hex; intros Hff; [assumption|].
  unfold fault_free in Hff. apply Forall_app in Hff as [Hff1 Hff2].
  apply Forall_cons in Hff2 as [Ho _]. simpl in Ho. subst o.
  eapply InvOk_step; [apply IHHex, Hff1|eassumption].
Qed.

Lemma InvOk_exec (s : system) (tr : list event) :
  exec init tr s -> fault_free tr -> InvOk s.
Proof. apply InvOk_exec_from, InvOk_init. Qed.

Lemma count_app {A} (f : A -> bool) (l l' : list A) :
  count f (l ++ l') = count f l + count f l'.
Proof. induction l as [|x l IH]; simpl; [reflexivity|]. rewrite IH. lia. Qed.

Lemma count_two {A} (f : A -> bool) (l : list A) (i j : nat) (x y : A) :
  i <> j -> l !! i = Some x -> l !! j = Some y ->
  b2z (f x) + b2z (f y) <= count f l.
Proof.
  revert i j. induction l as [|z l IH]; intros [|i] [|j] Hne Hi Hj;
    simpl in *; try discriminate; try congruence.
  - inversion Hi; subst. pose proof (count_ge_lookup f l j y Hj).
    unfold b2z in *. destruct (f x); lia.
  - inversion Hj; subst. pose proof (count_ge_lookup f l i x Hi).
    unfold b2z in *. destruct (f y); lia.
  - assert (i <> j) by congruence. specialize (IH i j H Hi Hj). destruct (f z); lia.
Qed.

(** The value of [planeEmpty] moves with the signals and the takes. *)
Lemma planeEmpty_step (s s' : system) (a : actor) (o : outcome) (l : label) :
  sys_step a o s = Some (s', l) ->
  semval (gates s') planeEmpty
  = semval (gates s) planeEmpty + b2z (is_empty_signal (a, o, l))
    - b2z (is_empty_taken (a, o, l)).
Proof.
  intros Hstep. destruct s as [m S h ps pl].
  destruct a as [|i|]; cbn [sys_step sh gates hostess passengers pilot] in *.
  - destruct (hostess_step o h m S) as [[[[h' m'] S'] l']|] eqn:E; [|discriminate].
    inversion Hstep; subst; clear Hstep. destruct h as [pc np la lp]. destruct S.
    unfold hostess_step in E. cbn [h_pc] in E.
    destruct pc; unfold h_gate, h_stmt, semCall, semDown, semUp, h_goto in E;
      destruct o; simpl in E; try discriminate;
      split_tests E; try discriminate;
      inversion E; subst; clear E; simpl; lia.
  - destruct (ps !! i) as [pc|] eqn:Hi; [|discriminate].
    destruct (passenger_step i o pc m S) as [[[[pc' m'] S'] l']|] eqn:E; [|discriminate].
    inversion Hstep; subst; clear Hstep. destruct S.
    destruct pc;
      unfold passenger_step, p_gate, p_gate_untested, p_stmt, p_store_stat,
             semCall, semDown, semUp in E;
      destruct o; simpl in E; try discriminate;
      split_tests E; try discriminate;
      inversion E; subst; clear E; simpl; lia.
  - destruct o; [|discriminate].
    destruct (pilot_step pl m S) as [[[[p' m'] S'] l']|] eqn:E; [|discriminate].
    inversion Hstep; subst; clear Hstep. destruct pl as [pc k]. destruct S.
    unfold pilot_step in E. cbn [pl_pc] in E.
    destruct pc; unfold pl_gate, semCall, semDown, semUp in E; simpl in E;
      split_tests E; try discriminate;
      inversion E; subst; clear E; simpl; lia.
Qed.

Lemma planeEmpty_exec (s s' : system) (tr : list event) :
  exec s tr s' ->
  count is_empty_signal tr + semval (gates s) planeEmpty
  = count is_empty_taken tr + semval (gates s') planeEmpty.
Proof.
  intros Hex. induction Hex; simpl; [lia|].
  rewrite !count_app. pose proof (planeEmpty_step _ _ _ _ _ H) as Hs.
  cbn [count semval] in *. unfold b2z in Hs.
  destruct (is_empty_signal (a, o, l)), (is_empty_taken (a, o, l)); lia.
Qed.

(** While a passenger is inside a critical section the mutex is taken and
    no transition of another process changes the shared region. *)
Lemma critical_section_atomic (s s' : system) (i : nat) (pc : ppc)
    (a : actor) (o : outcome) (l : label) :
  0 <= semval (gates s) mutex -> semval (gates s) mutex + holders s <= 1 ->
  passengers s !! i = Some pc -> p_in_cs pc = true ->
  semval (gates s) mutex = 0
  /\ (a <> Passenger i -> sys_step a o s = Some (s', l) -> sh s' = sh s).
Proof.
  intros H0 Hmx Hi Hcs. unfold holders in Hmx.
  pose proof (count_ge_lookup p_in_cs _ _ _ Hi) as Hge. rewrite Hcs in Hge. simpl in Hge.
  pose proof (b2z_range (h_in_cs (h_pc (hostess s)))).
  pose proof (b2z_range (pl_in_cs (pl_pc (pilot s)))).
  split; [lia|]. intros Hne Hstep.
  destruct s as [m S h ps pl].
  destruct a as [|j|]; cbn [sys_step sh gates hostess passengers pilot] in *.
  - destruct (hostess_step o h m S) as [[[[h' m'] S'] l']|] eqn:E; [|discriminate].
    inversion Hstep; subst; clear Hstep. destruct h as [hc np la lp].
    unfold hostess_step in E. cbn [h_pc] in *.
    destruct hc; unfold h_gate, h_stmt, semCall, semDown, semUp, h_goto in E;
      destruct o; simpl in *; try discriminate;
      split_tests E; try discriminate;
      inversion E; subst; clear E; simpl; first [reflexivity | lia].
  - assert (Hij : i <> j) by congruence.
    destruct (ps !! j) as [qc|] eqn:Hj; [|discriminate].
    pose proof (count_two p_in_cs _ _ _ _ _ Hij Hi Hj) as H2. rewrite Hcs in H2.
    destruct (passenger_step j o qc m S) as [[[[pc' m'] S'] l']|] eqn:E; [|discriminate].
    inversion Hstep; subst; clear Hstep.
    destruct qc;
      unfold passenger_step, p_gate, p_gate_untested, p_stmt, p_store_stat,
             semCall, semDown, semUp in E;
      destruct o; simpl in *; try discriminate;
      split_tests E; try discriminate;
      inversion E; subst; clear E; simpl; first [reflexivity | lia].
  - destruct o; [|discriminate].
    destruct (pilot_step pl m S) as [[[[p' m'] S'] l']|] eqn:E; [|discriminate].
    inversion Hstep; subst; clear Hstep. destruct pl as [qc k].
    unfold pilot_step in E. cbn [pl_pc] in *.
    destruct qc; unfold pl_gate, semCall, semDown, semUp in E; simpl in *;
      split_tests E; try discriminate;
      inversion E; subst; clear E; simpl; first [reflexivity | lia].
Qed.

(** X22.  In an execution without failed semaphore calls: the signals of
    [planeEmpty] and the pilot's takes of it (one per flight cycle) balance
    with the value of the semaphore, which with a passenger about to signal
    never exceeds one, so every flight cycle has exactly one signal; a
    passenger signals exactly when its own decrement left [nPassInFlight] at
    zero, and the count is still zero when it signals; from the decrement to
    the release of the mutex the mutex is taken and no other process changes
    the shared region.  (A failed semaphore call breaks this: see the
    execution of two passengers among the concrete executions.) *)
Theorem planeEmpty_once_without_failures (tr : list event) (s : system)
    (Hex : exec init tr s) (Hff : fault_free tr) :
  count is_empty_signal tr
    = count is_empty_taken tr + semval (gates s) planeEmpty
  /\ 0 <= semval (gates s) planeEmpty + count p_at_signal (passengers s) <= 1
  /\ (forall i m S,
        passenger_run 2 i P_wd_dec m S
        = Some (if nPassInFlight m - 1 =? 0 then P_wd_signal else P_wd_unlock,
                set_nPassInFlight (nPassInFlight m - 1) m, S, [Stmt []; Stmt []]))
  /\ (forall i, passengers s !! i = Some P_wd_signal -> nPassInFlight (sh s) = 0)
  /\ (forall i pc, passengers s !! i = Some pc -> p_in_cs pc = true ->
        semval (gates s) mutex = 0
        /\ forall a o l s', a <> Passenger i ->
             sys_step a o s = Some (s', l) -> sh s' = sh s).
Proof.
  pose proof (InvOk_exec s tr Hex Hff) as [Hnn Hmx Hnx Hq Hsv Hsh Hab Hph Hc Hb Hpl Hsl Hiq].
  pose proof (planeEmpty_exec _ _ _ Hex) as Hacc.
  change (semval (gates init) planeEmpty) with 0 in Hacc.
  pose proof (count_nonneg p_at_signal (passengers s)).
  pose proof (count_nonneg p_at_test (passengers s)).
  pose proof (Hnn planeEmpty). pose proof (Hnn mutex) as Hm0.
  split; [lia|]. split; [|split; [|split]].
  - unfold pilot_inv in Hpl. destruct (pl_pc (pilot s)); simpl in *; lia.
  - intros i m S. simpl. destruct (nPassInFlight m - 1 =? 0); reflexivity.
  - intros i Hi. pose proof (count_ge_lookup p_at_signal _ _ _ Hi) as Hge. simpl in Hge.
    unfold pilot_inv in Hpl. destruct (pl_pc (pilot s)); simpl in *; lia.
  - intros i pc Hi Hcs.
    assert (Hh : semval (gates s) mutex + holders s <= 1) by lia.
    split.
    + exact (proj1 (critical_section_atomic s s i pc Hostess Ok (Stmt []) Hm0 Hh Hi Hcs)).
    + intros a o l s' Hne Hstep.
      exact (proj2 (critical_section_atomic s s' i pc a o l Hm0 Hh Hi Hcs) Hne Hstep).
Qed.

Lemma count_zero_all {A} (f : A -> bool) (l : list A) :
  (forall i x, l !! i = Some x -> f x = false) -> count f l = 0.
Proof.
  induction l as [|z l IH]; intros H; simpl; [reflexivity|].
  rewrite (H O z eq_refl). rewrite IH; [reflexivity|].
  intros i x Hi. apply (H (S i) x Hi).
Qed.

Lemma count_all_true {A} (f : A -> bool) (l : list A) :
  (forall i x, l !! i = Some x -> f x = true) -> count f l = Z.of_nat (length l).
Proof.
  induction l as [|z l IH]; intros H; [reflexivity|].
  cbn [count length]. rewrite (H O z eq_refl). rewrite IH; [lia|].
  intros i x Hi. apply (H (S i) x Hi).
Qed.

(** Where the hostess cannot move. *)
Lemma hostess_blocked (h : HLocal) (m : FULL_STAT) (S : SEMS) :
  hostess_step Ok h m S = None ->
  match h_pc h with
  | H_wnf_lock | H_wfp_lock | H_cp_lock1 | H_cp_lock2 | H_srf_lock =>
      semval S mutex <= 0
  | H_wnf_wait => semval S readyForBoarding <= 0
  | H_wfp_wait => semval S passengersInQueue <= 0
  | H_cp_wait => semval S idShown <= 0
  | H_srf_record =>
      ~ (1 <= nFlight m <= Z.of_nat (length (nPassengersInFlight m)))
  | H_done | H_exit => True
  | _ => False
  end.
Proof.
  destruct h as [pc np la lp]. unfold hostess_step. cbn [h_pc].
  destruct pc; unfold h_gate, h_stmt, semCall, semDown, semUp; simpl;
    try discriminate; try (intros _; exact I);
    try (intros H Hb; rewrite array_store_Some in H by lia; discriminate);
    match goal with
    | |- context [0 <? ?v] => destruct (Z.ltb_spec 0 v); [discriminate|auto]
    end.
Qed.

(** Where a passenger cannot move. *)
Lemma passenger_blocked (i : nat) (pc : ppc) (m : FULL_STAT) (S : SEMS) :
  passenger_step i Ok pc m S = None ->
  match pc with
  | P_wq_lock1 | P_wq_lock2 | P_wd_lock => semval S mutex <= 0
  | P_wq_wait => semval S passengersWaitInQueue <= 0
  | P_wd_wait => semval S passengersWaitInFlight <= 0
  | P_wq_stat1 | P_wq_stat2 | P_wd_stat =>
      ~ (i < length (passengerStat (st m)))%nat
  | P_done | P_exit => True
  | _ => False
  end.
Proof.
  destruct pc; unfold passenger_step, p_gate, p_gate_untested, p_stmt, p_store_stat,
                      semCall, semDown, semUp; simpl;
    try discriminate; try (intros _; exact I);
    try (intros H Hb; rewrite array_store_Some in H by lia; discriminate);
    match goal with
    | |- context [0 <? ?v] => destruct (Z.ltb_spec 0 v); [discriminate|auto]
    end.
Qed.

(** Where the pilot cannot move. *)
Lemma pilot_blocked (p : PLocal) (m : FULL_STAT) (S : SEMS) :
  pilot_step p m S = None ->
  match pl_pc p with
  | PL_open_lock | PL_drop_lock => semval S mutex <= 0
  | PL_wait_ready => semval S readyToFlight <= 0
  | PL_wait_empty => semval S planeEmpty <= 0
  | _ => False
  end.
Proof.
  destruct p as [pc k]. unfold pilot_step. cbn [pl_pc].
  destruct pc; unfold pl_gate, semCall, semDown, semUp; simpl; try discriminate;
    match goal with
    | |- context [0 <? ?v] => destruct (Z.ltb_spec 0 v); try discriminate; auto
    end.
Qed.

Lemma decision_true_min (m : FULL_STAT) :
  MINFC <= MAXFC -> departure_decision m = true ->
  MINFC <= nPassInFlight m \/ totalPassBoarded m = N.
Proof.
  intros HM Hd. apply departure_decision_spec in Hd.
  destruct Hd as [Hd|[[Hd _]|Hd]]; [left; lia|left; assumption|right; assumption].
Qed.

Lemma departing_boarding (h : HLocal) :
  departing h = true -> h_boarding (h_pc h) = true.
Proof.
  destruct h as [pc np la lp].
  destruct pc; simpl; intros; first [reflexivity | discriminate].
Qed.

Lemma InvMin_init : 0 <= N -> InvMin init.
Proof.
  intros HN. constructor; unfold flights_inv, flown; simpl; [exact I|]. lia.
Qed.

Lemma InvMin_step (s s' : system) (a : actor) (l : label) :
  MINFC <= MAXFC ->
  InvOk s -> Inv s -> InvMin s -> sys_step a Ok s = Some (s', l) -> InvMin s'.
Proof.
  intros HM [Hnn Hmx Hnx Hq Hsv Hsh Hab Hph Hc Hb Hpl Hsl Hiq] [_ Hlen Hst _ Hh]
         [Hdep Hfl] Hstep.
  destruct s as [m S h ps pl].
  destruct a as [|i|]; cbn [sys_step sh gates hostess passengers pilot] in *.
  - (* the hostess *)
    destruct (hostess_step Ok h m S) as [[[[h' m'] S'] l']|] eqn:E; [|discriminate].
    inversion Hstep; subst; clear Hstep.
    destruct h as [pc np la lp]. destruct S. destruct pl as [qc k].
    sem_facts Hnn. clear Hnn.
    unfold hostess_step in E. cbn [h_pc] in E.
    destruct pc; unfold h_gate, h_stmt, semCall, semDown, semUp, h_goto in E;
      simpl in E; try discriminate;
      split_tests E; try discriminate;
      inversion E; subst; clear E; zify_tests;
      try match goal with
          | H : array_store _ _ _ = Some _ |- _ => apply array_store_inv in H as [? ->]
          end;
      (constructor;
       unfold departing, flights_inv, flown, holders, pilot_inv, hinv in *;
       simpl in *;
       [ try match goal with
             | |- context [departure_decision ?x] =>
                 pose proof (decision_true_min x HM);
                 destruct (departure_decision x)
             end;
         try destruct la; try destruct lp; simpl in *; try exact I; lia
       | destruct qc; simpl in *; try destruct la; try destruct lp; simpl in *; lia ]).
  - (* a passenger *)
    destruct (ps !! i) as [pc|] eqn:Hi; [|discriminate].
    destruct (passenger_step i Ok pc m S) as [[[[pc' m'] S'] l']|] eqn:E; [|discriminate].
    inversion Hstep; subst; clear Hstep.
    destruct S. destruct pl as [qc k].
    sem_facts Hnn. clear Hnn.
    pose proof (count_ge_lookup p_leaving _ _ _ Hi).
    pose proof (departing_boarding h) as Hdb.
    destruct pc;
      unfold passenger_step, p_gate, p_gate_untested, p_stmt, p_store_stat,
             semCall, semDown, semUp in E;
      simpl in E; try discriminate;
      split_tests E; try discriminate;
      inversion E; subst; clear E; zify_tests;
      (constructor; unfold flights_inv, flown, holders, pilot_inv in *; simpl in *;
       [ destruct (departing h); [rewrite (Hdb eq_refl) in *|exact I];
         first [lia | destruct qc; simpl in *; lia]
       | destruct qc; simpl in *; lia ]).
  - (* the pilot *)
    destruct (pilot_step pl m S) as [[[[p' m'] S'] l']|] eqn:E; [|discriminate].
    inversion Hstep; subst; clear Hstep.
    destruct S. destruct pl as [qc k].
    sem_facts Hnn. clear Hnn.
    pose proof (b2z_range (h_boarding (h_pc h))).
    pose proof (b2z_range (h_at_inct (h_pc h))).
    unfold pilot_step in E. cbn [pl_pc] in E.
    destruct qc; unfold pl_gate, semCall, semDown, semUp in E; simpl in E;
      split_tests E; try discriminate;
      inversion E; subst; clear E; zify_tests;
      (constructor; unfold flights_inv, flown, holders, pilot_inv in *; simpl in *;
       [ destruct (departing h); [lia|exact I] | lia ]).
Qed.

Lemma InvMin_exec (s : system) (tr : list event) :
  0 <= N -> MINFC <= MAXFC -> exec init tr s -> fault_free tr -> InvMin s.
Proof.
  intros HN HM Hex. induction Hex; intros Hff; [apply InvMin_init, HN|].
  unfold fault_free in Hff. apply Forall_app in Hff as [Hff1 Hff2].
  apply Forall_cons in Hff2 as [Ho _]. simpl in Ho. subst o.
  apply (InvMin_step s1 s2 a l HM); auto.
  - apply (InvOk_exec s1 tr); assumption.
  - apply (Inv_exec tr); assumption.
Qed.

(** The store of [signalReadyToFlight] is within the array. *)
Lemma slots_ok (s : system) (tr : list event) :
  0 <= N -> slots_suffice -> exec init tr s -> fault_free tr ->
  h_pc (hostess s) = H_srf_record ->
  1 <= nFlight (sh s) <= Z.of_nat FLIGHT_SLOTS.
Proof.
  intros HN HS Hex Hff Hpc.
  pose proof (InvOk_exec s tr Hex Hff) as [Hnn Hmx Hnx Hq Hsv Hsh Hab Hph Hc Hb Hpl Hsl Hiq].
  pose proof (Inv_exec tr s HN Hex) as [_ Hlen Hst _ Hh].
  unfold pilot_inv, hinv in *. rewrite Hpc in *. sem_facts Hnn. simpl in *.
  destruct HS as [HS|[HM HS]].
  - destruct (pl_pc (pilot s)); simpl in *; lia.
  - pose proof (InvMin_exec s tr HN (proj2 HM) Hex Hff) as [_ Hfl].
    unfold flights_inv, flown in Hfl. rewrite Hpc in Hfl.
    destruct (pl_pc (pilot s)); simpl in *; try lia.
    split; [lia|].
    assert (MINFC * (nFlight (sh s) - 1) < MINFC * Z.of_nat FLIGHT_SLOTS) by lia.
    assert (nFlight (sh s) - 1 < Z.of_nat FLIGHT_SLOTS)
      by (apply (Z.mul_lt_mono_pos_l MINFC); lia).
    lia.
Qed.

Lemma stuck_parts (s : system) :
  (forall a, sys_step a Ok s = None) ->
  hostess_step Ok (hostess s) (sh s) (gates s) = None
  /\ pilot_step (pilot s) (sh s) (gates s) = None
  /\ (forall i pc, passengers s !! i = Some pc ->
        passenger_step i Ok pc (sh s) (gates s) = None).
Proof.
  intros Hstuck. split; [|split].
  - specialize (Hstuck Hostess). simpl in Hstuck.
    destruct (hostess_step _ _ _ _) as [[[[? ?] ?] ?]|]; [discriminate|reflexivity].
  - specialize (Hstuck Pilot). simpl in Hstuck.
    destruct (pilot_step _ _ _) as [[[[? ?] ?] ?]|]; [discriminate|reflexivity].
  - intros i pc Hi. specialize (Hstuck (Passenger i)). simpl in Hstuck.
    rewrite Hi in Hstuck.
    destruct (passenger_step _ _ _ _ _) as [[[[? ?] ?] ?]|]; [discriminate|reflexivity].
Qed.

Lemma count_full_lookup {A} (f : A -> bool) (l : list A) (i : nat) (x : A) :
  count f l = Z.of_nat (length l) -> l !! i = Some x -> f x = true.
Proof.
  revert i. induction l as [|z l IH]; intros i Hc Hi; [destruct i; discriminate|].
  assert (Hle : count f l <= Z.of_nat (length l)).
  { clear. induction l as [|y l IH]; simpl; [lia|]. destruct (f y); lia. }
  cbn [count length] in Hc.
  destruct i as [|i]; simpl in Hi.
  - inversion Hi; subst. destruct (f x); [reflexivity|lia].
  - apply (IH i); [destruct (f z); lia|assumption].
Qed.

(** No deadlock before the end: in a state reached without failed
    semaphore calls in which nobody can move, the hostess has left her loop
    and every passenger has returned from [waitUntilDestination]. *)
Lemma no_deadlock (s : system) :
  0 <= N ->
  (h_pc (hostess s) = H_srf_record ->
   1 <= nFlight (sh s) <= Z.of_nat FLIGHT_SLOTS) ->
  InvOk s -> Inv s -> length (passengers s) = Z.to_nat N ->
  (forall a, sys_step a Ok s = None) ->
  h_pc (hostess s) = H_done
  /\ forall i pc, passengers s !! i = Some pc -> pc = P_done.
Proof.
  intros HN HF [Hnn Hmx Hnx Hq Hsv Hsh Hab Hph Hc Hb Hpl Hsl Hiq]
         [_ Hlen Hst _ Hh] HlenN Hstuck.
  destruct (stuck_parts s Hstuck) as (HH & HL & HP).
  apply hostess_blocked in HH. apply pilot_blocked in HL.
  assert (HP' : forall i pc, passengers s !! i = Some pc ->
            match pc with
            | P_wq_lock1 | P_wq_lock2 | P_wd_lock => semval (gates s) mutex <= 0
            | P_wq_wait => semval (gates s) passengersWaitInQueue <= 0
            | P_wd_wait => semval (gates s) passengersWaitInFlight <= 0
            | P_wq_stat1 | P_wq_stat2 | P_wd_stat =>
                ~ (i < length (passengerStat (st (sh s))))%nat
            | P_done | P_exit => True
            | _ => False
            end)
    by (intros i pc Hi; apply passenger_blocked, HP, Hi).
  clear HP Hstuck.
  destruct s as [m S h ps pl]. destruct h as [hc np la lp]. destruct pl as [qc k].
  unfold holders, pilot_inv, hinv in *. cbn [sh gates hostess passengers pilot h_pc pl_pc
    nPassengers toRelease] in *.
  sem_facts Hnn. clear Hnn.
  pose proof (count_nonneg p_in_cs ps) as Hcs0.
  pose proof (count_nonneg p_exited ps) as Hex0.
  pose proof (b2z_range (h_in_cs hc)) as Hr1.
  pose proof (b2z_range (pl_in_cs qc)) as Hr2.
  pose proof (b2z_range (h_exited hc)) as Hr3.
  (* the mutex is free *)
  assert (Hm1 : semval S mutex = 1).
  { destruct (Z.eq_dec (semval S mutex) 1) as [|Hne]; [assumption|exfalso].
    destruct (h_in_cs hc) eqn:Ehc.
    - destruct hc; simpl in *; try discriminate; try contradiction.
      apply HH. rewrite Hsl. apply HF. reflexivity.
    - destruct (pl_in_cs qc) eqn:Epl.
      + destruct qc; simpl in *; try discriminate; contradiction.
      + assert (Hpos : 0 < count p_in_cs ps) by (simpl in *; lia).
        destruct (count_pos_lookup _ _ Hpos) as (i & pc & Hi & Hcs).
        specialize (HP' i pc Hi).
        destruct pc; simpl in *; try discriminate; try contradiction;
          apply HP'; rewrite Hlen; eapply lookup_lt_Some; eauto. }
  assert (Hx0 : count p_exited ps = 0) by lia.
  (* every passenger is blocked on a gate or has finished *)
  assert (Hblk : forall i pc, ps !! i = Some pc ->
            (pc = P_wq_wait /\ semval S passengersWaitInQueue <= 0)
            \/ (pc = P_wd_wait /\ semval S passengersWaitInFlight <= 0)
            \/ pc = P_done).
  { intros i pc Hi. specialize (HP' i pc Hi).
    pose proof (count_zero_lookup p_exited ps i pc Hx0 Hi) as Hne.
    destruct pc; simpl in *; try lia; try contradiction; try discriminate; auto;
      exfalso; apply HP'; rewrite Hlen; eapply lookup_lt_Some; eauto. }
  assert (HB : count p_leaving ps = 0).
  { apply count_zero_all. intros i pc Hi.
    destruct (Hblk i pc Hi) as [[-> _]|[[-> _]| ->]]; reflexivity. }
  assert (HT : count p_at_test ps = 0).
  { apply count_zero_all. intros i pc Hi.
    destruct (Hblk i pc Hi) as [[-> _]|[[-> _]| ->]]; reflexivity. }
  assert (HSg : count p_at_signal ps = 0).
  { apply count_zero_all. intros i pc Hi.
    destruct (Hblk i pc Hi) as [[-> _]|[[-> _]| ->]]; reflexivity. }
  assert (HSh : count p_showing ps = 0).
  { apply count_zero_all. intros i pc Hi.
    destruct (Hblk i pc Hi) as [[-> _]|[[-> _]| ->]]; reflexivity. }
  assert (HAn : count p_announced ps = N).
  { rewrite count_all_true; [lia|]. intros i pc Hi.
    destruct (Hblk i pc Hi) as [[-> _]|[[-> _]| ->]]; reflexivity. }
  (* the pilot is not waiting for the plane to empty *)
  assert (Hq1 : qc <> PL_wait_empty).
  { intros ->. simpl in *.
    assert (Hw : 0 < count p_waiting ps).
    { pose proof (b2z_range (h_admitting hc)). lia. }
    destruct (count_pos_lookup _ _ Hw) as (i & pc & Hi & Hpc).
    destruct (Hblk i pc Hi) as [[-> _]|[[-> Hle]| ->]]; simpl in Hpc;
      try discriminate. lia. }
  destruct hc; simpl in *; try contradiction; try lia.
  - (* blocked on readyForBoarding *)
    destruct qc; simpl in *; try contradiction; lia.
  - (* blocked on idShown *)
    assert (HSv : count p_served ps = N).
    { rewrite count_all_true; [lia|]. intros i pc Hi.
      destruct (Hblk i pc Hi) as [[-> Hle]|[[-> _]| ->]]; try reflexivity. lia. }
    lia.
  - (* the hostess has left her loop *)
    split; [reflexivity|]. intros i pc Hi.
    assert (HSv : count p_served ps = Z.of_nat (length ps)) by lia.
    assert (HW : count p_waiting ps = 0).
    { destruct qc; simpl in *; try contradiction; lia. }
    pose proof (count_full_lookup p_served ps i pc HSv Hi) as Hsvd.
    pose proof (count_zero_lookup p_waiting ps i pc HW Hi) as Hwtg.
    destruct (Hblk i pc Hi) as [[-> _]|[[-> _]| ->]]; simpl in *;
      try discriminate; reflexivity.
Qed.

Lemma weight_insert {A} (w : A -> Z) (l : list A) (i : nat) (x y : A) :
  l !! i = Some y -> weight w (<[i := x]> l) = weight w l - w y + w x.
Proof.
  revert i. induction l as [|z l IH]; intros [|i] Hi; simpl in *; try discriminate.
  - inversion Hi; subst. lia.
  - rewrite (IH i Hi). lia.
Qed.

Lemma weight_nonneg {A} (w : A -> Z) (l : list A) :
  (forall x, 0 <= w x) -> 0 <= weight w l.
Proof. intros Hw. induction l as [|z l IH]; simpl; [lia|]. specialize (Hw z). lia. Qed.

Lemma weight_replicate {A} (w : A -> Z) (n : nat) (x : A) :
  weight w (replicate n x) = Z.of_nat n * w x.
Proof. induction n; simpl replicate; cbn [weight]; [lia|]. rewrite IHn. lia. Qed.

Lemma count_replicate_true {A} (f : A -> bool) (n : nat) (x : A) :
  f x = true -> count f (replicate n x) = Z.of_nat n.
Proof. intros Hx. induction n; simpl replicate; cbn [count]; [lia|]. rewrite Hx, IHn. lia. Qed.

Lemma count_waiting_before (ps : list ppc) :
  count p_waiting ps <= count p_before_release ps.
Proof. apply count_le. intros []; simpl; congruence. Qed.

(** Every transition without a failed call lowers the measure. *)
Lemma measure_step (s s' : system) (a : actor) (l : label) :
  InvOk s -> Inv s -> sys_step a Ok s = Some (s', l) -> measure s' < measure s.
Proof.
  intros [Hnn Hmx Hnx Hq Hsv Hsh Hab Hph Hc Hb Hpl Hsl Hiq] [_ Hlen Hst _ Hh] Hstep.
  destruct s as [m S h ps pl].
  destruct a as [|i|]; cbn [sys_step sh gates hostess passengers pilot] in *.
  - destruct (hostess_step Ok h m S) as [[[[h' m'] S'] l']|] eqn:E; [|discriminate].
    inversion Hstep; subst; clear Hstep.
    destruct h as [pc np la lp]. destruct S.
    unfold hostess_step in E. cbn [h_pc] in E.
    destruct pc; unfold h_gate, h_stmt, semCall, semDown, semUp, h_goto in E;
      simpl in E; try discriminate;
      split_tests E; try discriminate;
      inversion E; subst; clear E; zify_tests;
      unfold measure, h_measure, pl_measure, hinv in *; simpl in *; lia.
  - destruct (ps !! i) as [pc|] eqn:Hi; [|discriminate].
    destruct (passenger_step i Ok pc m S) as [[[[pc' m'] S'] l']|] eqn:E; [|discriminate].
    inversion Hstep; subst; clear Hstep. destruct S.
    destruct pc;
      unfold passenger_step, p_gate, p_gate_untested, p_stmt, p_store_stat,
             semCall, semDown, semUp in E;
      simpl in E; try discriminate;
      split_tests E; try discriminate;
      inversion E; subst; clear E; zify_tests;
      unfold measure, h_measure, pl_measure in *; simpl in *;
      rewrite ?(count_insert _ _ _ _ _ Hi), ?(weight_insert _ _ _ _ _ Hi);
      simpl; lia.
  - destruct (pilot_step pl m S) as [[[[p' m'] S'] l']|] eqn:E; [|discriminate].
    inversion Hstep; subst; clear Hstep. destruct S. destruct pl as [qc k].
    unfold pilot_step in E. cbn [pl_pc] in E.
    destruct qc; unfold pl_gate, semCall, semDown, semUp in E; simpl in E;
      split_tests E; try discriminate;
      inversion E; subst; clear E; zify_tests;
      unfold measure, h_measure, pl_measure in *; simpl in *; lia.
Qed.

Lemma measure_nonneg (s : system) : InvOk s -> Inv s -> 0 <= measure s.
Proof.
  intros [Hnn Hmx Hnx Hq Hsv Hsh Hab Hph Hc Hb Hpl Hsl Hiq] [_ Hlen Hst _ Hh].
  destruct s as [m S h ps pl]. destruct h as [hc np la lp]. destruct pl as [qc k].
  unfold measure, h_measure, pl_measure, hinv, pilot_inv in *.
  cbn [sh gates hostess passengers pilot h_pc pl_pc nPassengers toRelease] in *.
  sem_facts Hnn.
  pose proof (weight_nonneg p_measure ps) as Hw.
  assert (0 <= weight p_measure ps) by (apply Hw; intros []; simpl; lia).
  pose proof (count_waiting_before ps).
  pose proof (count_nonneg p_leaving ps).
  pose proof (count_nonneg p_waiting ps).
  pose proof (b2z_range (h_admitting hc)).
  pose proof (count_nonneg p_exited ps).
  assert (semval S passengersWaitInFlight <= count p_before_release ps)
    by (destruct qc; simpl in *; lia).
  assert (0 <= N - np /\ 0 <= match hc with H_done | H_exit => 0 | _ => 1 end)
    by (destruct hc; simpl in *; lia).
  destruct hc; simpl in *; destruct qc; simpl; lia.
Qed.
Lemma passengers_length_step (s s' : system) (a : actor) (o : outcome) (l : label) :
  sys_step a o s = Some (s', l) -> length (passengers s') = length (passengers s).
Proof.
  destruct a as [|j|]; simpl; intros H.
  - destruct (hostess_step _ _ _ _) as [[[[? ?] ?] ?]|]; inversion H; reflexivity.
  - destruct (passengers s !! j); [|discriminate].
    destruct (passenger_step _ _ _ _ _) as [[[[? ?] ?] ?]|]; inversion H; simpl.
    apply length_insert.
  - destruct o; [|discriminate].
    destruct (pilot_step _ _ _) as [[[[? ?] ?] ?]|]; inversion H; reflexivity.
Qed.

Lemma passengers_length (s s' : system) (tr : list event) :
  exec s tr s' -> length (passengers s') = length (passengers s).
Proof.
  intros Hex. induction Hex; [reflexivity|].
  rewrite <- IHHex. eapply passengers_length_step; eauto.
Qed.

(** [totalPassBoarded] counts the completed check-ins. *)
Lemma checkin_step (s s' : system) (a : actor) (o : outcome) (l : label) :
  sys_step a o s = Some (s', l) ->
  totalPassBoarded (sh s') = totalPassBoarded (sh s) + b2z (is_checkin (a, o, l)).
Proof.
  intros Hstep. destruct s as [m S h ps pl].
  destruct a as [|i|]; cbn [sys_step sh gates hostess passengers pilot] in *.
  - destruct (hostess_step o h m S) as [[[[h' m'] S'] l']|] eqn:E; [|discriminate].
    inversion Hstep; subst; clear Hstep. destruct h as [pc np la lp].
    unfold hostess_step in E. cbn [h_pc] in E.
    destruct pc; unfold h_gate, h_stmt, semCall, semDown, semUp, h_goto in E;
      destruct o; simpl in E; try discriminate;
      split_tests E; try discriminate;
      inversion E; subst; clear E; simpl; lia.
  - destruct (ps !! i) as [pc|] eqn:Hi; [|discriminate].
    destruct (passenger_step i o pc m S) as [[[[pc' m'] S'] l']|] eqn:E; [|discriminate].
    inversion Hstep; subst; clear Hstep.
    destruct pc;
      unfold passenger_step, p_gate, p_gate_untested, p_stmt, p_store_stat,
             semCall, semDown, semUp in E;
      destruct o; simpl in E; try discriminate;
      split_tests E; try discriminate;
      inversion E; subst; clear E; simpl; lia.
  - destruct o; [|discriminate].
    destruct (pilot_step pl m S) as [[[[p' m'] S'] l']|] eqn:E; [|discriminate].
    inversion Hstep; subst; clear Hstep. destruct pl as [pc k].
    unfold pilot_step in E. cbn [pl_pc] in E.
    destruct pc; unfold pl_gate, semCall, semDown, semUp in E; simpl in E;
      split_tests E; try discriminate;
      inversion E; subst; clear E; simpl; lia.
Qed.

Lemma checkin_exec (s s' : system) (tr : list event) :
  exec s tr s' ->
  totalPassBoarded (sh s') = totalPassBoarded (sh s) + count is_checkin tr.
Proof.
  intros Hex. induction Hex; simpl; [lia|].
  rewrite count_app. pose proof (checkin_step _ _ _ _ _ H) as Hs.
  cbn [count]. unfold b2z in Hs. destruct (is_checkin (a, o, l)); lia.
Qed.

Lemma measure_init : 0 <= N -> measure init = 59 * N + 7.
Proof.
  intros HN. unfold measure, h_measure, pl_measure, init. simpl.
  rewrite weight_replicate, count_replicate_true by reflexivity. simpl. lia.
Qed.

(** Executions without failed calls are bounded in length. *)
Lemma exec_bound (s s' : system) (tr : list event) :
  InvOk s -> Inv s -> exec s tr s' -> fault_free tr ->
  Z.of_nat (length tr) + measure s' <= measure s.
Proof.
  intros HI HJ Hex. induction Hex; intros Hff; [simpl; lia|].
  unfold fault_free in Hff. apply Forall_app in Hff as [Hff1 Hff2].
  apply Forall_cons in Hff2 as [Ho _]. simpl in Ho. subst o.
  specialize (IHHex Hff1).
  pose proof (measure_step s1 s2 a l (InvOk_exec_from _ _ _ HI Hex Hff1)
                (Inv_exec_from _ _ _ HJ Hex) H).
  rewrite length_app. simpl. lia.
Qed.

(** Somebody can move, or nobody can. *)
Lemma move_or_stuck (s : system) :
  (exists a s' l, sys_step a Ok s = Some (s', l))
  \/ (forall a, sys_step a Ok s = None).
Proof.
  destruct (sys_step Hostess Ok s) as [[s1 l1]|] eqn:EH; [left; eauto|].
  destruct (sys_step Pilot Ok s) as [[s1 l1]|] eqn:EL; [left; eauto|].
  assert (Hp : (exists i s' l, sys_step (Passenger i) Ok s = Some (s', l))
               \/ (forall i, sys_step (Passenger i) Ok s = None)).
  { assert (Hn : forall n,
        (exists i s' l, sys_step (Passenger i) Ok s = Some (s', l))
        \/ (forall i, (i < n)%nat -> sys_step (Passenger i) Ok s = None)).
    { induction n as [|n IH]; [right; intros i Hi; lia|].
      destruct IH as [IH|IH]; [left; exact IH|].
      destruct (sys_step (Passenger n) Ok s) as [[s1 l1]|] eqn:En; [left; eauto|].
      right. intros i Hi. destruct (decide (i = n)) as [->|]; [assumption|].
      apply IH. lia. }
    destruct (Hn (length (passengers s))) as [Hl|Hr]; [left; exact Hl|].
    right. intros i. destruct (decide (i < length (passengers s))%nat) as [Hi|Hi].
    - apply Hr, Hi.
    - simpl. rewrite lookup_ge_None_2 by lia. reflexivity. }
  destruct Hp as [(i & s' & l & Hi)|Hp]; [left; eauto|].
  right. intros [|i|]; auto.
Qed.

(** From any state reached without failed calls the system can run, without
    failed calls, to a state in which nobody can move. *)
Lemma runs_to_end (s : system) :
  InvOk s -> Inv s ->
  exists tr s', exec s tr s' /\ fault_free tr /\ (forall a, sys_step a Ok s' = None).
Proof.
  intros HI HJ.
  remember (Z.to_nat (measure s)) as n eqn:En.
  revert s HI HJ En. induction n as [n IH] using lt_wf_ind. intros s HI HJ En.
  destruct (move_or_stuck s) as [(a & s1 & l & Hs)|Hstuck].
  - pose proof (measure_step s s1 a l HI HJ Hs) as Hlt.
    pose proof (InvOk_step _ _ _ _ HI Hs) as HI1.
    pose proof (Inv_step _ _ _ _ _ HJ Hs) as HJ1.
    pose proof (measure_nonneg s1 HI1 HJ1) as H0.
    destruct (IH (Z.to_nat (measure s1))) with (s := s1)
      as (tr & s' & Hex & Hff & Hend); try assumption; try reflexivity; [lia|].
    exists ((a, Ok, l) :: tr), s'. split; [|split; [|assumption]].
    + apply (exec_trans s s1 s' [(a, Ok, l)] tr); [apply exec_one|]; assumption.
    + constructor; [reflexivity|assumption].
  - exists [], s. split; [constructor|]. split; [constructor|assumption].
Qed.

Lemma fault_free_app (tr tr' : list event) :
  fault_free tr -> fault_free tr' -> fault_free (tr ++ tr').
Proof. intros H1 H2. apply Forall_app; auto. Qed.

(** C6.  With [N] passengers and the pilot of the specification, in an
    execution without failed semaphore calls: the execution has at most
    [59 * N + 7] transitions; the check-ins performed so far are
    [totalPassBoarded], never more than [N]; in a state in which nobody can
    move the hostess has left her loop, and from every state the system can
    run to such a state; when she has left the loop she has performed
    exactly [N] check-ins; a flight she declares ready has at least one
    passenger aboard; and once her count is [N] only the pending
    [signalReadyToFlight] and the loop test remain. *)
Theorem C6_hostess_terminates (tr : list event) (s : system)
    (HN : 0 <= N) (HF : slots_suffice)
    (Hex : exec init tr s) (Hff : fault_free tr) :
  Z.of_nat (length tr) <= 59 * N + 7
  /\ count is_checkin tr = totalPassBoarded (sh s)
  /\ nPassengers (hostess s) <= totalPassBoarded (sh s) <= N
  /\ ((forall a, sys_step a Ok s = None) -> h_pc (hostess s) = H_done)
  /\ (exists tr' s', exec s tr' s' /\ fault_free tr'
        /\ h_pc (hostess s') = H_done /\ count is_checkin (tr ++ tr') = N)
  /\ (h_pc (hostess s) = H_done ->
      nPassengers (hostess s) = N /\ count is_checkin tr = N)
  /\ (h_in_srf (h_pc (hostess s)) = true -> 1 <= nPassInFlight (sh s))
  /\ (nPassengers (hostess s) = N ->
      h_in_srf (h_pc (hostess s)) = true
      \/ h_pc (hostess s) = H_while \/ h_pc (hostess s) = H_done).
Proof.
  pose proof (InvOk_exec s tr Hex Hff) as HI.
  pose proof (Inv_exec tr s HN Hex) as HJ.
  pose proof (exec_bound init s tr InvOk_init (Inv_init HN) Hex Hff) as Hb.
  rewrite (measure_init HN) in Hb.
  pose proof (measure_nonneg s HI HJ) as Hm.
  pose proof (checkin_exec _ _ _ Hex) as Hck.
  change (totalPassBoarded (sh init)) with 0 in Hck.
  assert (Hlen : length (passengers s) = Z.to_nat N).
  { rewrite (passengers_length _ _ _ Hex). simpl. apply length_replicate. }
  assert (Hdone : forall tr1 s1, exec init tr1 s1 -> fault_free tr1 ->
            h_pc (hostess s1) = H_done ->
            nPassengers (hostess s1) = N /\ count is_checkin tr1 = N).
  { intros tr1 s1 Hex1 Hff1 Hpc.
    pose proof (inv_hostess s1 (Inv_exec tr1 s1 HN Hex1)) as Hh.
    pose proof (checkin_exec _ _ _ Hex1) as Hck1.
    change (totalPassBoarded (sh init)) with 0 in Hck1.
    unfold hinv in Hh. rewrite Hpc in Hh. lia. }
  pose proof (inv_hostess s HJ) as Hh. unfold hinv in Hh.
  pose proof (ok_boarded s HI) as Hbd.
  pose proof (ok_noexit s HI) as Hnx.
  pose proof (count_nonneg p_exited (passengers s)).
  split; [lia|]. split; [lia|]. split; [|split; [|split; [|split; [|split]]]].
  - destruct (h_pc (hostess s)); simpl in *; lia.
  - intros Hstuck. apply no_deadlock; try assumption.
    apply (slots_ok s tr); assumption.
  - destruct (runs_to_end s HI HJ) as (tr' & s' & Hex' & Hff' & Hend).
    assert (Hex2 : exec init (tr ++ tr') s') by (eapply exec_trans; eauto).
    assert (Hff2 : fault_free (tr ++ tr')) by (apply fault_free_app; assumption).
    assert (Hpc : h_pc (hostess s') = H_done).
    { apply no_deadlock; try assumption.
      - apply (slots_ok s' (tr ++ tr')); assumption.
      - apply (InvOk_exec s' (tr ++ tr')); assumption.
      - apply (Inv_exec (tr ++ tr')); assumption.
      - rewrite (passengers_length _ _ _ Hex2). simpl. apply length_replicate. }
    exists tr', s'. split; [assumption|]. split; [assumption|]. split; [assumption|].
    apply (Hdone _ _ Hex2 Hff2 Hpc).
  - intros Hpc. apply (Hdone _ _ Hex Hff Hpc).
  - intros Hsrf. destruct (h_pc (hostess s)); simpl in *; try discriminate; lia.
  - intros Hnp. destruct (h_pc (hostess s)); simpl in *; auto; lia.
Qed.
Lemma count_le_length {A} (f : A -> bool) (l : list A) :
  count f l <= Z.of_nat (length l).
Proof. induction l as [|y l IH]; simpl; [lia|]. destruct (f y); lia. Qed.

(** The counters of the shared region and the hostess's own count stay
    between zero and [N] (the flight number below [N + 2]) when no semaphore
    call fails: with [N] within the range of [int] the C arithmetic never
    overflows. *)
Lemma counters_in_range (tr : list event) (s : system) :
  0 <= N -> exec init tr s -> fault_free tr ->
  0 <= nPassInQueue (sh s) <= N
  /\ 0 <= nPassInFlight (sh s) <= N
  /\ 0 <= totalPassBoarded (sh s) <= N
  /\ 0 <= nFlight (sh s) <= N + 1
  /\ 0 <= nPassengers (hostess s) <= N.
Proof.
  intros HN Hex Hff.
  pose proof (InvOk_exec s tr Hex Hff)
    as [Hnn Hmx Hnx Hq Hsv Hsh Hab Hph Hc Hb Hpl Hsl Hiq].
  pose proof (Inv_exec tr s HN Hex) as [_ Hlen Hst _ Hh].
  assert (HlenN : Z.of_nat (length (passengers s)) = N).
  { rewrite (passengers_length _ _ _ Hex). simpl. rewrite length_replicate. lia. }
  pose proof (count_le_length p_enqueued (passengers s)).
  pose proof (count_le_length p_waiting (passengers s)).
  pose proof (count_le_length p_leaving (passengers s)).
  pose proof (count_le_length p_served (passengers s)).
  pose proof (count_nonneg p_showing (passengers s)).
  pose proof (count_nonneg p_exited (passengers s)).
  assert (count p_served (passengers s) <= count p_enqueued (passengers s))
    by (apply count_le; intros []; simpl; congruence).
  assert (count p_waiting (passengers s) + count p_leaving (passengers s)
          <= count p_served (passengers s)).
  { clear. induction (passengers s) as [|pc ps IH]; simpl; [lia|].
    destruct pc; simpl; lia. }
  sem_facts Hnn. unfold hinv, pilot_inv in *.
  destruct (hostess s) as [hc np la lp]. simpl in *.
  assert (Hf : nFlight (sh s) <= totalPassBoarded (sh s) + 1).
  { destruct (pl_pc (pilot s)); simpl in *; try lia.
    destruct hc; simpl in *; lia. }
  destruct hc; simpl in *; lia.
Qed.

(** C9.  The status of every passenger starts unstarted; a transition of the
    system leaves it unchanged or, when that passenger moves, advances it to
    the very next status (IN_QUEUE, then IN_FLIGHT, then AT_DESTINATION:
    nothing skipped); along any further execution it never goes back, so no
    status is held twice; a passenger that has returned from
    [waitUntilDestination] is at destination; and when no semaphore call
    fails every execution that has come to its end has the passenger at
    destination, and the system can always run to its end. *)
Theorem C9_status_order (tr : list event) (s : system) (i : nat)
    (HN : 0 <= N) (Hex : exec init tr s) (Hi : (i < length (passengers s))%nat) :
  status init i = Some UNSTARTED
  /\ exists v, status s i = Some v
     /\ (forall a o l s', sys_step a o s = Some (s', l) ->
           exists v', status s' i = Some v'
             /\ (v' = v \/ (a = Passenger i /\ next_stat v = Some v')))
     /\ (forall tr' s', exec s tr' s' ->
           exists v', status s' i = Some v' /\ stat_rank v <= stat_rank v')
     /\ (forall pc, passengers s !! i = Some pc -> stat_at pc = Some v \/ pc = P_exit)
     /\ (passengers s !! i = Some P_done -> v = AT_DESTINATION)
     /\ (fault_free tr -> slots_suffice ->
         (forall tr' s', exec s tr' s' -> fault_free tr' ->
            (forall a, sys_step a Ok s' = None) ->
            status s' i = Some AT_DESTINATION)
         /\ exists tr' s', exec s tr' s' /\ fault_free tr'
              /\ (forall a, sys_step a Ok s' = None)).
Proof.
  pose proof (Inv_exec _ _ HN Hex) as HI.
  assert (Hlen0 : length (passengers s) = Z.to_nat N).
  { rewrite (passengers_length _ _ _ Hex). simpl. apply length_replicate. }
  assert (H0 : status init i = Some UNSTARTED).
  { unfold status. simpl. apply lookup_replicate. split; [reflexivity|].
    rewrite Hlen0 in Hi. exact Hi. }
  split; [exact H0|].
  destruct (lookup_lt_is_Some_2 (passengerStat (st (sh s))) i) as [v Hv].
  { rewrite (inv_len s HI). exact Hi. }
  exists v. split; [exact Hv|]. split; [|split; [|split; [|split]]].
  - intros a o l s' Hstep. exact (status_step s s' a o l i v HI Hstep Hv).
  - intros tr' s' Hex'. exact (status_exec s s' tr' i v HI Hex' Hv).
  - intros pc Hpc. destruct (stat_at pc) as [w|] eqn:Ew.
    + left. pose proof (inv_stat s HI i pc w Hpc Ew) as Hw.
      unfold status in Hv. congruence.
    + right. destruct pc; simpl in Ew; congruence.
  - intros Hpc. pose proof (inv_stat s HI i P_done AT_DESTINATION Hpc eq_refl) as Hw.
    unfold status in Hv. congruence.
  - intros Hff HF. pose proof (InvOk_exec s tr Hex Hff) as HK. split.
    + intros tr' s' Hex' Hff' Hend.
      assert (Hex2 : exec init (tr ++ tr') s') by (eapply exec_trans; eauto).
      assert (HI' : Inv s') by (apply (Inv_exec (tr ++ tr')); assumption).
      assert (Hlen' : length (passengers s') = Z.to_nat N).
      { rewrite (passengers_length _ _ _ Hex2). simpl. apply length_replicate. }
      assert (Hff2 : fault_free (tr ++ tr')) by (apply fault_free_app; assumption).
      destruct (no_deadlock s' HN) as [_ Hall]; try assumption.
      { apply (slots_ok s' (tr ++ tr')); assumption. }
      { apply (InvOk_exec s' (tr ++ tr')); assumption. }
      destruct (lookup_lt_is_Some_2 (passengers s') i) as [pc Hpc]; [lia|].
      rewrite (Hall i pc Hpc) in Hpc.
      exact (inv_stat s' HI' i P_done AT_DESTINATION Hpc eq_refl).
    + apply runs_to_end; assumption.
Qed.

End FaultFree.

(* ===================================================================== *)
(** ** The two programs, transition by transition                         *)
(* ===================================================================== *)

Section Access.
Context {cfg : Config}.

(** X2.  The hostess touches the shared region only between a successful
    [semDown (mutex)] and the [semUp (mutex)] that follows it.  Outside, a
    transition leaves the region as it is and does not depend on what the
    region holds; inside, the only semaphore call is that release; she
    enters a critical section exactly by taking the mutex and leaves it
    exactly by releasing it (or by exiting when the release fails). *)
Theorem hostess_shared_access (o : outcome) (h h' : HLocal) (m m' : FULL_STAT)
    (S S' : SEMS) (l : label)
    (Hstep : hostess_step o h m S = Some (h', m', S', l)) :
  (h_in_cs (h_pc h) = false ->
   m' = m /\ forall m2, hostess_step o h m2 S = Some (h', m2, S', l))
  /\ (h_in_cs (h_pc h) = true -> S' = S \/ l = Gate Up mutex)
  /\ (l = Gate Down mutex <->
      h_in_cs (h_pc h) = false /\ h_in_cs (h_pc h') = true)
  /\ (l = Gate Up mutex \/ l = Fatal Up mutex HT_up <->
      h_in_cs (h_pc h) = true /\ h_in_cs (h_pc h') = false).
Proof.
  destruct h as [pc np la lp]. destruct S.
  unfold hostess_step in *. cbn [h_pc] in *.
  destruct pc; unfold h_gate, h_stmt, semCall, semDown, semUp, h_goto in *;
    destruct o; simpl in *; try discriminate;
    split_tests Hstep; try discriminate;
    inversion Hstep; subst; clear Hstep; simpl;
    intuition (try discriminate; try reflexivity; auto).
Qed.

(** X3.  A passenger touches the shared region only between a successful
    [semDown (mutex)] and the [semUp (mutex)] that follows it.  Outside, a
    transition leaves the region as it is and does not depend on what the
    region holds; inside, the only semaphore calls are that release and the
    signal of [planeEmpty]; the passenger enters a critical section exactly
    by taking the mutex and leaves it exactly by releasing it (or by exiting
    when the release or the signal fails). *)
Theorem passenger_shared_access (i : nat) (o : outcome) (pc pc' : ppc)
    (m m' : FULL_STAT) (S S' : SEMS) (l : label)
    (Hstep : passenger_step i o pc m S = Some (pc', m', S', l)) :
  (p_in_cs pc = false ->
   m' = m /\ forall m2, passenger_step i o pc m2 S = Some (pc', m2, S', l))
  /\ (p_in_cs pc = true ->
      S' = S \/ l = Gate Up mutex \/ l = Gate Up planeEmpty)
  /\ (l = Gate Down mutex <-> p_in_cs pc = false /\ p_in_cs pc' = true)
  /\ (l = Gate Up mutex \/ l = Fatal Up mutex PG_up \/ l = Fatal Up planeEmpty PG_up
      <-> p_in_cs pc = true /\ p_in_cs pc' = false).
Proof.
  destruct S.
  destruct pc;
    unfold passenger_step, p_gate, p_gate_untested, p_stmt, p_store_stat,
           semCall, semDown, semUp in *;
    destruct o; simpl in *; try discriminate;
    split_tests Hstep; try discriminate;
    inversion Hstep; subst; clear Hstep; simpl;
    intuition (try discriminate; try reflexivity; auto).
Qed.

(** X4.  Every semaphore call of the hostess is tested.  When one fails she
    reports the message of the operation (down or up, marked HT) and exits;
    the shared region and the semaphores are as they were; the call reported
    is the one that would have been carried out; and she takes no further
    transition. *)
Theorem hostess_failure_fatal (h h' : HLocal) (m m' : FULL_STAT) (S S' : SEMS) (l : label)
    (Hstep : hostess_step Err h m S = Some (h', m', S', l)) :
  h' = h_goto H_exit h /\ m' = m /\ S' = S
  /\ (exists x, l = Fatal Down x HT_down \/ l = Fatal Up x HT_up)
  /\ (forall o m2 S2, hostess_step o h' m2 S2 = None)
  /\ (forall h2 m2 S2 l2, hostess_step Ok h m S = Some (h2, m2, S2, l2) ->
        exists op x, l2 = Gate op x /\ exists msg, l = Fatal op x msg).
Proof.
  destruct h as [pc np la lp]. destruct S.
  unfold hostess_step in *. cbn [h_pc] in *.
  destruct pc; unfold h_gate, h_stmt, semCall, semDown, semUp, h_goto in *;
    simpl in *; try discriminate;
    split_tests Hstep; try discriminate;
    inversion Hstep; subst; clear Hstep; simpl;
    (repeat split; eauto;
     intros h2 m2 S2 l2 Hx; split_tests Hx; try discriminate;
     inversion Hx; subst; eauto 6).
Qed.

(** X5.  A failed semaphore call of a passenger changes neither the shared
    region nor the semaphores.  Every call but the first of
    [waitUntilDestination] is tested: its failure ends the process with the
    message of the operation (down or up, marked PG), and the process takes
    no further transition. *)
Theorem passenger_failure_fatal (i : nat) (pc pc' : ppc) (m m' : FULL_STAT)
    (S S' : SEMS) (l : label)
    (Hstep : passenger_step i Err pc m S = Some (pc', m', S', l)) :
  m' = m /\ S' = S
  /\ (pc <> P_wd_wait ->
      pc' = P_exit
      /\ (exists x, l = Fatal Down x PG_down \/ l = Fatal Up x PG_up)
      /\ forall o m2 S2, passenger_step i o pc' m2 S2 = None)
  /\ (forall pc2 m2 S2 l2, passenger_step i Ok pc m S = Some (pc2, m2, S2, l2) ->
        exists op x, l2 = Gate op x
          /\ (l = Ignored op x \/ exists msg, l = Fatal op x msg)).
Proof.
  destruct S.
  destruct pc;
    unfold passenger_step, p_gate, p_gate_untested, p_stmt, p_store_stat,
           semCall, semDown, semUp in *;
    simpl in *; try discriminate;
    split_tests Hstep; try discriminate;
    inversion Hstep; subst; clear Hstep; simpl;
    (repeat split; try congruence; eauto;
     intros pc2 m2 S2 l2 Hx; split_tests Hx; try discriminate;
     inversion Hx; subst; eauto 8).
Qed.

(** X16.  What the hostess never writes: the passengers' statuses, the flight
    number and [passengerChecked] are left alone by every transition;
    [finished] is never reset; [totalPassBoarded] changes only by the
    increment of a check-in, which comes with the passenger-checked log
    entry; and of the array of headcounts only the slot [nFlight - 1] can
    change. *)
Theorem hostess_frame (o : outcome) (h h' : HLocal) (m m' : FULL_STAT)
    (S S' : SEMS) (l : label)
    (Hstep : hostess_step o h m S = Some (h', m', S', l)) :
  passengerStat (st m') = passengerStat (st m)
  /\ nFlight m' = nFlight m
  /\ passengerChecked m' = passengerChecked m
  /\ (finished m = true -> finished m' = true)
  /\ (totalPassBoarded m' = totalPassBoarded m
      \/ (totalPassBoarded m' = totalPassBoarded m + 1
          /\ l = Stmt [savePassengerChecked; saveState]))
  /\ length (nPassengersInFlight m') = length (nPassengersInFlight m)
  /\ (forall k : nat, Z.of_nat k <> nFlight m - 1 ->
        nPassengersInFlight m' !! k = nPassengersInFlight m !! k).
Proof.
  destruct h as [pc np la lp]. destruct S.
  unfold hostess_step in *. cbn [h_pc] in *.
  destruct pc; unfold h_gate, h_stmt, semCall, semDown, semUp, h_goto in *;
    destruct o; simpl in *; try discriminate;
    split_tests Hstep; try discriminate;
    inversion Hstep; subst; clear Hstep; simpl;
    try match goal with
        | H : array_store _ _ _ = Some _ |- _ => apply array_store_inv in H as [? ->]
        end;
    repeat split; auto; try (rewrite length_insert; reflexivity);
    intros k Hk; apply list_lookup_insert_ne; lia.
Qed.

(** X17.  What a passenger never writes: the hostess's status,
    [totalPassBoarded], the flight number, the array of headcounts and
    [finished] are left alone by every transition; of the statuses only the
    passenger's own slot can change; and [passengerChecked] is left alone or
    set to the passenger's own identifier. *)
Theorem passenger_frame (i : nat) (o : outcome) (pc pc' : ppc)
    (m m' : FULL_STAT) (S S' : SEMS) (l : label)
    (Hstep : passenger_step i o pc m S = Some (pc', m', S', l)) :
  hostessStat (st m') = hostessStat (st m)
  /\ totalPassBoarded m' = totalPassBoarded m
  /\ nFlight m' = nFlight m
  /\ nPassengersInFlight m' = nPassengersInFlight m
  /\ finished m' = finished m
  /\ length (passengerStat (st m')) = length (passengerStat (st m))
  /\ (forall j : nat, j <> i ->
        passengerStat (st m') !! j = passengerStat (st m) !! j)
  /\ (passengerChecked m' = passengerChecked m
      \/ passengerChecked m' = Z.of_nat i).
Proof.
  destruct S.
  destruct pc;
    unfold passenger_step, p_gate, p_gate_untested, p_stmt, p_store_stat,
           semCall, semDown, semUp in *;
    destruct o; simpl in *; try discriminate;
    split_tests Hstep; try discriminate;
    inversion Hstep; subst; clear Hstep; simpl;
    try match goal with
        | H : array_store _ _ _ = Some _ |- _ => apply array_store_nat in H as [-> ?]
        end;
    repeat split; auto; try (rewrite length_insert; reflexivity);
    intros j Hj; apply list_lookup_insert_ne; congruence.
Qed.

(** X7.  The published state of the hostess.  Every transition of hers keeps
    [hostessStat] in agreement with her program point: [WAIT_FOR_FLIGHT]
    when she waits for boarding to open, [WAIT_FOR_PASSENGER] when she waits
    for a passenger, [CHECK_PASSPORT] when she waits for the identifier,
    [READY_TO_FLIGHT] when she signals the pilot.  The state changes only by
    a statement that is followed by [saveState], and only along
    WAIT_FOR_FLIGHT, WAIT_FOR_PASSENGER, CHECK_PASSPORT, then
    WAIT_FOR_PASSENGER again or READY_TO_FLIGHT, then WAIT_FOR_FLIGHT. *)
Theorem hostess_state_machine (o : outcome) (h h' : HLocal) (m m' : FULL_STAT)
    (S S' : SEMS) (l : label)
    (Hok : hstat_ok (h_pc h) (hostessStat (st m)) = true)
    (Hstep : hostess_step o h m S = Some (h', m', S', l)) :
  hstat_ok (h_pc h') (hostessStat (st m')) = true
  /\ (hostessStat (st m') = hostessStat (st m)
      \/ (l = Stmt [saveState]
          /\ hstat_next (hostessStat (st m)) (hostessStat (st m')) = true))
  /\ (h_pc h' = H_wnf_wait -> hostessStat (st m') = WAIT_FOR_FLIGHT)
  /\ (h_pc h' = H_wfp_wait -> hostessStat (st m') = WAIT_FOR_PASSENGER)
  /\ (h_pc h' = H_cp_wait -> hostessStat (st m') = CHECK_PASSPORT)
  /\ (h_pc h' = H_srf_signal -> hostessStat (st m') = READY_TO_FLIGHT).
Proof.
  destruct h as [pc np la lp]. destruct S.
  destruct m as [[hs pst] q f t nf arr fin chk].
  unfold hostess_step in *. cbn [h_pc] in *. simpl in Hok.
  destruct pc; unfold h_gate, h_stmt, semCall, semDown, semUp, h_goto in *;
    destruct o; simpl in *; try discriminate;
    split_tests Hstep; try discriminate;
    inversion Hstep; subst; clear Hstep; simpl;
    destruct hs; try discriminate Hok;
    repeat split; auto; intros; discriminate.
Qed.

(** X21.  [waitUntilDestination], for a passenger whose identifier is within
    the array of statuses and with the mutex free.  The passenger is blocked
    while [passengersWaitInFlight] is zero.  Released, it takes the mutex,
    stores [AT_DESTINATION], leaves the count [nPassInFlight], signals
    [planeEmpty] exactly when the count has reached zero, and releases the
    mutex; no call of [saveState] is made on the way. *)
Theorem waitUntilDestination_effect (i : nat) (m : FULL_STAT) (S : SEMS)
    (Hfree : 0 < semval S mutex)
    (Hid : (i < length (passengerStat (st m)))%nat) :
  let m' := set_nPassInFlight (nPassInFlight m - 1)
              (set_passengerStat (<[i := AT_DESTINATION]> (passengerStat (st m))) m) in
  let S1 := semset S passengersWaitInFlight (semval S passengersWaitInFlight - 1) in
  (semval S passengersWaitInFlight <= 0 -> passenger_step i Ok P_wd_wait m S = None)
  /\ (0 < semval S passengersWaitInFlight ->
      passenger_run 5 i P_wd_wait m S
      = Some (if nPassInFlight m - 1 =? 0 then P_wd_signal else P_wd_unlock,
              m', semset S1 mutex (semval S mutex - 1),
              [Gate Down passengersWaitInFlight; Gate Down mutex;
               Stmt []; Stmt []; Stmt []])
      /\ (nPassInFlight m - 1 = 0 ->
          passenger_run 7 i P_wd_wait m S
          = Some (P_done, m', semset S1 planeEmpty (semval S planeEmpty + 1),
                  [Gate Down passengersWaitInFlight; Gate Down mutex;
                   Stmt []; Stmt []; Stmt []; Gate Up planeEmpty; Gate Up mutex]))
      /\ (nPassInFlight m - 1 <> 0 ->
          passenger_run 6 i P_wd_wait m S
          = Some (P_done, m', S1,
                  [Gate Down passengersWaitInFlight; Gate Down mutex;
                   Stmt []; Stmt []; Stmt []; Gate Up mutex]))).
Proof.
  intros m' S1. subst m' S1.
  assert (Hst : array_store (passengerStat (st m)) (Z.of_nat i) AT_DESTINATION
                = Some (<[i := AT_DESTINATION]> (passengerStat (st m)))).
  { rewrite array_store_Some by lia. rewrite Nat2Z.id. reflexivity. }
  destruct S as [mx piq pwq ids rfb rtf pwf pe]. simpl in Hfree.
  apply Z.ltb_lt in Hfree.
  split.
  - intros Hz. simpl in Hz. cbn [passenger_step].
    unfold p_gate_untested, semCall, semDown. cbn [semval v_passengersWaitInFlight].
    destruct (Z.ltb_spec 0 pwf); [lia|reflexivity].
  - intros Hp. simpl in Hp. apply Z.ltb_lt in Hp.
    assert (Hrun : forall n,
      passenger_run (5 + n) i P_wd_wait m
        {| v_mutex := mx; v_passengersInQueue := piq; v_passengersWaitInQueue := pwq;
           v_idShown := ids; v_readyForBoarding := rfb; v_readyToFlight := rtf;
           v_passengersWaitInFlight := pwf; v_planeEmpty := pe |}
      = match passenger_run n i
                (if nPassInFlight m - 1 =? 0 then P_wd_signal else P_wd_unlock)
                (set_nPassInFlight (nPassInFlight m - 1)
                   (set_passengerStat (<[i := AT_DESTINATION]> (passengerStat (st m))) m))
                {| v_mutex := mx - 1; v_passengersInQueue := piq;
                   v_passengersWaitInQueue := pwq; v_idShown := ids;
                   v_readyForBoarding := rfb; v_readyToFlight := rtf;
                   v_passengersWaitInFlight := pwf - 1; v_planeEmpty := pe |} with
        | Some (pc2, m2, S2, ls) =>
            Some (pc2, m2, S2,
                  Gate Down passengersWaitInFlight :: Gate Down mutex
                  :: Stmt [] :: Stmt [] :: Stmt [] :: ls)
        | None => None
        end).
    { intros n. cbn [Nat.add passenger_run passenger_step].
      unfold p_gate_untested at 1, semCall, semDown.
      cbn [semval semset v_passengersWaitInFlight]. rewrite Hp.
      cbn [passenger_step]. unfold p_gate at 1, semCall, semDown.
      cbn [semval semset v_mutex]. rewrite Hfree.
      cbn [passenger_step]. unfold p_store_stat at 1. rewrite Hst.
      unfold p_stmt at 1. cbn [passenger_step]. unfold p_stmt at 1.
      cbn [passenger_step]. unfold p_stmt at 1.
      cbn [nPassInFlight set_nPassInFlight].
      destruct (passenger_run n i _ _ _) as [[[[pc2 m2] S2] ls]|]; reflexivity. }
    split; [|split].
    + pose proof (Hrun 0%nat) as H0. cbn [Nat.add] in H0. rewrite H0. reflexivity.
    + intros Hz. pose proof (Hrun 2%nat) as H0. cbn [Nat.add] in H0. rewrite H0.
      apply Z.eqb_eq in Hz. rewrite Hz.
      simpl. replace (mx - 1 + 1) with mx by lia. reflexivity.
    + intros Hz. pose proof (Hrun 1%nat) as H0. cbn [Nat.add] in H0. rewrite H0.
      apply Z.eqb_neq in Hz. rewrite Hz.
      simpl. replace (mx - 1 + 1) with mx by lia. reflexivity.
Qed.

(** X18.  [waitInQueue], for a passenger whose identifier is within the
    array of statuses and with the mutex free.  The passenger first joins the
    queue: one more in [nPassInQueue], status [IN_QUEUE] saved, mutex
    released, then one signal of [passengersInQueue].  It then blocks for as
    long as [passengersWaitInQueue] is zero.  Once called it writes its
    identifier to [passengerChecked], takes status [IN_FLIGHT], saves,
    releases the mutex and signals [idShown]. *)
Theorem waitInQueue_effect (i : nat) (m : FULL_STAT) (S : SEMS)
    (Hfree : 0 < semval S mutex)
    (Hid : (i < length (passengerStat (st m)))%nat) :
  let m1 := set_passengerStat (<[i := IN_QUEUE]> (passengerStat (st m)))
              (set_nPassInQueue (nPassInQueue m + 1) m) in
  let S1 := semset S passengersInQueue (semval S passengersInQueue + 1) in
  let m2 := set_passengerStat (<[i := IN_FLIGHT]> (passengerStat (st m1)))
              (set_passengerChecked (Z.of_nat i) m1) in
  let S2 := semset (semset S1 passengersWaitInQueue
                      (semval S passengersWaitInQueue - 1))
                   idShown (semval S idShown + 1) in
  passenger_run 5 i P_wq_lock1 m S
  = Some (P_wq_wait, m1, S1,
          [Gate Down mutex; Stmt []; Stmt [saveState]; Gate Up mutex;
           Gate Up passengersInQueue])
  /\ (semval S passengersWaitInQueue <= 0 ->
      passenger_step i Ok P_wq_wait m1 S1 = None)
  /\ (0 < semval S passengersWaitInQueue ->
      passenger_run 6 i P_wq_wait m1 S1
      = Some (P_wd_wait, m2, S2,
              [Gate Down passengersWaitInQueue; Gate Down mutex; Stmt [];
               Stmt [saveState]; Gate Up mutex; Gate Up idShown])).
Proof.
  intros m1 S1 m2 S2. subst m1 S1 m2 S2.
  assert (Hst : forall (a : list PassengerState) v, length a = length (passengerStat (st m)) ->
            array_store a (Z.of_nat i) v = Some (<[i := v]> a)).
  { intros a v Ha. rewrite array_store_Some by lia. rewrite Nat2Z.id. reflexivity. }
  destruct S as [mx piq pwq ids rfb rtf pwf pe]. simpl in Hfree.
  apply Z.ltb_lt in Hfree.
  split; [|split].
  - cbn [passenger_run passenger_step]. unfold p_gate at 1, semCall, semDown.
    cbn [semval v_mutex]. rewrite Hfree. simpl.
    unfold p_store_stat. simpl. rewrite Hst by reflexivity. simpl.
    replace (mx - 1 + 1) with mx by lia. reflexivity.
  - intros Hz. simpl in Hz.
    cbn [passenger_step]. unfold p_gate, semCall, semDown.
    cbn [semval semset v_passengersWaitInQueue].
    destruct (Z.ltb_spec 0 pwq); [lia|reflexivity].
  - intros Hp. simpl in Hp. apply Z.ltb_lt in Hp.
    cbn [passenger_run passenger_step]. unfold p_gate at 1, semCall, semDown.
    cbn [semval semset v_passengersWaitInQueue v_passengersInQueue]. rewrite Hp.
    cbn [passenger_step]. unfold p_gate at 1, semCall, semDown.
    cbn [semval semset v_mutex]. rewrite Hfree. simpl.
    unfold p_store_stat. simpl. rewrite Hst by apply length_insert. simpl.
    replace (mx - 1 + 1) with mx by lia. reflexivity.
Qed.

(** X19.  [waitForNextFlight] and [waitForPassenger], with the mutex free:
    the hostess publishes [WAIT_FOR_FLIGHT] (resp. [WAIT_FOR_PASSENGER]) with
    one [saveState] under the mutex, releases the mutex, and only then waits
    on [readyForBoarding] (resp. [passengersInQueue]): she is blocked while
    that semaphore is zero, and takes one unit of it otherwise. *)
Theorem hostess_waits (np : Z) (la lp : bool) (m : FULL_STAT) (S : SEMS)
    (Hfree : 0 < semval S mutex) :
  hostess_run 3 (mkHLocal H_wnf_lock np la lp) m S
  = Some (mkHLocal H_wnf_wait np la lp, set_hostessStat WAIT_FOR_FLIGHT m, S,
          [Gate Down mutex; Stmt [saveState]; Gate Up mutex])
  /\ hostess_run 3 (mkHLocal H_wfp_lock np la lp) m S
     = Some (mkHLocal H_wfp_wait np la lp, set_hostessStat WAIT_FOR_PASSENGER m, S,
             [Gate Down mutex; Stmt [saveState]; Gate Up mutex])
  /\ (forall m', hostess_step Ok (mkHLocal H_wnf_wait np la lp) m' S
        = if 0 <? semval S readyForBoarding
          then Some (mkHLocal H_wfp_lock np la lp, m',
                     semset S readyForBoarding (semval S readyForBoarding - 1),
                     Gate Down readyForBoarding)
          else None)
  /\ (forall m', hostess_step Ok (mkHLocal H_wfp_wait np la lp) m' S
        = if 0 <? semval S passengersInQueue
          then Some (mkHLocal H_cp_serve np la lp, m',
                     semset S passengersInQueue (semval S passengersInQueue - 1),
                     Gate Down passengersInQueue)
          else None).
Proof.
  destruct S as [mx piq pwq ids rfb rtf pwf pe]. simpl in Hfree.
  apply Z.ltb_lt in Hfree.
  cbn [hostess_run]. unfold hostess_step, h_gate, semCall, semDown.
  cbn [h_pc semval v_mutex v_readyForBoarding v_passengersInQueue].
  rewrite Hfree. clear Hfree. simpl. replace (mx - 1 + 1) with mx by lia.
  repeat split; intros;
    match goal with |- context [0 <? ?v] => destruct (0 <? v) end; reflexivity.
Qed.

End Access.

(* ===================================================================== *)
(** ** Start-up of a passenger                                            *)
(* ===================================================================== *)

Section Startup.
Context {cfg : Config}.

Lemma to_unsigned_range (z : Z) : 0 <= to_unsigned z < 2 ^ 32.
Proof. unfold to_unsigned. apply Z.mod_pos_bound. lia. Qed.

Lemma to_int_small (z : Z) : 0 <= z < 2 ^ 31 -> to_int z = z.
Proof.
  intros Hz. unfold to_int. rewrite Z.mod_small by lia. lia.
Qed.

Lemma to_int_large (z : Z) : 2 ^ 31 <= z < 2 ^ 32 -> to_int z = z - 2 ^ 32.
Proof.
  intros Hz. unfold to_int.
  replace (z + 2 ^ 31) with ((z - 2 ^ 31) + 1 * 2 ^ 32) by lia.
  rewrite Z.mod_add by lia. rewrite Z.mod_small by lia. lia.
Qed.

(** The round trip from [unsigned int] to [int] and back gives the same 32
    bits. *)
Lemma to_unsigned_to_int (z : Z) :
  0 <= z < 2 ^ 32 -> to_unsigned (to_int z) = z.
Proof.
  intros Hz. unfold to_unsigned.
  destruct (Z_lt_le_dec z (2 ^ 31)).
  - rewrite to_int_small by lia. apply Z.mod_small. lia.
  - rewrite to_int_large by lia.
    replace (z - 2 ^ 32) with (z + (-1) * 2 ^ 32) by lia.
    rewrite Z.mod_add by lia. apply Z.mod_small. lia.
Qed.

(** X20.  The identifier a passenger process runs with.  [main] takes the
    number read by [strtol] through [unsigned int] into the [int] [n] and
    refuses it when [n >= N]; the life cycle then runs with [n] as an
    [unsigned int].  So an accepted identifier is the number read modulo
    2^32, and it is either below [N] or at least 2^31: a number whose 32-bit
    pattern is negative as an [int] passes the test, and the first store
    into the array of statuses is then outside the array. *)
Theorem passenger_id_accepted (argc : Z) (id : strtol_result) (name_len : Z)
    (key : strtol_result) (c1 c2 c3 pid : Z)
    (HN : 0 <= N <= 2 ^ 31)
    (Hs : passenger_main argc id name_len key c1 c2 c3 = Some (Started pid)) :
  pid = number id mod 2 ^ 32
  /\ rest_empty id = true
  /\ to_int pid < N
  /\ (0 <= pid < N \/ 2 ^ 31 <= pid < 2 ^ 32)
  /\ (pid < N <-> 0 <= to_int pid)
  /\ forall (m : FULL_STAT) (S : SEMS),
       Z.of_nat (length (passengerStat (st m))) = N ->
       (passenger_step (Z.to_nat pid) Ok P_wq_stat1 m S <> None <-> pid < N).
Proof.
  unfold passenger_main in Hs.
  destruct (argc =? 5); simpl in Hs; [|discriminate].
  destruct (rest_empty id); simpl in Hs; [|discriminate].
  destruct (Z.leb_spec N (to_int (to_unsigned (number id)))) as [|Hlt]; [discriminate|].
  destruct (51 <=? name_len); [discriminate|].
  destruct (rest_empty key); simpl in Hs; [|discriminate].
  destruct (c1 =? -1); [discriminate|].
  destruct (c2 =? -1); [discriminate|].
  destruct (c3 =? -1); [discriminate|].
  inversion Hs as [Hp]; clear Hs.
  pose proof (to_unsigned_range (number id)) as Hr.
  rewrite to_unsigned_to_int in * by assumption.
  unfold to_unsigned in *. set (u := number id mod 2 ^ 32) in *.
  split; [reflexivity|]. split; [reflexivity|]. split; [assumption|].
  assert (Hcase : (0 <= u < N /\ to_int u = u) \/ (2 ^ 31 <= u < 2 ^ 32 /\ to_int u < 0)).
  { destruct (Z_lt_le_dec u (2 ^ 31)).
    - left. rewrite to_int_small in * by lia. lia.
    - right. rewrite to_int_large by lia. lia. }
  split; [tauto|]. split; [lia|].
  intros m S Hlen. cbn [passenger_step]. unfold p_store_stat, array_store.
  rewrite Z2Nat.id by lia.
  destruct (Z.leb_spec 0 u); [|lia].
  destruct (Z.ltb_spec u (Z.of_nat (length (passengerStat (st m))))); simpl.
  - split; [lia|]. intros _. discriminate.
  - split; [congruence|lia].
Qed.

End Startup.

(* ===================================================================== *)
(** ** The mutex and the published state, in every execution             *)
(* ===================================================================== *)

Section Exclusion.
Context {cfg : Config}.

(** The number of processes inside a critical section is not negative. *)
Lemma holders_nonneg (s : system) : 0 <= holders s.
Proof.
  unfold holders. pose proof (count_nonneg p_in_cs (passengers s)).
  destruct (h_in_cs _), (pl_in_cs _); simpl; lia.
Qed.

(** A transition that changes the shared region is taken inside a critical
    section. *)
Lemma write_in_cs (s s' : system) (a : actor) (o : outcome) (l : label) :
  sys_step a o s = Some (s', l) -> sh s' <> sh s -> in_cs a s = true.
Proof.
  intros Hstep Hne. destruct s as [m S h ps pl].
  destruct a as [|i|]; cbn [sys_step sh gates hostess passengers pilot in_cs] in *.
  - destruct (hostess_step o h m S) as [[[[h' m'] S'] l']|] eqn:E; [|discriminate].
    inversion Hstep; subst; clear Hstep. simpl in Hne.
    destruct (h_in_cs (h_pc h)) eqn:Hc; [reflexivity|].
    destruct h as [pc np la lp]. destruct S.
    unfold hostess_step in E. cbn [h_pc] in *.
    destruct pc; try discriminate Hc;
      unfold h_gate, h_stmt, semCall, semDown, semUp, h_goto in E;
      destruct o; simpl in E; try discriminate;
      split_tests E; try discriminate; inversion E; subst; congruence.
  - destruct (ps !! i) as [pc|] eqn:Hi; [|discriminate].
    destruct (passenger_step i o pc m S) as [[[[pc' m'] S'] l']|] eqn:E; [|discriminate].
    inversion Hstep; subst; clear Hstep. simpl in Hne.
    destruct (p_in_cs pc) eqn:Hc; [reflexivity|]. destruct S.
    destruct pc; try discriminate Hc;
      unfold passenger_step, p_gate, p_gate_untested, p_stmt, p_store_stat,
             semCall, semDown, semUp in E;
      destruct o; simpl in E; try discriminate;
      split_tests E; try discriminate; inversion E; subst; congruence.
  - destruct o; [|discriminate].
    destruct (pilot_step pl m S) as [[[[p' m'] S'] l']|] eqn:E; [|discriminate].
    inversion Hstep; subst; clear Hstep. simpl in Hne.
    destruct pl as [pc k]. destruct S.
    unfold pilot_step in E. cbn [pl_pc] in *.
    destruct pc; unfold pl_gate, semCall, semDown, semUp in E; simpl in E;
      split_tests E; try discriminate; inversion E; subst; first [reflexivity|congruence].
Qed.

(** A process inside a critical section counts among the holders. *)
Lemma in_cs_holders (s : system) (a : actor) :
  in_cs a s = true -> 1 <= holders s.
Proof.
  unfold holders, in_cs.
  pose proof (count_nonneg p_in_cs (passengers s)).
  pose proof (b2z_range (h_in_cs (h_pc (hostess s)))).
  pose proof (b2z_range (pl_in_cs (pl_pc (pilot s)))).
  destruct a as [|i|].
  - intros ->. simpl. lia.
  - destruct (passengers s !! i) as [pc|] eqn:Hi; [|discriminate].
    intros Hc. pose proof (count_ge_lookup p_in_cs _ _ _ Hi). rewrite Hc in *.
    simpl in *. lia.
  - intros ->. simpl. lia.
Qed.

(** The discipline of the mutex: it is never negative, and it is zero while
    a process is inside a critical section.  Every transition keeps it. *)
Lemma mutex_step (s s' : system) (a : actor) (o : outcome) (l : label) :
  0 <= semval (gates s) mutex /\ semval (gates s) mutex + holders s <= 1 ->
  sys_step a o s = Some (s', l) ->
  0 <= semval (gates s') mutex /\ semval (gates s') mutex + holders s' <= 1.
Proof.
  intros [H0 H1] Hstep. destruct s as [m S h ps pl]. unfold holders in *.
  destruct a as [|i|]; cbn [sys_step sh gates hostess passengers pilot] in *.
  - destruct (hostess_step o h m S) as [[[[h' m'] S'] l']|] eqn:E; [|discriminate].
    inversion Hstep; subst; clear Hstep.
    destruct h as [pc np la lp]. destruct S.
    unfold hostess_step in E. cbn [h_pc] in *.
    destruct pc; unfold h_gate, h_stmt, semCall, semDown, semUp, h_goto in E;
      destruct o; simpl in E; try discriminate;
      split_tests E; try discriminate; inversion E; subst; clear E;
      zify_tests; simpl in *; lia.
  - destruct (ps !! i) as [pc|] eqn:Hi; [|discriminate].
    destruct (passenger_step i o pc m S) as [[[[pc' m'] S'] l']|] eqn:E; [|discriminate].
    inversion Hstep; subst; clear Hstep. destruct S.
    destruct pc;
      unfold passenger_step, p_gate, p_gate_untested, p_stmt, p_store_stat,
             semCall, semDown, semUp in E;
      destruct o; simpl in E; try discriminate;
      split_tests E; try discriminate; inversion E; subst; clear E;
      zify_tests; simpl in *; rewrite (count_insert _ _ _ _ _ Hi); simpl; lia.
  - destruct o; [|discriminate].
    destruct (pilot_step pl m S) as [[[[p' m'] S'] l']|] eqn:E; [|discriminate].
    inversion Hstep; subst; clear Hstep.
    destruct pl as [pc k]. destruct S.
    unfold pilot_step in E. cbn [pl_pc] in *.
    destruct pc; unfold pl_gate, semCall, semDown, semUp in E; simpl in E;
      split_tests E; try discriminate; inversion E; subst; clear E;
      zify_tests; simpl in *; lia.
Qed.

Lemma mutex_exec (s s' : system) (tr : list event) :
  0 <= semval (gates s) mutex /\ semval (gates s) mutex + holders s <= 1 ->
  exec s tr s' ->
  0 <= semval (gates s') mutex /\ semval (gates s') mutex + holders s' <= 1.
Proof. intros HI Hex. induction Hex; eauto using mutex_step. Qed.

(** X1.  Mutual exclusion, in every execution (failed semaphore calls
    included) from a state where the mutex is not negative and is zero if a
    process is inside a critical section, as when the semaphore set has just
    been created.  The mutex is zero or one; at most one process is inside a
    critical section, and the mutex is zero while one is; and a transition
    that changes the shared region is taken by the process that is inside
    its critical section. *)
Theorem mutual_exclusion_always (tr : list event) (s0 s : system)
    (H0 : 0 <= semval (gates s0) mutex)
    (H1 : semval (gates s0) mutex + holders s0 <= 1)
    (Hex : exec s0 tr s) :
  0 <= semval (gates s) mutex <= 1
  /\ 0 <= holders s <= 1
  /\ (holders s = 1 -> semval (gates s) mutex = 0)
  /\ (forall a b, in_cs a s = true -> in_cs b s = true -> a = b)
  /\ (forall a o s' l, sys_step a o s = Some (s', l) -> sh s' <> sh s ->
        in_cs a s = true /\ semval (gates s) mutex = 0).
Proof.
  destruct (mutex_exec s0 s tr (conj H0 H1) Hex) as [G0 G1].
  clear H0 H1 Hex. rename G0 into H0, G1 into H1.
  pose proof (holders_nonneg s) as Hh.
  split; [lia|]. split; [lia|]. split; [lia|]. split.
  - intros a b Ha Hb. unfold holders in *.
    pose proof (count_nonneg p_in_cs (passengers s)).
    pose proof (b2z_range (h_in_cs (h_pc (hostess s)))).
    pose proof (b2z_range (pl_in_cs (pl_pc (pilot s)))).
    destruct a as [|i|], b as [|j|]; simpl in Ha, Hb; try reflexivity;
      try (destruct (passengers s !! i) as [pi|] eqn:Hi; [|discriminate];
           pose proof (count_ge_lookup p_in_cs _ _ _ Hi));
      try (destruct (passengers s !! j) as [pj|] eqn:Hj; [|discriminate];
           pose proof (count_ge_lookup p_in_cs _ _ _ Hj));
      try (rewrite ?Ha, ?Hb in *; simpl in *; lia).
    destruct (decide (i = j)) as [->|Hne]; [reflexivity|].
    pose proof (count_two p_in_cs _ _ _ _ _ Hne Hi Hj).
    rewrite Ha, Hb in *. simpl in *. lia.
  - intros a o s' l Hstep Hne.
    pose proof (write_in_cs _ _ _ _ _ Hstep Hne) as Hc.
    split; [assumption|]. pose proof (in_cs_holders _ _ Hc). lia.
Qed.

(** Outside the critical sections a transition leaves the mutex and the
    shared region alone, unless it takes the mutex. *)
Lemma lost_step (s s' : system) (a : actor) (o : outcome) (l : label) :
  semval (gates s) mutex = 0 -> holders s = 0 ->
  sys_step a o s = Some (s', l) ->
  sh s' = sh s /\ semval (gates s') mutex = 0 /\ holders s' = 0
  /\ l <> Gate Down mutex /\ l <> Gate Up mutex.
Proof.
  intros Hm Hh Hstep. destruct s as [m S h ps pl].
  unfold holders in *.
  pose proof (count_nonneg p_in_cs ps).
  pose proof (b2z_range (h_in_cs (h_pc h))).
  pose proof (b2z_range (pl_in_cs (pl_pc pl))).
  destruct a as [|i|]; cbn [sys_step sh gates hostess passengers pilot] in *.
  - destruct (hostess_step o h m S) as [[[[h' m'] S'] l']|] eqn:E; [|discriminate].
    inversion Hstep; subst; clear Hstep.
    destruct h as [pc np la lp]. destruct S. simpl in Hm. subst.
    unfold hostess_step in E. cbn [h_pc] in *.
    destruct pc; simpl in Hh; try lia;
      unfold h_gate, h_stmt, semCall, semDown, semUp, h_goto in E;
      destruct o; simpl in E; try discriminate;
      split_tests E; try discriminate; inversion E; subst; simpl;
      repeat split; auto; discriminate.
  - destruct (ps !! i) as [pc|] eqn:Hi; [|discriminate].
    destruct (passenger_step i o pc m S) as [[[[pc' m'] S'] l']|] eqn:E; [|discriminate].
    inversion Hstep; subst; clear Hstep.
    pose proof (count_ge_lookup p_in_cs _ _ _ Hi).
    destruct S. simpl in Hm. subst.
    destruct pc; simpl in *; try lia;
      unfold passenger_step, p_gate, p_gate_untested, p_stmt, p_store_stat,
             semCall, semDown, semUp in E;
      destruct o; simpl in E; try discriminate;
      split_tests E; try discriminate; inversion E; subst; simpl;
      rewrite (count_insert _ _ _ _ _ Hi); simpl; repeat split; auto;
      first [lia | discriminate].
  - destruct o; [|discriminate].
    destruct (pilot_step pl m S) as [[[[p' m'] S'] l']|] eqn:E; [|discriminate].
    inversion Hstep; subst; clear Hstep.
    destruct pl as [pc k]. destruct S. simpl in Hm. subst.
    unfold pilot_step in E. cbn [pl_pc] in *.
    destruct pc; simpl in Hh; try lia;
      unfold pl_gate, semCall, semDown, semUp in E; simpl in E;
      split_tests E; try discriminate; inversion E; subst; simpl;
      repeat split; auto; discriminate.
Qed.

Lemma lost_exec (s s' : system) (tr : list event) :
  semval (gates s) mutex = 0 -> holders s = 0 -> exec s tr s' ->
  sh s' = sh s /\ semval (gates s') mutex = 0 /\ holders s' = 0
  /\ Forall (fun e : event => e.2 <> Gate Down mutex /\ e.2 <> Gate Up mutex) tr.
Proof.
  intros Hm Hh Hex. induction Hex; [auto|].
  destruct IHHex as (E1 & E2 & E3 & E4).
  destruct (lost_step _ _ _ _ _ E2 E3 H) as (F1 & F2 & F3 & F4).
  repeat split; try congruence.
  apply Forall_app. split; [assumption|]. constructor; [exact F4|constructor].
Qed.

(** A failed call inside a critical section: the process exits with the
    mutex taken. *)
Lemma fail_in_cs (s s' : system) (a : actor) (l : label) :
  semval (gates s) mutex = 0 -> holders s = 1 -> in_cs a s = true ->
  sys_step a Err s = Some (s', l) ->
  sh s' = sh s /\ semval (gates s') mutex = 0 /\ holders s' = 0.
Proof.
  intros Hm Hh Hc Hstep. destruct s as [m S h ps pl]. unfold holders in *.
  destruct a as [|i|]; cbn [sys_step sh gates hostess passengers pilot in_cs] in *;
    [| |discriminate].
  - destruct (hostess_step Err h m S) as [[[[h' m'] S'] l']|] eqn:E; [|discriminate].
    inversion Hstep; subst; clear Hstep.
    destruct h as [pc np la lp]. destruct S. simpl in Hm. subst.
    unfold hostess_step in E. cbn [h_pc] in *.
    destruct pc; try discriminate Hc;
      unfold h_gate, h_stmt, semCall, semDown, semUp, h_goto in E;
      simpl in E; try discriminate;
      split_tests E; try discriminate; inversion E; subst; simpl in *;
      repeat split; auto; lia.
  - destruct (ps !! i) as [pc|] eqn:Hi; [|discriminate].
    destruct (passenger_step i Err pc m S) as [[[[pc' m'] S'] l']|] eqn:E; [|discriminate].
    inversion Hstep; subst; clear Hstep.
    destruct S. simpl in Hm. subst.
    destruct pc; try discriminate Hc;
      unfold passenger_step, p_gate, p_gate_untested, p_stmt, p_store_stat,
             semCall, semDown, semUp in E;
      simpl in E; try discriminate;
      split_tests E; try discriminate; inversion E; subst; simpl;
      rewrite (count_insert _ _ _ _ _ Hi); simpl; repeat split; auto; lia.
Qed.

(** X6.  A semaphore call that fails inside a critical section (the release
    of the mutex, or the signal of [planeEmpty]) ends the process with the
    mutex taken.  From then on the mutex stays at zero, no process is ever
    inside a critical section again, no transition takes or releases the
    mutex, and the shared region never changes. *)
Theorem failure_inside_critical_section (tr' : list event) (s s1 s2 : system)
    (a : actor) (l : label)
    (H0 : 0 <= semval (gates s) mutex)
    (H1 : semval (gates s) mutex + holders s <= 1)
    (Hcs : in_cs a s = true)
    (Hfail : sys_step a Err s = Some (s1, l)) (Hex' : exec s1 tr' s2) :
  sh s2 = sh s
  /\ semval (gates s2) mutex = 0
  /\ (forall b, in_cs b s2 = false)
  /\ Forall (fun e : event => e.2 <> Gate Down mutex /\ e.2 <> Gate Up mutex) tr'.
Proof.
  pose proof (in_cs_holders _ _ Hcs) as Hh.
  destruct (fail_in_cs s s1 a l) as (E1 & E2 & E3); [lia|lia|assumption|assumption|].
  destruct (lost_exec _ _ _ E2 E3 Hex') as (F1 & F2 & F3 & F4).
  split; [congruence|]. split; [assumption|]. split; [|assumption].
  intros b. destruct (in_cs b s2) eqn:Hb; [|reflexivity].
  pose proof (in_cs_holders _ _ Hb). lia.
Qed.

(** In every execution the published state of the hostess agrees with her
    program point. *)
Lemma hstat_step (s s' : system) (a : actor) (o : outcome) (l : label) :
  hstat_ok (h_pc (hostess s)) (hostessStat (st (sh s))) = true ->
  sys_step a o s = Some (s', l) ->
  hstat_ok (h_pc (hostess s')) (hostessStat (st (sh s'))) = true
  /\ (hostessStat (st (sh s')) = hostessStat (st (sh s))
      \/ (a = Hostess /\ l = Stmt [saveState]
          /\ hstat_next (hostessStat (st (sh s))) (hostessStat (st (sh s'))) = true)).
Proof.
  intros HI Hstep. destruct s as [m S h ps pl].
  destruct a as [|i|]; cbn [sys_step sh gates hostess passengers pilot] in *.
  - destruct (hostess_step o h m S) as [[[[h' m'] S'] l']|] eqn:E; [|discriminate].
    inversion Hstep; subst; clear Hstep.
    destruct h as [pc np la lp]. destruct S. destruct m as [[hs pst] q f t nf arr fin chk].
    unfold hostess_step in E. cbn [h_pc] in *. simpl in HI.
    destruct pc; unfold h_gate, h_stmt, semCall, semDown, semUp, h_goto in E;
      destruct o; simpl in E; try discriminate;
      split_tests E; try discriminate; inversion E; subst; simpl;
      destruct hs; try discriminate HI; auto.
  - destruct (ps !! i) as [pc|] eqn:Hi; [|discriminate].
    destruct (passenger_step i o pc m S) as [[[[pc' m'] S'] l']|] eqn:E; [|discriminate].
    inversion Hstep; subst; clear Hstep. destruct S.
    destruct pc;
      unfold passenger_step, p_gate, p_gate_untested, p_stmt, p_store_stat,
             semCall, semDown, semUp in E;
      destruct o; simpl in E; try discriminate;
      split_tests E; try discriminate; inversion E; subst; simpl; auto.
  - destruct o; [|discriminate].
    destruct (pilot_step pl m S) as [[[[p' m'] S'] l']|] eqn:E; [|discriminate].
    inversion Hstep; subst; clear Hstep.
    destruct pl as [pc k]. destruct S.
    unfold pilot_step in E. cbn [pl_pc] in *.
    destruct pc; unfold pl_gate, semCall, semDown, semUp in E; simpl in E;
      split_tests E; try discriminate; inversion E; subst; simpl; auto.
Qed.

Lemma hstat_exec (tr : list event) (s : system) :
  exec init tr s ->
  hstat_ok (h_pc (hostess s)) (hostessStat (st (sh s))) = true.
Proof.
  intros Hex. induction Hex; [reflexivity|]. eapply hstat_step; eauto.
Qed.

End Exclusion.

(* ===================================================================== *)
(** ** Boarding, flights and the end of the airlift                       *)
(* ===================================================================== *)

Section Boarding.
Context {cfg : Config}.

(** A passenger past the pilot's gate is leaving, at the test, at the signal,
    or inside its critical section. *)
Lemma count_disembarking (ps : list ppc) :
  count p_disembarking ps
  <= count p_leaving ps + count p_at_test ps + count p_at_signal ps + count p_in_cs ps.
Proof.
  induction ps as [|pc ps IH]; simpl; [lia|]. destruct pc; simpl; lia.
Qed.

Lemma closed_init : closed_inv init.
Proof. intros _. simpl. apply count_replicate. reflexivity. Qed.

(** Every transition keeps [closed_inv]: a passenger passes the pilot's
    gate only on a unit the pilot has released, and the pilot opens the next
    flight only with the mutex, which the last passenger still held. *)
Lemma closed_step (s s' : system) (a : actor) (l : label) :
  InvOk s -> closed_inv s -> sys_step a Ok s = Some (s', l) -> closed_inv s'.
Proof.
  intros [Hnn Hmx Hnx Hq Hsv Hsh Hab Hph Hc Hb Hpl Hsl Hiq] HI Hstep.
  destruct s as [m S h ps pl]. unfold closed_inv in *.
  destruct a as [|i|]; cbn [sys_step sh gates hostess passengers pilot] in *.
  - destruct (hostess_step Ok h m S) as [[[[h' m'] S'] l']|] eqn:E; [|discriminate].
    inversion Hstep; subst; clear Hstep. exact HI.
  - destruct (ps !! i) as [pc|] eqn:Hi; [|discriminate].
    destruct (passenger_step i Ok pc m S) as [[[[pc' m'] S'] l']|] eqn:E; [|discriminate].
    inversion Hstep; subst; clear Hstep. simpl. intros Hcl. specialize (HI Hcl).
    pose proof (count_ge_lookup p_disembarking _ _ _ Hi) as Hge.
    rewrite (count_insert _ _ _ _ _ Hi).
    destruct S. destruct pl as [qc k]. unfold pilot_inv in Hpl. simpl in *.
    destruct pc; simpl in Hge; try lia;
      unfold passenger_step, p_gate, p_gate_untested, p_stmt, p_store_stat,
             semCall, semDown, semUp in E;
      simpl in E; try discriminate;
      split_tests E; try discriminate;
      inversion E; subst; clear E; zify_tests; simpl; try lia.
    destruct qc; try discriminate Hcl; simpl in *; lia.
  - destruct (pilot_step pl m S) as [[[[p' m'] S'] l']|] eqn:E; [|discriminate].
    inversion Hstep; subst; clear Hstep.
    destruct S. destruct pl as [qc k].
    pose proof (count_disembarking ps).
    pose proof (count_nonneg p_disembarking ps).
    pose proof (count_nonneg p_in_cs ps).
    pose proof (b2z_range (h_in_cs (h_pc h))).
    unfold pilot_step in E. cbn [pl_pc] in E.
    destruct qc; unfold pl_gate, semCall, semDown, semUp in E; simpl in E;
      split_tests E; try discriminate;
      inversion E; subst; clear E; zify_tests;
      unfold holders, pilot_inv in *; simpl in *;
      intros Hcl; try discriminate Hcl; try (apply HI; reflexivity).
    lia.
Qed.

Lemma closed_exec (s : system) (tr : list event) :
  exec init tr s -> fault_free tr -> closed_inv s.
Proof.
  intros Hex. induction Hex; intros Hff; [apply closed_init|].
  unfold fault_free in Hff. apply Forall_app in Hff as [Hff1 Hff2].
  apply Forall_cons in Hff2 as [Ho _]. simpl in Ho. subst o.
  eapply closed_step; [|apply IHHex, Hff1|eassumption].
  apply (InvOk_exec s1 tr); assumption.
Qed.

(** X9.  Boarding and disembarking never overlap (no failed semaphore
    call).  While the hostess is between taking [readyForBoarding] and
    signalling [readyToFlight], the pilot waits for that signal, no unit of
    [passengersWaitInFlight] or [planeEmpty] is pending, no passenger is past
    the pilot's gate in [waitUntilDestination], and [nPassInFlight] counts
    the passengers seated and waiting (but for the one being seated). *)
Theorem boarding_excludes_disembarking (tr : list event) (s : system)
    (Hex : exec init tr s) (Hff : fault_free tr)
    (Hb : h_boarding (h_pc (hostess s)) = true) :
  pl_pc (pilot s) = PL_wait_ready
  /\ semval (gates s) passengersWaitInFlight = 0
  /\ semval (gates s) planeEmpty = 0
  /\ (forall i pc, passengers s !! i = Some pc -> p_disembarking pc = false)
  /\ nPassInFlight (sh s) + semval (gates s) idShown
       + b2z (h_admitting (h_pc (hostess s)))
     = count p_waiting (passengers s).
Proof.
  pose proof (InvOk_exec s tr Hex Hff)
    as [Hnn Hmx Hnx Hq Hsv Hsh Hab Hph Hc Hbd Hpl Hsl Hiq].
  pose proof (closed_exec s tr Hex Hff) as Hcl.
  sem_facts Hnn. destruct s as [m S h ps pl]. destruct S, pl as [qc k].
  unfold pilot_inv, closed_inv in *. simpl in *. rewrite Hb in Hph.
  destruct qc; simpl in *; try lia.
  specialize (Hcl eq_refl).
  split; [reflexivity|]. split; [tauto|]. split; [tauto|]. split; [|lia].
  intros i pc Hi. eapply count_zero_lookup; eauto.
Qed.

(** When the decision is to go on boarding the plane is not full. *)
Lemma decision_false_room (m : FULL_STAT) :
  departure_decision m = false -> nPassInFlight m <> MAXFC.
Proof.
  intros Hd Ht. assert (departure_decision m = true); [|congruence].
  apply departure_decision_spec. left. exact Ht.
Qed.

Lemma cap_init : 0 <= MAXFC -> cap_inv init.
Proof.
  intros HM. unfold cap_inv. simpl. repeat split; try lia; try discriminate.
  apply Forall_replicate. lia.
Qed.

(** Every transition keeps [cap_inv]: boarding opens with the plane empty,
    and the hostess goes on boarding only below [MAXFC]. *)
Lemma cap_step (s s' : system) (a : actor) (l : label) :
  1 <= MAXFC ->
  InvOk s -> cap_inv s -> sys_step a Ok s = Some (s', l) -> cap_inv s'.
Proof.
  intros HM [Hnn Hmx Hnx Hq Hsv Hsh Hab Hph Hc Hb Hpl Hsl Hiq] (C1 & C2 & C3 & C4) Hstep.
  destruct s as [m S h ps pl]. unfold cap_inv in *.
  destruct a as [|i|]; cbn [sys_step sh gates hostess passengers pilot] in *.
  - destruct (hostess_step Ok h m S) as [[[[h' m'] S'] l']|] eqn:E; [|discriminate].
    inversion Hstep; subst; clear Hstep.
    destruct h as [pc np la lp]. destruct S. destruct pl as [qc k].
    sem_facts Hnn. clear Hnn.
    unfold hostess_step in E. cbn [h_pc] in E.
    destruct pc; unfold h_gate, h_stmt, semCall, semDown, semUp, h_goto in E;
      simpl in E; try discriminate;
      split_tests E; try discriminate;
      inversion E; subst; clear E; zify_tests;
      try match goal with
          | H : array_store _ _ _ = Some _ |- _ => apply array_store_inv in H as [? ->]
          end;
      unfold pilot_inv in *; simpl in *;
      try match goal with
          | |- context [departure_decision ?x] =>
              pose proof (decision_false_room x)
          end;
      (split; [|split; [|split]];
       [ try lia
       | intros; try discriminate; try lia
       | try exact I; intros; try lia; auto
       | try assumption ]).
    all: try (destruct qc; simpl in *; lia).
    all: try (specialize (C2 eq_refl); lia).
    all: try (apply Forall_insert; [assumption|lia]).
    match goal with
    | H : ?P -> _, H2 : ?P |- _ => specialize (H H2)
    end. lia.
  - destruct (ps !! i) as [pc|] eqn:Hi; [|discriminate].
    destruct (passenger_step i Ok pc m S) as [[[[pc' m'] S'] l']|] eqn:E; [|discriminate].
    inversion Hstep; subst; clear Hstep. destruct S.
    destruct pc;
      unfold passenger_step, p_gate, p_gate_untested, p_stmt, p_store_stat,
             semCall, semDown, semUp in E;
      simpl in E; try discriminate;
      split_tests E; try discriminate;
      inversion E; subst; clear E; simpl in *;
      (split; [lia|split; [intros Hx; specialize (C2 Hx); lia|split; [|assumption]]]);
      destruct (h_pc h); try exact I; intros Hx; specialize (C3 Hx); lia.
  - destruct (pilot_step pl m S) as [[[[p' m'] S'] l']|] eqn:E; [|discriminate].
    inversion Hstep; subst; clear Hstep.
    destruct S. destruct pl as [qc k].
    unfold pilot_step in E. cbn [pl_pc] in E.
    destruct qc; unfold pl_gate, semCall, semDown, semUp in E; simpl in E;
      split_tests E; try discriminate;
      inversion E; subst; clear E; simpl in *; auto.
Qed.

Lemma cap_exec (s : system) (tr : list event) :
  1 <= MAXFC -> exec init tr s -> fault_free tr -> cap_inv s.
Proof.
  intros HM Hex. induction Hex; intros Hff; [apply cap_init; lia|].
  unfold fault_free in Hff. apply Forall_app in Hff as [Hff1 Hff2].
  apply Forall_cons in Hff2 as [Ho _]. simpl in Ho. subst o.
  eapply (cap_step s1 s2 a l HM); [|apply IHHex, Hff1|eassumption].
  apply (InvOk_exec s1 tr); assumption.
Qed.

(** X8.  Capacity (no failed semaphore call, [MAXFC] at least one).  The plane
    never holds more than [MAXFC] passengers, no recorded headcount exceeds
    [MAXFC], and there is a free seat whenever the hostess is about to seat
    a passenger.  Once she has decided that the flight departs, at least one
    passenger is aboard, and, with [MINFC <= MAXFC], at least [MINFC] are
    unless every passenger has boarded. *)
Theorem departure_capacity (tr : list event) (s : system)
    (HN : 0 <= N) (HC : 1 <= MAXFC)
    (Hex : exec init tr s) (Hff : fault_free tr) :
  0 <= nPassInFlight (sh s) <= MAXFC
  /\ Forall (fun v => 0 <= v <= MAXFC) (nPassengersInFlight (sh s))
  /\ (h_seat_free (h_pc (hostess s)) = true -> nPassInFlight (sh s) < MAXFC)
  /\ (departing (hostess s) = true ->
      1 <= nPassInFlight (sh s)
      /\ (MINFC <= MAXFC ->
          MINFC <= nPassInFlight (sh s) \/ totalPassBoarded (sh s) = N)).
Proof.
  pose proof (InvOk_exec s tr Hex Hff)
    as [Hnn Hmx Hnx Hq Hsv Hsh Hab Hph Hc Hbd Hpl Hsl Hiq].
  destruct (cap_exec s tr HC Hex Hff) as (C1 & C2 & C3 & C4).
  split; [lia|]. split; [assumption|]. split; [assumption|].
  intros Hd. split.
  - assert (h_has_boarded (h_pc (hostess s)) = true) as Hx.
    { unfold departing in Hd. destruct (h_pc (hostess s)); try discriminate; reflexivity. }
    rewrite Hx in Hbd. simpl in Hbd. lia.
  - intros HM. pose proof (InvMin_exec s tr HN HM Hex Hff) as [Hm _].
    rewrite Hd in Hm. exact Hm.
Qed.

(** The hostess leaves [passengerChecked] alone, and she comes to log a
    check-in only by taking a unit of [idShown]. *)
Lemma hostess_keeps_checked (h h' : HLocal) (m m' : FULL_STAT) (S S' : SEMS) (l : label) :
  hostess_step Ok h m S = Some (h', m', S', l) ->
  passengerChecked m' = passengerChecked m
  /\ (0 < semval S' idShown \/ h_logging (h_pc h') = true ->
      0 < semval S idShown \/ h_logging (h_pc h) = true).
Proof.
  intros E. destruct h as [pc np la lp]. destruct S.
  unfold hostess_step in E. cbn [h_pc] in E.
  destruct pc; unfold h_gate, h_stmt, semCall, semDown, semUp, h_goto in E;
    simpl in E; try discriminate;
    split_tests E; try discriminate;
    inversion E; subst; clear E; zify_tests; simpl;
    (split; [reflexivity|]); intros [Hx|Hx]; try discriminate Hx; auto; left; lia.
Qed.

Lemma pilot_keeps_checked (p p' : PLocal) (m m' : FULL_STAT) (S S' : SEMS) (l : label) :
  pilot_step p m S = Some (p', m', S', l) ->
  passengerChecked m' = passengerChecked m /\ semval S' idShown = semval S idShown.
Proof.
  intros E. destruct p as [qc k]. destruct S.
  unfold pilot_step in E. cbn [pl_pc] in E.
  destruct qc; unfold pl_gate, semCall, semDown, semUp in E; simpl in E;
    split_tests E; try discriminate;
    inversion E; subst; clear E; simpl; auto.
Qed.

(** At most one passenger is between the queue gate and its signal of
    [idShown]. *)
Lemma showing_one (s : system) (i j : nat) (pi pj : ppc) :
  InvOk s -> passengers s !! i = Some pi -> passengers s !! j = Some pj ->
  p_showing pi = true -> p_showing pj = true -> i = j.
Proof.
  intros [Hnn _ _ _ _ Hsh _ _ _ _ _ _ _] Hi Hj Hpi Hpj.
  destruct (decide (i = j)) as [|Hne]; [assumption|exfalso].
  pose proof (count_two p_showing _ _ _ _ _ Hne Hi Hj) as H2.
  rewrite Hpi, Hpj in H2. simpl in H2.
  pose proof (Hnn passengersWaitInQueue). pose proof (Hnn idShown).
  pose proof (b2z_range (h_expecting (h_pc (hostess s)))). lia.
Qed.

Lemma checked_init : checked_inv init.
Proof.
  split.
  - intros i pc Hi Hs. simpl in Hi. apply lookup_replicate in Hi as [-> _]. discriminate.
  - simpl. intros [Hx|Hx]; [lia|discriminate].
Qed.

(** Every transition keeps [checked_inv]. *)
Lemma checked_step (s s' : system) (a : actor) (l : label) :
  InvOk s -> checked_inv s -> sys_step a Ok s = Some (s', l) -> checked_inv s'.
Proof.
  intros HI [C1 C2] Hstep.
  pose proof HI as [Hnn Hmx Hnx Hq Hsv Hsh Hab Hph Hc Hb Hpl Hsl Hiq].
  destruct s as [m S h ps pl]. unfold checked_inv in *.
  destruct a as [|i|]; cbn [sys_step sh gates hostess passengers pilot] in *.
  - destruct (hostess_step Ok h m S) as [[[[h' m'] S'] l']|] eqn:E; [|discriminate].
    inversion Hstep; subst; clear Hstep.
    destruct (hostess_keeps_checked _ _ _ _ _ _ _ E) as [K1 K2].
    cbn [sh gates hostess passengers pilot] in *. rewrite K1. split; [exact C1|]. intros Hx. apply C2, K2, Hx.
  - destruct (ps !! i) as [pc|] eqn:Hi; [|discriminate].
    destruct (passenger_step i Ok pc m S) as [[[[pc' m'] S'] l']|] eqn:E; [|discriminate].
    inversion Hstep; subst; clear Hstep.
    assert (Hlt : (i < length ps)%nat) by (eapply lookup_lt_Some; eauto).
    pose proof (count_ge_lookup p_showing _ _ _ Hi) as Hgs.
    pose proof (count_ge_lookup p_leaving _ _ _ Hi) as Hgl.
    pose proof (Hnn passengersWaitInQueue). pose proof (Hnn idShown).
    pose proof (Hnn readyForBoarding). pose proof (Hnn readyToFlight).
    pose proof (Hnn passengersWaitInFlight).
    pose proof (b2z_range (h_expecting (h_pc h))).
    assert (Hcase : pc = P_wq_show \/ pc = P_wq_idshown \/ pc = P_wd_wait
                    \/ (pc <> P_wq_show /\ pc <> P_wq_idshown /\ pc <> P_wd_wait)).
    { destruct pc; auto; right; right; right; repeat split; discriminate. }
    destruct Hcase as [->|[->|[->|(Hns & Hni & Hnw)]]].
    { (* the passenger writes its identifier *)
      simpl in E. inversion E; subst; clear E. simpl in *. split.
      - intros j pcj Hj Hs.
        destruct (decide (i = j)) as [->|Hne]; [reflexivity|exfalso].
        rewrite list_lookup_insert_ne in Hj by assumption.
        apply Hne. eapply (showing_one _ i j _ _ HI); simpl; eauto.
        destruct pcj; try discriminate; reflexivity.
      - intros Hx. exfalso.
        destruct (h_pc h); simpl in *; destruct Hx as [Hx|Hx]; try discriminate; lia. }
    { (* the passenger signals [idShown] *)
      simpl in E. inversion E; subst; clear E. simpl in *.
      pose proof (C1 i _ Hi eq_refl) as Ci. split.
      - intros j pcj Hj Hs.
        destruct (decide (i = j)) as [->|Hne].
        + rewrite list_lookup_insert_eq in Hj by assumption. inversion Hj; subst. discriminate.
        + rewrite list_lookup_insert_ne in Hj by assumption. eauto.
      - intros _. exists i. split; [assumption|].
        apply list_lookup_insert_eq. assumption. }
    { (* the passenger is released by the pilot *)
      destruct S. destruct pl as [qc k]. simpl in E.
      unfold p_gate_untested, semCall, semDown in E. simpl in E.
      split_tests E; try discriminate. inversion E; subst; clear E. zify_tests.
      unfold pilot_inv in Hpl. simpl in *. split.
      - intros j pcj Hj Hs.
        destruct (decide (i = j)) as [->|Hne].
        + rewrite list_lookup_insert_eq in Hj by assumption. inversion Hj; subst. discriminate.
        + rewrite list_lookup_insert_ne in Hj by assumption. eauto.
      - intros Hx. exfalso.
        assert (b2z (pl_at_wait_ready qc) = 0) as Hz
          by (destruct qc; simpl in *; lia).
        rewrite Hz in Hph.
        destruct (h_pc h); simpl in *; destruct Hx as [Hx|Hx]; try discriminate; lia. }
    (* any other transition *)
    assert (passengerChecked m' = passengerChecked m
            /\ semval S' idShown = semval S idShown
            /\ (p_shown pc' = true -> p_shown pc = true)) as (K1 & K2 & K3).
    { destruct S.
      destruct pc; try congruence;
        unfold passenger_step, p_gate, p_gate_untested, p_stmt, p_store_stat,
               semCall, semDown, semUp in E;
        simpl in E; try discriminate;
        split_tests E; try discriminate;
        inversion E; subst; clear E; simpl; auto. }
    cbn [sh gates hostess passengers pilot]. rewrite K1, K2. split.
    + intros j pcj Hj Hs.
      destruct (decide (i = j)) as [->|Hne].
      * rewrite list_lookup_insert_eq in Hj by assumption. inversion Hj; subst. eauto.
      * rewrite list_lookup_insert_ne in Hj by assumption. eauto.
    + intros Hx. destruct (C2 Hx) as (i0 & E0 & L0). exists i0. split; [assumption|].
      rewrite list_lookup_insert_ne; [assumption|]. congruence.
  - destruct (pilot_step pl m S) as [[[[p' m'] S'] l']|] eqn:E; [|discriminate].
    inversion Hstep; subst; clear Hstep.
    destruct (pilot_keeps_checked _ _ _ _ _ _ _ E) as [K1 K2].
    cbn [sh gates hostess passengers pilot]. rewrite K1, K2. split; assumption.
Qed.

Lemma checked_exec (s : system) (tr : list event) :
  exec init tr s -> fault_free tr -> checked_inv s.
Proof.
  intros Hex. induction Hex; intros Hff; [apply checked_init|].
  unfold fault_free in Hff. apply Forall_app in Hff as [Hff1 Hff2].
  apply Forall_cons in Hff2 as [Ho _]. simpl in Ho. subst o.
  eapply checked_step; [|apply IHHex, Hff1|eassumption].
  apply (InvOk_exec s1 tr); assumption.
Qed.

(** X10.  The check-in handshake is between the hostess and one passenger at
    a time (no failed semaphore call).  At most one passenger is between the
    queue gate and its signal of [idShown]; from its write until that signal
    [passengerChecked] holds its identifier; and when the hostess logs the
    check-in, [passengerChecked] is the identifier, below [N], of a passenger
    that is seated, waiting for the flight, with status [IN_FLIGHT]. *)
Theorem checked_passenger_identity (tr : list event) (s : system)
    (HN : 0 <= N) (Hex : exec init tr s) (Hff : fault_free tr) :
  (forall i j pi pj, passengers s !! i = Some pi -> passengers s !! j = Some pj ->
     p_showing pi = true -> p_showing pj = true -> i = j)
  /\ (forall i pc, passengers s !! i = Some pc -> p_shown pc = true ->
        passengerChecked (sh s) = Z.of_nat i)
  /\ (forall s' l, sys_step Hostess Ok s = Some (s', l) ->
        l = Stmt [savePassengerChecked; saveState] ->
        exists i : nat,
          passengerChecked (sh s') = Z.of_nat i
          /\ Z.of_nat i < N
          /\ passengers s' !! i = Some P_wd_wait
          /\ status s' i = Some IN_FLIGHT).
Proof.
  pose proof (InvOk_exec s tr Hex Hff) as HI.
  destruct (checked_exec s tr Hex Hff) as [C1 C2].
  split; [intros i j pi pj; apply showing_one; assumption|].
  split; [assumption|].
  intros s' l Hstep ->.
  assert (Hex' : exec init (tr ++ [(Hostess, Ok, Stmt [savePassengerChecked; saveState])]) s')
    by (econstructor; eassumption).
  pose proof (Inv_exec _ s' HN Hex') as [_ Hlen Hst _ _].
  assert (Hpc : h_pc (hostess s) = H_cp_inct
                /\ passengers s' = passengers s
                /\ passengerChecked (sh s') = passengerChecked (sh s)).
  { destruct s as [m S h ps pl]. cbn [sys_step sh gates hostess passengers pilot] in *.
    destruct (hostess_step Ok h m S) as [[[[h' m'] S'] l']|] eqn:E; [|discriminate].
    inversion Hstep; subst; clear Hstep.
    destruct h as [pc np la lp]. destruct S.
    unfold hostess_step in E. cbn [h_pc] in E.
    destruct pc; unfold h_gate, h_stmt, semCall, semDown, semUp, h_goto in E;
      simpl in E; try discriminate;
      split_tests E; try discriminate;
      inversion E; subst; clear E; simpl; auto. }
  destruct Hpc as (Hpc & Eps & Echk).
  destruct C2 as (i & Ei & Li); [right; rewrite Hpc; reflexivity|].
  exists i. rewrite Eps, Echk. split; [assumption|].
  assert (Hlt : (i < length (passengers s))%nat) by (eapply lookup_lt_Some; eauto).
  split.
  - rewrite (passengers_length _ _ _ Hex) in Hlt. simpl in Hlt.
    rewrite length_replicate in Hlt. lia.
  - split; [assumption|]. unfold status. apply (Hst i P_wd_wait).
    + rewrite Eps. assumption.
    + reflexivity.
Qed.

Lemma log_init : log_inv init.
Proof.
  split.
  - intros k v Hk. simpl in Hk. apply lookup_replicate in Hk as [-> _].
    unfold first_free. simpl. split; [reflexivity|lia].
  - unfold flights_sum, unrecorded. simpl. rewrite weight_replicate. lia.
Qed.

(** Every transition keeps [log_inv]: the hostess writes the slot of the
    flight the pilot numbered last, once, and that slot was still zero. *)
Lemma log_step (s s' : system) (a : actor) (l : label) :
  InvOk s -> log_inv s -> sys_step a Ok s = Some (s', l) -> log_inv s'.
Proof.
  intros [Hnn Hmx Hnx Hq Hsv Hsh Hab Hph Hc Hb Hpl Hsl Hiq] [L1 L2] Hstep.
  destruct s as [m S h ps pl]. unfold log_inv in *.
  destruct a as [|i|]; cbn [sys_step sh gates hostess passengers pilot] in *.
  - (* the hostess *)
    destruct (hostess_step Ok h m S) as [[[[h' m'] S'] l']|] eqn:E; [|discriminate].
    inversion Hstep; subst; clear Hstep.
    destruct h as [pc np la lp]. destruct S. destruct pl as [qc k].
    sem_facts Hnn. clear Hnn.
    unfold hostess_step in E. cbn [h_pc] in E.
    destruct pc; unfold h_gate, h_stmt, semCall, semDown, semUp, h_goto in E;
      simpl in E; try discriminate;
      split_tests E; try discriminate;
      inversion E; subst; clear E; zify_tests;
      unfold first_free, flights_sum, unrecorded, pilot_inv in *; simpl in *.
    all: try match goal with
             | H : array_store _ _ _ = Some _ |- _ => apply array_store_inv in H as [? ->]
             end.
    all: destruct qc; simpl in *; try lia.
    all: repeat match goal with
                | |- context [0 <? ?x] => destruct (Z.ltb_spec 0 x)
                | H : context [0 <? ?x] |- _ => destruct (Z.ltb_spec 0 x)
                end; simpl in *; try lia.
    all: try (split; [intros j v Hj; specialize (L1 j v Hj);
                      first [exact L1 | split; intros; lia] | lia]).
    (* the headcount is recorded *)
    assert (Hlt : (Z.to_nat (nFlight m - 1) < length (nPassengersInFlight m))%nat) by lia.
    destruct (lookup_lt_is_Some_2 _ _ Hlt) as [y Hy].
    assert (y = 0) as -> by (apply (L1 _ _ Hy); lia).
    split.
    + intros j v Hj.
      destruct (decide (j = Z.to_nat (nFlight m - 1))) as [->|Hne].
      * rewrite list_lookup_insert_eq in Hj by assumption. inversion Hj; subst.
        split; intros; lia.
      * rewrite list_lookup_insert_ne in Hj by congruence.
        specialize (L1 j v Hj). split; intros; apply L1; lia.
    + rewrite (weight_insert _ _ _ _ _ Hy). lia.
  - (* a passenger *)
    destruct (ps !! i) as [pc|] eqn:Hi; [|discriminate].
    destruct (passenger_step i Ok pc m S) as [[[[pc' m'] S'] l']|] eqn:E; [|discriminate].
    inversion Hstep; subst; clear Hstep.
    destruct S. destruct pl as [qc k].
    sem_facts Hnn. clear Hnn.
    pose proof (count_ge_lookup p_leaving _ _ _ Hi).
    pose proof (b2z_range (h_boarding (h_pc h))).
    destruct pc;
      unfold passenger_step, p_gate, p_gate_untested, p_stmt, p_store_stat,
             semCall, semDown, semUp in E;
      simpl in E; try discriminate;
      split_tests E; try discriminate;
      inversion E; subst; clear E; zify_tests;
      unfold first_free, flights_sum, unrecorded, pilot_inv in *; simpl in *;
      try (split; [exact L1|exact L2]).
    (* [nPassInFlight--]: boarding is closed *)
    split; [exact L1|].
    assert (h_boarding (h_pc h) = false) as Hnb.
    { destruct (h_boarding (h_pc h)); [|reflexivity]. destruct qc; simpl in *; lia. }
    rewrite Hnb in *. simpl in *. exact L2.
  - (* the pilot *)
    destruct (pilot_step pl m S) as [[[[p' m'] S'] l']|] eqn:E; [|discriminate].
    inversion Hstep; subst; clear Hstep.
    destruct S. destruct pl as [qc k].
    sem_facts Hnn. clear Hnn.
    pose proof (b2z_range (h_boarding (h_pc h))).
    assert (Hrb : h_recorded (h_pc h) = true -> h_boarding (h_pc h) = true)
      by (destruct (h_pc h); simpl; congruence).
    unfold pilot_step in E. cbn [pl_pc] in E.
    destruct qc; unfold pl_gate, semCall, semDown, semUp in E; simpl in E;
      split_tests E; try discriminate;
      inversion E; subst; clear E; zify_tests;
      unfold first_free, flights_sum, unrecorded, pilot_inv in *; simpl in *.
    all: try (split; [exact L1|exact L2]).
    all: destruct (h_recorded (h_pc h));
      [rewrite (Hrb eq_refl) in *; simpl in *; try lia|]; simpl in *.
    all: repeat match goal with
                | |- context [0 <? ?x] => destruct (Z.ltb_spec 0 x)
                | H : context [0 <? ?x] |- _ => destruct (Z.ltb_spec 0 x)
                end; simpl in *; try lia.
    all: try (split; [intros j v Hj; specialize (L1 j v Hj);
                      first [exact L1 | split; intros; lia] | first [exact L2|lia]]).
Qed.

Lemma log_exec (s : system) (tr : list event) :
  exec init tr s -> fault_free tr -> log_inv s.
Proof.
  intros Hex. induction Hex; intros Hff; [apply log_init|].
  unfold fault_free in Hff. apply Forall_app in Hff as [Hff1 Hff2].
  apply Forall_cons in Hff2 as [Ho _]. simpl in Ho. subst o.
  eapply log_step; [|apply IHHex, Hff1|eassumption].
  apply (InvOk_exec s1 tr); assumption.
Qed.

(** X11.  The array of headcounts accounts for every passenger boarded (no
    failed semaphore call; the flights numbered by the pilot).  The recorded
    headcounts plus the passengers aboard a flight not yet recorded add up to
    [totalPassBoarded]; the slots of the flights recorded hold at least one
    passenger each, the slots after them are still zero; outside boarding the
    headcounts add up to [totalPassBoarded], and to [N] when the hostess has
    left her loop. *)
Theorem flight_log_adds_up (tr : list event) (s : system)
    (HN : 0 <= N) (Hex : exec init tr s) (Hff : fault_free tr) :
  flights_sum (sh s) + unrecorded s = totalPassBoarded (sh s)
  /\ (forall (k : nat) (v : Z), nPassengersInFlight (sh s) !! k = Some v ->
        (Z.of_nat k < first_free s -> 1 <= v)
        /\ (first_free s <= Z.of_nat k -> v = 0))
  /\ nFlight (sh s) - 1 <= first_free s <= nFlight (sh s)
  /\ (h_boarding (h_pc (hostess s)) = false ->
      flights_sum (sh s) = totalPassBoarded (sh s))
  /\ (h_pc (hostess s) = H_done -> flights_sum (sh s) = N).
Proof.
  destruct (log_exec s tr Hex Hff) as [L1 L2].
  pose proof (Inv_exec tr s HN Hex) as [_ _ _ _ Hh].
  split; [assumption|]. split; [intros k v Hk; specialize (L1 k v Hk); tauto|].
  split.
  { unfold first_free. destruct (pl_pc (pilot s)); try lia.
    destruct (_ || _); lia. }
  split.
  - intros Hb. unfold unrecorded in L2. rewrite Hb in L2. simpl in L2. lia.
  - intros Hpc. unfold unrecorded in L2. rewrite Hpc in L2. simpl in L2.
    unfold hinv in Hh. rewrite Hpc in Hh. lia.
Qed.

(** X13.  Ranges (no failed semaphore call).  The counters stay between zero
    and [N] (the flight number at most [N + 1]); the mutex, the queue gate
    together with [idShown], the two boarding signals together, and
    [planeEmpty] never exceed one; [passengersInQueue] never exceeds [N]; and
    [passengersWaitInFlight] never exceeds the number of passengers aboard. *)
Theorem values_in_range (tr : list event) (s : system)
    (HN : 0 <= N) (Hex : exec init tr s) (Hff : fault_free tr) :
  (0 <= nPassInQueue (sh s) <= N
   /\ 0 <= nPassInFlight (sh s) <= N
   /\ 0 <= totalPassBoarded (sh s) <= N
   /\ 0 <= nFlight (sh s) <= N + 1
   /\ 0 <= nPassengers (hostess s) <= N)
  /\ 0 <= semval (gates s) mutex <= 1
  /\ 0 <= semval (gates s) passengersInQueue <= N
  /\ 0 <= semval (gates s) passengersWaitInQueue
  /\ 0 <= semval (gates s) idShown
  /\ semval (gates s) passengersWaitInQueue + semval (gates s) idShown <= 1
  /\ 0 <= semval (gates s) readyForBoarding
  /\ 0 <= semval (gates s) readyToFlight
  /\ semval (gates s) readyForBoarding + semval (gates s) readyToFlight <= 1
  /\ 0 <= semval (gates s) passengersWaitInFlight <= nPassInFlight (sh s)
  /\ 0 <= semval (gates s) planeEmpty <= 1.
Proof.
  pose proof (counters_in_range tr s HN Hex Hff) as Hcr.
  split; [exact Hcr|].
  pose proof (InvOk_exec s tr Hex Hff)
    as [Hnn Hmx Hnx Hq Hsv Hsh Hab Hph Hc Hb Hpl Hsl Hiq].
  assert (HlenN : Z.of_nat (length (passengers s)) = N).
  { rewrite (passengers_length _ _ _ Hex). simpl. rewrite length_replicate. lia. }
  pose proof (count_le_length p_announced (passengers s)).
  pose proof (count_nonneg p_showing (passengers s)).
  pose proof (count_nonneg p_leaving (passengers s)).
  pose proof (count_nonneg p_at_test (passengers s)).
  pose proof (count_nonneg p_at_signal (passengers s)).
  pose proof (holders_nonneg s).
  pose proof (b2z_range (h_took (h_pc (hostess s)))).
  pose proof (b2z_range (h_expecting (h_pc (hostess s)))).
  pose proof (b2z_range (h_boarding (h_pc (hostess s)))).
  pose proof (b2z_range (pl_at_wait_ready (pl_pc (pilot s)))).
  sem_facts Hnn. unfold pilot_inv in Hpl.
  assert (semval (gates s) passengersWaitInFlight <= nPassInFlight (sh s)
          /\ semval (gates s) planeEmpty <= 1) as [? ?].
  { destruct (pl_pc (pilot s)); simpl in *; lia. }
  repeat split; lia.
Qed.

(** X12.  What the queue counters count (no failed semaphore call).
    [nPassInQueue] is the number of passengers that have joined the queue and
    are not yet checked in; a unit of [passengersInQueue] stands for a
    passenger that has announced itself and that the hostess has not yet
    taken; the passengers past the queue gate are those the hostess has
    called, less the calls pending; at most one call or identifier is
    pending, and only while the hostess expects it. *)
Theorem handshake_accounting (tr : list event) (s : system)
    (Hex : exec init tr s) (Hff : fault_free tr) :
  nPassInQueue (sh s) + totalPassBoarded (sh s)
    + b2z (h_dequeued (h_pc (hostess s)))
  = count p_enqueued (passengers s)
  /\ semval (gates s) passengersInQueue + nPassengers (hostess s)
       + b2z (h_took (h_pc (hostess s)))
     = count p_announced (passengers s)
  /\ semval (gates s) passengersWaitInQueue + count p_served (passengers s)
     = nPassengers (hostess s) + b2z (h_called (h_pc (hostess s)))
  /\ semval (gates s) passengersWaitInQueue + count p_showing (passengers s)
       + semval (gates s) idShown
     = b2z (h_expecting (h_pc (hostess s)))
  /\ count p_served (passengers s) <= count p_announced (passengers s)
  /\ count p_announced (passengers s) <= count p_enqueued (passengers s).
Proof.
  pose proof (InvOk_exec s tr Hex Hff)
    as [Hnn Hmx Hnx Hq Hsv Hsh Hab Hph Hc Hb Hpl Hsl Hiq].
  repeat split; try assumption; apply count_le; intros []; simpl; congruence.
Qed.

(** A list whose elements all equal [c] is a repetition of [c]. *)
Lemma all_equal_replicate {A} (l : list A) (c : A) :
  (forall i x, l !! i = Some x -> x = c) -> l = replicate (length l) c.
Proof.
  intros H. symmetry. apply replicate_as_Forall_2; [reflexivity|].
  apply Forall_lookup. intros i x Hi. symmetry. eauto.
Qed.

(** X15.  The state the airlift ends in (no failed semaphore call, slots for
    every flight).  When no process can move, the hostess has left her loop,
    every passenger process has ended with status [AT_DESTINATION], the queue
    and the plane are empty, [totalPassBoarded] and the hostess's own count
    are [N], [finished] is set (for [N] positive), the headcounts add up to
    [N], the mutex is free and no unit is left on [passengersInQueue],
    [passengersWaitInQueue], [idShown], [passengersWaitInFlight],
    [planeEmpty] or [readyToFlight]. *)
Theorem quiescent_state (tr : list event) (s : system)
    (HN : 0 <= N) (HF : slots_suffice)
    (Hex : exec init tr s) (Hff : fault_free tr)
    (Hstuck : forall a, sys_step a Ok s = None) :
  h_pc (hostess s) = H_done
  /\ passengers s = replicate (Z.to_nat N) P_done
  /\ passengerStat (st (sh s)) = replicate (Z.to_nat N) AT_DESTINATION
  /\ nPassInQueue (sh s) = 0
  /\ nPassInFlight (sh s) = 0
  /\ totalPassBoarded (sh s) = N
  /\ nPassengers (hostess s) = N
  /\ (0 < N -> finished (sh s) = true)
  /\ flights_sum (sh s) = N
  /\ semval (gates s) mutex = 1
  /\ semval (gates s) passengersInQueue = 0
  /\ semval (gates s) passengersWaitInQueue = 0
  /\ semval (gates s) idShown = 0
  /\ semval (gates s) passengersWaitInFlight = 0
  /\ semval (gates s) planeEmpty = 0
  /\ semval (gates s) readyToFlight = 0.
Proof.
  pose proof (InvOk_exec s tr Hex Hff) as HI.
  pose proof (Inv_exec tr s HN Hex) as HJ.
  assert (HlenN : length (passengers s) = Z.to_nat N).
  { rewrite (passengers_length _ _ _ Hex). simpl. apply length_replicate. }
  destruct (no_deadlock s HN (slots_ok s tr HN HF Hex Hff) HI HJ HlenN Hstuck)
    as [Hd Hp].
  assert (Eps : passengers s = replicate (Z.to_nat N) P_done).
  { rewrite <- HlenN. apply all_equal_replicate. exact Hp. }
  destruct (stuck_parts s Hstuck) as (_ & HL & _). apply pilot_blocked in HL.
  destruct HI as [Hnn Hmx Hnx Hq Hsv Hsh Hab Hph Hc Hb Hpl Hsl Hiq].
  destruct HJ as [_ Hlen Hst _ Hh].
  assert (Est : passengerStat (st (sh s)) = replicate (Z.to_nat N) AT_DESTINATION).
  { rewrite <- HlenN, <- Hlen. apply all_equal_replicate. intros i x Hi.
    assert (Hlt : (i < length (passengers s))%nat)
      by (rewrite <- Hlen; eapply lookup_lt_Some; eauto).
    destruct (lookup_lt_is_Some_2 _ _ Hlt) as [pc Hpc].
    pose proof (Hp _ _ Hpc). subst pc.
    pose proof (Hst i P_done AT_DESTINATION Hpc eq_refl). congruence. }
  assert (Hsum : flights_sum (sh s) = totalPassBoarded (sh s)).
  { destruct (log_exec s tr Hex Hff) as [_ L2]. unfold unrecorded in L2.
    rewrite Hd in L2. simpl in L2. lia. }
  destruct s as [m S h ps pl]. destruct h as [hc np la lp]. destruct pl as [qc k].
  destruct S.
  unfold holders, pilot_inv, hinv in *.
  cbn [sh gates hostess passengers pilot h_pc pl_pc nPassengers toRelease] in *.
  subst hc ps. sem_facts Hnn. clear Hnn.
  rewrite ?count_replicate in * by reflexivity.
  rewrite ?count_replicate_true in * by reflexivity.
  simpl in *.
  destruct qc; simpl in *; try lia; try contradiction.
  repeat split; try assumption; try reflexivity; try lia; tauto.
Qed.

(** X14.  Nobody waits while holding the mutex (no failed semaphore call,
    slots for every flight): a process inside a critical section can always
    take its next transition. *)
Theorem critical_section_progress (tr : list event) (s : system) (a : actor)
    (HN : 0 <= N) (HF : slots_suffice)
    (Hex : exec init tr s) (Hff : fault_free tr)
    (Hcs : in_cs a s = true) :
  exists s' l, sys_step a Ok s = Some (s', l).
Proof.
  destruct (sys_step a Ok s) as [[s' l]|] eqn:E; [eauto|exfalso].
  pose proof (Inv_exec tr s HN Hex) as [_ Hlen _ _ _].
  pose proof (InvOk_exec s tr Hex Hff) as [_ _ _ _ _ _ _ _ _ _ _ Hsl _].
  pose proof (slots_ok s tr HN HF Hex Hff) as Hslots.
  destruct s as [m S h ps pl].
  destruct a as [|i|]; cbn [sys_step in_cs sh gates hostess passengers pilot] in *.
  - destruct (hostess_step Ok h m S) as [[[[h' m'] S'] l']|] eqn:E1; [discriminate|].
    apply hostess_blocked in E1.
    destruct (h_pc h); try discriminate Hcs; try contradiction.
    apply E1. rewrite Hsl. apply Hslots. reflexivity.
  - destruct (ps !! i) as [pc|] eqn:Hi; [|discriminate].
    destruct (passenger_step i Ok pc m S) as [[[[pc' m'] S'] l']|] eqn:E1; [discriminate|].
    apply passenger_blocked in E1.
    assert (Hlt : (i < length ps)%nat) by (eapply lookup_lt_Some; eauto).
    destruct pc; try discriminate Hcs; try contradiction; apply E1; simpl in *; lia.
  - destruct (pilot_step pl m S) as [[[[p' m'] S'] l']|] eqn:E1; [discriminate|].
    apply pilot_blocked in E1.
    destruct (pl_pc pl); try discriminate Hcs; contradiction.
Qed.

End Boarding.

(* ===================================================================== *)
(** ** The theorems at concrete executions                                *)
(* ===================================================================== *)

Ltac run_concrete := apply after_exec; vm_compute; reflexivity.
Ltac all_ok := unfold fault_free; vm_compute; repeat constructor.

Lemma C2_conservation_counterexample :
  @exec scenario (@init scenario) queued_trace queued_state
  /\ mutex_free queued_state
  /\ nPassInQueue (sh queued_state) + nPassInFlight (sh queued_state)
       + atDestination (sh queued_state)
     <> totalPassBoarded (sh queued_state).
Proof.
  split; [run_concrete|]. split; [reflexivity|]. vm_compute. discriminate.
Qed.

Lemma C2_conservation_witness :
  0 <= @N scenario
  /\ @exec scenario (@init scenario) queued_trace queued_state
  /\ (mutex_free queued_state ->
      nPassInFlight (sh queued_state) + atDestination (sh queued_state)
      = totalPassBoarded (sh queued_state))
  /\ (forall tr' s', @exec scenario queued_state tr' s' ->
        totalPassBoarded (sh queued_state) <= totalPassBoarded (sh s')).
Proof.
  assert (HN : 0 <= @N scenario) by (simpl; lia).
  assert (Hex : @exec scenario (@init scenario) queued_trace queued_state)
    by run_concrete.
  split; [exact HN|]. split; [exact Hex|].
  exact (@C2_conservation scenario queued_trace queued_state HN Hex).
Defined.

Lemma C4_finished_counterexample :
  @exec single (@init single) checked_trace checked_state
  /\ fault_free checked_trace
  /\ List.last checked_trace (Pilot, Ok, Stmt []) = (Hostess, Ok, Gate Up mutex)
  /\ mutex_free checked_state
  /\ totalPassBoarded (sh checked_state) = @N single
  /\ finished (sh checked_state) = false.
Proof.
  split; [run_concrete|]. split; [all_ok|]. repeat split; reflexivity.
Qed.

Lemma C4_finished_witness :
  0 < @N single
  /\ @exec single (@init single) checked_trace checked_state
  /\ (finished (sh checked_state) = true ->
      totalPassBoarded (sh checked_state) = @N single)
  /\ (totalPassBoarded (sh checked_state) = @N single ->
      finished (sh checked_state) = true
      \/ h_in_window (h_pc (hostess checked_state)) = true
      \/ h_pc (hostess checked_state) = H_exit).
Proof.
  assert (HN : 0 < @N single) by (simpl; lia).
  assert (Hex : @exec single (@init single) checked_trace checked_state)
    by run_concrete.
  split; [exact HN|]. split; [exact Hex|].
  exact (@C4_finished single checked_trace checked_state HN Hex).
Defined.

Lemma planeEmpty_once_without_failures_witness :
  @exec scenario (@init scenario) signalling_trace signalling_state
  /\ fault_free signalling_trace
  /\ count is_empty_signal signalling_trace
       = count is_empty_taken signalling_trace
         + semval (gates signalling_state) planeEmpty
  /\ 0 <= semval (gates signalling_state) planeEmpty
          + count p_at_signal (passengers signalling_state) <= 1
  /\ (forall i m S,
        passenger_run 2 i P_wd_dec m S
        = Some (if nPassInFlight m - 1 =? 0 then P_wd_signal else P_wd_unlock,
                set_nPassInFlight (nPassInFlight m - 1) m, S, [Stmt []; Stmt []]))
  /\ (forall i, passengers signalling_state !! i = Some P_wd_signal ->
        nPassInFlight (sh signalling_state) = 0)
  /\ (forall i pc, passengers signalling_state !! i = Some pc -> p_in_cs pc = true ->
        semval (gates signalling_state) mutex = 0
        /\ forall a o l s', a <> Passenger i ->
             @sys_step scenario a o signalling_state = Some (s', l) ->
             sh s' = sh signalling_state).
Proof.
  assert (Hex : @exec scenario (@init scenario) signalling_trace signalling_state)
    by run_concrete.
  assert (Hff : fault_free signalling_trace) by all_ok.
  split; [exact Hex|]. split; [exact Hff|].
  exact (@planeEmpty_once_without_failures scenario signalling_trace signalling_state
           Hex Hff).
Defined.

(** The state of that execution: one passenger is about to signal, the
    others of its flight have left the plane. *)
Example signalling_passenger :
  count p_at_signal (passengers signalling_state) = 1
  /\ nPassInFlight (sh signalling_state) = 0
  /\ semval (gates signalling_state) planeEmpty = 0.
Proof. vm_compute. repeat split; reflexivity. Qed.

(** C8 (the code diverges).  Two passengers, flights of two.  Passenger 0 is
    checked in and its wait for the pilot fails, the one failed call of the
    execution, which [waitUntilDestination] does not test: it disembarks
    while boarding is still open, leaves [nPassInFlight] at zero and signals
    [planeEmpty].  Passenger 1 is then checked in, the flight departs, the
    pilot releases it, and it too leaves the count at zero and signals.  Both
    signals fall in the first flight cycle: the pilot has numbered one flight
    and has not yet taken [planeEmpty], which stands at two; and the
    headcount recorded for the flight is one. *)
Theorem C8_planeEmpty_twice :
  @exec pair (@init pair) twice_trace twice_state
  /\ count is_failure twice_trace = 1
  /\ twice_trace !! 43%nat
     = Some (Passenger 0, Err, Ignored Down passengersWaitInFlight)
  /\ twice_trace !! 48%nat = Some (Passenger 0, Ok, Gate Up planeEmpty)
  /\ twice_trace !! 90%nat = Some (Passenger 1, Ok, Gate Up planeEmpty)
  /\ count is_empty_signal twice_trace = 2
  /\ count is_empty_taken twice_trace = 0
  /\ nFlight (sh twice_state) = 1
  /\ nPassengersInFlight (sh twice_state) = [1]
  /\ totalPassBoarded (sh twice_state) = 2
  /\ semval (gates twice_state) planeEmpty = 2.
Proof.
  split; [run_concrete|]. vm_compute. repeat split; reflexivity.
Qed.

Lemma C6_hostess_terminates_witness :
  0 <= @N single
  /\ @slots_suffice single
  /\ @exec single (@init single) airlift_trace airlift_state
  /\ fault_free airlift_trace
  /\ Z.of_nat (length airlift_trace) <= 59 * @N single + 7
  /\ count is_checkin airlift_trace = totalPassBoarded (sh airlift_state)
  /\ nPassengers (hostess airlift_state) <= totalPassBoarded (sh airlift_state)
     <= @N single
  /\ ((forall a, @sys_step single a Ok airlift_state = None) ->
      h_pc (hostess airlift_state) = H_done)
  /\ (exists tr' s', @exec single airlift_state tr' s' /\ fault_free tr'
        /\ h_pc (hostess s') = H_done
        /\ count is_checkin (airlift_trace ++ tr') = @N single)
  /\ (h_pc (hostess airlift_state) = H_done ->
      nPassengers (hostess airlift_state) = @N single
      /\ count is_checkin airlift_trace = @N single)
  /\ (h_in_srf (h_pc (hostess airlift_state)) = true ->
      1 <= nPassInFlight (sh airlift_state))
  /\ (nPassengers (hostess airlift_state) = @N single ->
      h_in_srf (h_pc (hostess airlift_state)) = true
      \/ h_pc (hostess airlift_state) = H_while
      \/ h_pc (hostess airlift_state) = H_done).
Proof.
  assert (HN : 0 <= @N single) by (simpl; lia).
  assert (HF : @slots_suffice single) by (left; simpl; lia).
  assert (Hex : @exec single (@init single) airlift_trace airlift_state)
    by run_concrete.
  assert (Hff : fault_free airlift_trace) by all_ok.
  split; [exact HN|]. split; [exact HF|]. split; [exact Hex|]. split; [exact Hff|].
  exact (@C6_hostess_terminates single airlift_trace airlift_state HN HF Hex Hff).
Defined.

Lemma C9_status_order_witness :
  0 <= @N scenario
  /\ @exec scenario (@init scenario) queued_trace queued_state
  /\ (0 < length (passengers queued_state))%nat
  /\ status (@init scenario) 0 = Some UNSTARTED
  /\ exists v, status queued_state 0 = Some v
     /\ (forall a o l s', @sys_step scenario a o queued_state = Some (s', l) ->
           exists v', status s' 0 = Some v'
             /\ (v' = v \/ (a = Passenger 0 /\ next_stat v = Some v')))
     /\ (forall tr' s', @exec scenario queued_state tr' s' ->
           exists v', status s' 0 = Some v' /\ stat_rank v <= stat_rank v')
     /\ (forall pc, passengers queued_state !! 0%nat = Some pc ->
           stat_at pc = Some v \/ pc = P_exit)
     /\ (passengers queued_state !! 0%nat = Some P_done -> v = AT_DESTINATION)
     /\ (fault_free queued_trace -> @slots_suffice scenario ->
         (forall tr' s', @exec scenario queued_state tr' s' -> fault_free tr' ->
            (forall a, @sys_step scenario a Ok s' = None) ->
            status s' 0 = Some AT_DESTINATION)
         /\ exists tr' s', @exec scenario queued_state tr' s' /\ fault_free tr'
              /\ (forall a, @sys_step scenario a Ok s' = None)).
Proof.
  assert (HN : 0 <= @N scenario) by (simpl; lia).
  assert (Hex : @exec scenario (@init scenario) queued_trace queued_state)
    by run_concrete.
  assert (Hi : (0 < length (passengers queued_state))%nat) by (vm_compute; lia).
  split; [exact HN|]. split; [exact Hex|]. split; [exact Hi|].
  exact (@C9_status_order scenario queued_trace queued_state 0%nat HN Hex Hi).
Defined.

(** The airlift of a single passenger: one check-in, one signal of
    [planeEmpty], and the hostess leaves her loop. *)
Example airlift_one_signal :
  count is_empty_signal airlift_trace = 1
  /\ count is_checkin airlift_trace = 1
  /\ h_pc (hostess airlift_state) = H_done
  /\ passengerStat (st (sh airlift_state)) = [AT_DESTINATION].
Proof. repeat split; reflexivity. Qed.

(** C3 at work: the passenger's wait for the pilot fails after check-in, and
    the passenger goes on to disembark and to signal [planeEmpty] while the
    pilot still waits for the flight to be declared ready. *)
Example untested_failure_run :
  @exec single (@init single) fault_trace fault_state
  /\ List.In (Passenger 0%nat, Err, Ignored Down passengersWaitInFlight) fault_trace
  /\ passengers fault_state = [P_done]
  /\ passengerStat (st (sh fault_state)) = [AT_DESTINATION]
  /\ semval (gates fault_state) planeEmpty = 1
  /\ pl_pc (pilot fault_state) = PL_wait_ready
  /\ h_pc (hostess fault_state) = H_count.
Proof.
  split; [run_concrete|]. split; [vm_compute; tauto|]. repeat split; reflexivity.
Qed.

(** The scenario of the specification (ten passengers, flights of three to
    five) under round-robin scheduling: two flights of five, one signal of
    [planeEmpty] for each, ten check-ins, everybody at destination. *)
Example scenario_airlift :
  @runs scenario scenario_sched = true
  /\ length scenario_trace = 399%nat
  /\ h_pc (hostess scenario_state) = H_done
  /\ passengerStat (st (sh scenario_state)) = replicate 10 AT_DESTINATION
  /\ nPassengersInFlight (sh scenario_state) = [5; 5; 0; 0]
  /\ count is_checkin scenario_trace = 10
  /\ count is_empty_signal scenario_trace = 2
  /\ count is_empty_taken scenario_trace = 2.
Proof. vm_compute. repeat split; reflexivity. Qed.

(** The further properties at concrete transitions and executions. *)

Lemma mutual_exclusion_always_witness :
  0 <= semval (gates (@init scenario)) mutex
  /\ semval (gates (@init scenario)) mutex + holders (@init scenario) <= 1
  /\ @exec scenario (@init scenario) locked_trace locked_state
  /\ 0 <= semval (gates locked_state) mutex <= 1
  /\ 0 <= holders locked_state <= 1
  /\ (holders locked_state = 1 -> semval (gates locked_state) mutex = 0)
  /\ (forall a b, in_cs a locked_state = true -> in_cs b locked_state = true -> a = b)
  /\ (forall a o s' l, @sys_step scenario a o locked_state = Some (s', l) ->
        sh s' <> sh locked_state ->
        in_cs a locked_state = true /\ semval (gates locked_state) mutex = 0).
Proof.
  assert (H0 : 0 <= semval (gates (@init scenario)) mutex) by (vm_compute; discriminate).
  assert (H1 : semval (gates (@init scenario)) mutex + holders (@init scenario) <= 1)
    by (vm_compute; discriminate).
  assert (Hex : @exec scenario (@init scenario) locked_trace locked_state)
    by run_concrete.
  split; [exact H0|]. split; [exact H1|]. split; [exact Hex|].
  exact (@mutual_exclusion_always scenario locked_trace (@init scenario) locked_state
           H0 H1 Hex).
Defined.

Lemma hostess_shared_access_witness :
  @hostess_step scenario Ok (mkHLocal H_wnf_lock 0 false false) boarding_sh init_gates
  = Some (mkHLocal H_wnf_stat 0 false false, boarding_sh,
          semset init_gates mutex 0, Gate Down mutex)
  /\ (forall m2, @hostess_step scenario Ok (mkHLocal H_wnf_lock 0 false false) m2 init_gates
        = Some (mkHLocal H_wnf_stat 0 false false, m2,
                semset init_gates mutex 0, Gate Down mutex)).
Proof.
  assert (Hs : @hostess_step scenario Ok (mkHLocal H_wnf_lock 0 false false)
                 boarding_sh init_gates
               = Some (mkHLocal H_wnf_stat 0 false false, boarding_sh,
                       semset init_gates mutex 0, Gate Down mutex)) by reflexivity.
  split; [exact Hs|].
  apply (@hostess_shared_access scenario _ _ _ _ _ _ _ _ Hs). reflexivity.
Defined.

Lemma passenger_shared_access_witness :
  passenger_step 0 Ok P_wq_wait boarding_sh (semset init_gates passengersWaitInQueue 1)
  = Some (P_wq_lock2, boarding_sh, init_gates, Gate Down passengersWaitInQueue)
  /\ (forall m2,
        passenger_step 0 Ok P_wq_wait m2 (semset init_gates passengersWaitInQueue 1)
        = Some (P_wq_lock2, m2, init_gates, Gate Down passengersWaitInQueue)).
Proof.
  assert (Hs : passenger_step 0 Ok P_wq_wait boarding_sh
                 (semset init_gates passengersWaitInQueue 1)
               = Some (P_wq_lock2, boarding_sh, init_gates,
                       Gate Down passengersWaitInQueue)) by reflexivity.
  split; [exact Hs|].
  apply (passenger_shared_access _ _ _ _ _ _ _ _ _ Hs). reflexivity.
Defined.

Lemma hostess_failure_fatal_witness :
  @hostess_step scenario Err (mkHLocal H_cp_wait 4 false false) boarding_sh init_gates
  = Some (mkHLocal H_exit 4 false false, boarding_sh, init_gates,
          Fatal Down idShown HT_down)
  /\ (forall o m2 S2, @hostess_step scenario o (mkHLocal H_exit 4 false false) m2 S2 = None).
Proof.
  assert (Hs : @hostess_step scenario Err (mkHLocal H_cp_wait 4 false false)
                 boarding_sh init_gates
               = Some (mkHLocal H_exit 4 false false, boarding_sh, init_gates,
                       Fatal Down idShown HT_down)) by reflexivity.
  split; [exact Hs|].
  apply (@hostess_failure_fatal scenario _ _ _ _ _ _ _ Hs).
Defined.

Lemma passenger_failure_fatal_witness :
  passenger_step 0 Err P_wq_signal boarding_sh init_gates
  = Some (P_exit, boarding_sh, init_gates, Fatal Up passengersInQueue PG_up)
  /\ (P_wq_signal <> P_wd_wait ->
      P_exit = P_exit
      /\ (exists x, Fatal Up passengersInQueue PG_up = Fatal Down x PG_down
                    \/ Fatal Up passengersInQueue PG_up = Fatal Up x PG_up)
      /\ forall o m2 S2, passenger_step 0 o P_exit m2 S2 = None).
Proof.
  assert (Hs : passenger_step 0 Err P_wq_signal boarding_sh init_gates
               = Some (P_exit, boarding_sh, init_gates,
                       Fatal Up passengersInQueue PG_up)) by reflexivity.
  split; [exact Hs|].
  apply (passenger_failure_fatal _ _ _ _ _ _ _ _ Hs).
Defined.

Lemma failure_inside_critical_section_witness :
  0 <= semval (gates locked_state) mutex
  /\ semval (gates locked_state) mutex + holders locked_state <= 1
  /\ in_cs (Passenger 0) locked_state = true
  /\ @sys_step scenario (Passenger 0) Err locked_state
     = Some (leaked_state, Fatal Up mutex PG_up)
  /\ @exec scenario leaked_state later_trace later_state
  /\ sh later_state = sh locked_state
  /\ semval (gates later_state) mutex = 0
  /\ (forall b, in_cs b later_state = false)
  /\ Forall (fun e : event => e.2 <> Gate Down mutex /\ e.2 <> Gate Up mutex) later_trace.
Proof.
  assert (H0 : 0 <= semval (gates locked_state) mutex) by (vm_compute; discriminate).
  assert (H1 : semval (gates locked_state) mutex + holders locked_state <= 1)
    by (vm_compute; discriminate).
  assert (Hcs : in_cs (Passenger 0) locked_state = true) by reflexivity.
  assert (Hf : @sys_step scenario (Passenger 0) Err locked_state
               = Some (leaked_state, Fatal Up mutex PG_up)) by reflexivity.
  assert (Hex' : @exec scenario leaked_state later_trace later_state)
    by (apply run_exec; vm_compute; reflexivity).
  split; [exact H0|]. split; [exact H1|]. split; [exact Hcs|]. split; [exact Hf|].
  split; [exact Hex'|].
  exact (@failure_inside_critical_section scenario _ _ _ _ _ _ H0 H1 Hcs Hf Hex').
Defined.

Lemma hostess_state_machine_witness :
  hstat_ok H_wfp_stat (hostessStat (st (set_hostessStat CHECK_PASSPORT boarding_sh))) = true
  /\ @hostess_step scenario Ok (mkHLocal H_wfp_stat 4 false false)
       (set_hostessStat CHECK_PASSPORT boarding_sh) init_gates
     = Some (mkHLocal H_wfp_unlock 4 false false, boarding_sh, init_gates,
             Stmt [saveState])
  /\ hstat_ok H_wfp_unlock (hostessStat (st boarding_sh)) = true
  /\ (hostessStat (st boarding_sh)
      = hostessStat (st (set_hostessStat CHECK_PASSPORT boarding_sh))
      \/ (Stmt [saveState] = Stmt [saveState]
          /\ hstat_next (hostessStat (st (set_hostessStat CHECK_PASSPORT boarding_sh)))
                        (hostessStat (st boarding_sh)) = true)).
Proof.
  assert (Hok : hstat_ok H_wfp_stat
                  (hostessStat (st (set_hostessStat CHECK_PASSPORT boarding_sh))) = true)
    by reflexivity.
  assert (Hs : @hostess_step scenario Ok (mkHLocal H_wfp_stat 4 false false)
                 (set_hostessStat CHECK_PASSPORT boarding_sh) init_gates
               = Some (mkHLocal H_wfp_unlock 4 false false, boarding_sh, init_gates,
                       Stmt [saveState])) by reflexivity.
  split; [exact Hok|]. split; [exact Hs|].
  pose proof (@hostess_state_machine scenario Ok
                (mkHLocal H_wfp_stat 4 false false) (mkHLocal H_wfp_unlock 4 false false)
                (set_hostessStat CHECK_PASSPORT boarding_sh) boarding_sh
                init_gates init_gates (Stmt [saveState]) Hok Hs) as H.
  split; [exact (proj1 H)|exact (proj1 (proj2 H))].
Defined.

Lemma departure_capacity_witness :
  0 <= @N single /\ 1 <= @MAXFC single
  /\ @exec single (@init single) checked_trace checked_state
  /\ fault_free checked_trace
  /\ 0 <= nPassInFlight (sh checked_state) <= @MAXFC single
  /\ Forall (fun v => 0 <= v <= @MAXFC single) (nPassengersInFlight (sh checked_state))
  /\ (h_seat_free (h_pc (hostess checked_state)) = true ->
      nPassInFlight (sh checked_state) < @MAXFC single)
  /\ (departing (hostess checked_state) = true ->
      1 <= nPassInFlight (sh checked_state)
      /\ (@MINFC single <= @MAXFC single ->
          @MINFC single <= nPassInFlight (sh checked_state)
          \/ totalPassBoarded (sh checked_state) = @N single)).
Proof.
  assert (HN : 0 <= @N single) by (simpl; lia).
  assert (HC : 1 <= @MAXFC single) by (simpl; lia).
  assert (Hex : @exec single (@init single) checked_trace checked_state)
    by run_concrete.
  assert (Hff : fault_free checked_trace) by all_ok.
  split; [exact HN|]. split; [exact HC|]. split; [exact Hex|]. split; [exact Hff|].
  exact (@departure_capacity single checked_trace checked_state HN HC Hex Hff).
Defined.

Lemma boarding_excludes_disembarking_witness :
  @exec single (@init single) checked_trace checked_state
  /\ fault_free checked_trace
  /\ h_boarding (h_pc (hostess checked_state)) = true
  /\ pl_pc (pilot checked_state) = PL_wait_ready
  /\ semval (gates checked_state) passengersWaitInFlight = 0
  /\ semval (gates checked_state) planeEmpty = 0
  /\ (forall i pc, passengers checked_state !! i = Some pc -> p_disembarking pc = false)
  /\ nPassInFlight (sh checked_state) + semval (gates checked_state) idShown
       + b2z (h_admitting (h_pc (hostess checked_state)))
     = count p_waiting (passengers checked_state).
Proof.
  assert (Hex : @exec single (@init single) checked_trace checked_state)
    by run_concrete.
  assert (Hff : fault_free checked_trace) by all_ok.
  assert (Hb : h_boarding (h_pc (hostess checked_state)) = true) by reflexivity.
  split; [exact Hex|]. split; [exact Hff|]. split; [exact Hb|].
  exact (@boarding_excludes_disembarking single checked_trace checked_state Hex Hff Hb).
Defined.

Lemma checked_passenger_identity_witness :
  0 <= @N single
  /\ @exec single (@init single) checked_trace checked_state
  /\ fault_free checked_trace
  /\ (forall i pc, passengers checked_state !! i = Some pc -> p_shown pc = true ->
        passengerChecked (sh checked_state) = Z.of_nat i)
  /\ (forall s' l, @sys_step single Hostess Ok checked_state = Some (s', l) ->
        l = Stmt [savePassengerChecked; saveState] ->
        exists i : nat,
          passengerChecked (sh s') = Z.of_nat i
          /\ Z.of_nat i < @N single
          /\ passengers s' !! i = Some P_wd_wait
          /\ status s' i = Some IN_FLIGHT).
Proof.
  assert (HN : 0 <= @N single) by (simpl; lia).
  assert (Hex : @exec single (@init single) checked_trace checked_state)
    by run_concrete.
  assert (Hff : fault_free checked_trace) by all_ok.
  split; [exact HN|]. split; [exact Hex|]. split; [exact Hff|].
  exact (proj2 (@checked_passenger_identity single checked_trace checked_state HN Hex Hff)).
Defined.

Lemma flight_log_adds_up_witness :
  0 <= @N single
  /\ @exec single (@init single) airlift_trace airlift_state
  /\ fault_free airlift_trace
  /\ flights_sum (sh airlift_state) + unrecorded airlift_state
     = totalPassBoarded (sh airlift_state)
  /\ (forall (k : nat) (v : Z), nPassengersInFlight (sh airlift_state) !! k = Some v ->
        (Z.of_nat k < first_free airlift_state -> 1 <= v)
        /\ (first_free airlift_state <= Z.of_nat k -> v = 0))
  /\ nFlight (sh airlift_state) - 1 <= first_free airlift_state <= nFlight (sh airlift_state)
  /\ (h_boarding (h_pc (hostess airlift_state)) = false ->
      flights_sum (sh airlift_state) = totalPassBoarded (sh airlift_state))
  /\ (h_pc (hostess airlift_state) = H_done -> flights_sum (sh airlift_state) = @N single).
Proof.
  assert (HN : 0 <= @N single) by (simpl; lia).
  assert (Hex : @exec single (@init single) airlift_trace airlift_state)
    by run_concrete.
  assert (Hff : fault_free airlift_trace) by all_ok.
  split; [exact HN|]. split; [exact Hex|]. split; [exact Hff|].
  exact (@flight_log_adds_up single airlift_trace airlift_state HN Hex Hff).
Defined.

Lemma handshake_accounting_witness :
  @exec scenario (@init scenario) queued_trace queued_state
  /\ fault_free queued_trace
  /\ nPassInQueue (sh queued_state) + totalPassBoarded (sh queued_state)
       + b2z (h_dequeued (h_pc (hostess queued_state)))
     = count p_enqueued (passengers queued_state).
Proof.
  assert (Hex : @exec scenario (@init scenario) queued_trace queued_state)
    by run_concrete.
  assert (Hff : fault_free queued_trace) by all_ok.
  split; [exact Hex|]. split; [exact Hff|].
  exact (proj1 (@handshake_accounting scenario queued_trace queued_state Hex Hff)).
Defined.

Lemma values_in_range_witness :
  0 <= @N single
  /\ @exec single (@init single) checked_trace checked_state
  /\ fault_free checked_trace
  /\ 0 <= nPassInQueue (sh checked_state) <= @N single
  /\ 0 <= nPassInFlight (sh checked_state) <= @N single
  /\ 0 <= totalPassBoarded (sh checked_state) <= @N single
  /\ 0 <= nFlight (sh checked_state) <= @N single + 1
  /\ 0 <= nPassengers (hostess checked_state) <= @N single.
Proof.
  assert (HN : 0 <= @N single) by (simpl; lia).
  assert (Hex : @exec single (@init single) checked_trace checked_state)
    by run_concrete.
  assert (Hff : fault_free checked_trace) by all_ok.
  split; [exact HN|]. split; [exact Hex|]. split; [exact Hff|].
  exact (proj1 (@values_in_range single checked_trace checked_state HN Hex Hff)).
Defined.

Lemma critical_section_progress_witness :
  0 <= @N scenario
  /\ @slots_suffice scenario
  /\ @exec scenario (@init scenario) locked_trace locked_state
  /\ fault_free locked_trace
  /\ in_cs (Passenger 0) locked_state = true
  /\ exists s' l, @sys_step scenario (Passenger 0) Ok locked_state = Some (s', l).
Proof.
  assert (HN : 0 <= @N scenario) by (simpl; lia).
  assert (HF : @slots_suffice scenario) by (right; simpl; lia).
  assert (Hex : @exec scenario (@init scenario) locked_trace locked_state)
    by run_concrete.
  assert (Hff : fault_free locked_trace) by all_ok.
  assert (Hcs : in_cs (Passenger 0) locked_state = true) by reflexivity.
  split; [exact HN|]. split; [exact HF|]. split; [exact Hex|]. split; [exact Hff|].
  split; [exact Hcs|].
  exact (@critical_section_progress scenario locked_trace locked_state (Passenger 0)
           HN HF Hex Hff Hcs).
Defined.

Lemma quiescent_state_witness :
  0 <= @N single
  /\ @slots_suffice single
  /\ @exec single (@init single) airlift_trace airlift_state
  /\ fault_free airlift_trace
  /\ (forall a, @sys_step single a Ok airlift_state = None)
  /\ h_pc (hostess airlift_state) = H_done
  /\ passengers airlift_state = replicate (Z.to_nat (@N single)) P_done
  /\ passengerStat (st (sh airlift_state))
     = replicate (Z.to_nat (@N single)) AT_DESTINATION
  /\ nPassInQueue (sh airlift_state) = 0
  /\ nPassInFlight (sh airlift_state) = 0
  /\ totalPassBoarded (sh airlift_state) = @N single.
Proof.
  assert (HN : 0 <= @N single) by (simpl; lia).
  assert (HF : @slots_suffice single) by (left; simpl; lia).
  assert (Hex : @exec single (@init single) airlift_trace airlift_state)
    by run_concrete.
  assert (Hff : fault_free airlift_trace) by all_ok.
  assert (Hst : forall a, @sys_step single a Ok airlift_state = None).
  { intros [|[|i]|]; reflexivity. }
  split; [exact HN|]. split; [exact HF|]. split; [exact Hex|]. split; [exact Hff|].
  split; [exact Hst|].
  pose proof (@quiescent_state single airlift_trace airlift_state HN HF Hex Hff Hst) as H.
  tauto.
Defined.

Lemma hostess_frame_witness :
  @hostess_step scenario Ok (mkHLocal H_cp_inct 4 false false) boarding_sh init_gates
  = Some (mkHLocal H_cp_decide 4 false false,
          set_totalPassBoarded 5 boarding_sh, init_gates,
          Stmt [savePassengerChecked; saveState])
  /\ passengerStat (st (set_totalPassBoarded 5 boarding_sh)) = passengerStat (st boarding_sh)
  /\ nFlight (set_totalPassBoarded 5 boarding_sh) = nFlight boarding_sh
  /\ passengerChecked (set_totalPassBoarded 5 boarding_sh) = passengerChecked boarding_sh.
Proof.
  assert (Hs : @hostess_step scenario Ok (mkHLocal H_cp_inct 4 false false)
                 boarding_sh init_gates
               = Some (mkHLocal H_cp_decide 4 false false,
                       set_totalPassBoarded 5 boarding_sh, init_gates,
                       Stmt [savePassengerChecked; saveState])) by reflexivity.
  split; [exact Hs|].
  pose proof (@hostess_frame scenario _ _ _ _ _ _ _ _ Hs) as H. tauto.
Defined.

Lemma passenger_frame_witness :
  passenger_step 2 Ok P_wq_show boarding_sh init_gates
  = Some (P_wq_stat2, set_passengerChecked 2 boarding_sh, init_gates, Stmt [])
  /\ hostessStat (st (set_passengerChecked 2 boarding_sh)) = hostessStat (st boarding_sh)
  /\ totalPassBoarded (set_passengerChecked 2 boarding_sh) = totalPassBoarded boarding_sh
  /\ (passengerChecked (set_passengerChecked 2 boarding_sh) = passengerChecked boarding_sh
      \/ passengerChecked (set_passengerChecked 2 boarding_sh) = Z.of_nat 2).
Proof.
  assert (Hs : passenger_step 2 Ok P_wq_show boarding_sh init_gates
               = Some (P_wq_stat2, set_passengerChecked 2 boarding_sh, init_gates,
                       Stmt [])) by reflexivity.
  split; [exact Hs|].
  pose proof (passenger_frame _ _ _ _ _ _ _ _ _ Hs) as H. tauto.
Defined.

Lemma waitInQueue_effect_witness :
  0 < semval init_gates mutex
  /\ (2 < length (passengerStat (st boarding_sh)))%nat
  /\ passenger_run 5 2 P_wq_lock1 boarding_sh init_gates
     = Some (P_wq_wait,
             set_passengerStat (<[2%nat := IN_QUEUE]> (passengerStat (st boarding_sh)))
               (set_nPassInQueue (nPassInQueue boarding_sh + 1) boarding_sh),
             semset init_gates passengersInQueue
               (semval init_gates passengersInQueue + 1),
             [Gate Down mutex; Stmt []; Stmt [saveState]; Gate Up mutex;
              Gate Up passengersInQueue]).
Proof.
  assert (H1 : 0 < semval init_gates mutex) by reflexivity.
  assert (H2 : (2 < length (passengerStat (st boarding_sh)))%nat) by (simpl; lia).
  split; [exact H1|]. split; [exact H2|].
  exact (proj1 (waitInQueue_effect 2 boarding_sh init_gates H1 H2)).
Defined.

Lemma hostess_waits_witness :
  0 < semval init_gates mutex
  /\ @hostess_run scenario 3 (mkHLocal H_wnf_lock 0 false false) boarding_sh init_gates
     = Some (mkHLocal H_wnf_wait 0 false false,
             set_hostessStat WAIT_FOR_FLIGHT boarding_sh, init_gates,
             [Gate Down mutex; Stmt [saveState]; Gate Up mutex]).
Proof.
  assert (H1 : 0 < semval init_gates mutex) by reflexivity.
  split; [exact H1|].
  exact (proj1 (@hostess_waits scenario 0 false false boarding_sh init_gates H1)).
Defined.

Lemma passenger_id_accepted_witness :
  0 <= @N scenario <= 2 ^ 31
  /\ @passenger_main scenario 5 minus_one 10 some_key 0 0 0 = Some (Started 4294967295)
  /\ 4294967295 = number minus_one mod 2 ^ 32
  /\ rest_empty minus_one = true
  /\ to_int 4294967295 < @N scenario
  /\ (0 <= 4294967295 < @N scenario \/ 2 ^ 31 <= 4294967295 < 2 ^ 32)
  /\ (4294967295 < @N scenario <-> 0 <= to_int 4294967295)
  /\ forall (m : FULL_STAT) (S : SEMS),
       Z.of_nat (length (passengerStat (st m))) = @N scenario ->
       (passenger_step (Z.to_nat 4294967295) Ok P_wq_stat1 m S <> None
        <-> 4294967295 < @N scenario).
Proof.
  assert (HN : 0 <= @N scenario <= 2 ^ 31) by (simpl; lia).
  assert (Hs : @passenger_main scenario 5 minus_one 10 some_key 0 0 0
               = Some (Started 4294967295)) by reflexivity.
  split; [exact HN|]. split; [exact Hs|].
  exact (@passenger_id_accepted scenario 5 minus_one 10 some_key 0 0 0 4294967295 HN Hs).
Defined.

Lemma waitUntilDestination_effect_witness :
  0 < semval init_gates mutex
  /\ (2 < length (passengerStat (st boarding_sh)))%nat
  /\ (semval init_gates passengersWaitInFlight <= 0 ->
      passenger_step 2 Ok P_wd_wait boarding_sh init_gates = None).
Proof.
  assert (H1 : 0 < semval init_gates mutex) by reflexivity.
  assert (H2 : (2 < length (passengerStat (st boarding_sh)))%nat) by (simpl; lia).
  split; [exact H1|]. split; [exact H2|].
  exact (proj1 (waitUntilDestination_effect 2 boarding_sh init_gates H1 H2)).
Defined.
